(** * json2csv: a shallow embedding of lib/json2csv.js

    The conversion routine of lib/json2csv.js is embedded function by
    function: normalizeData, normalizeParams, createColumnTitles,
    replaceQuotationMarks, createColumnContent, createDataRows and the
    exported entry point (called json2csv, as in the test suite).

    JavaScript values are trees here.  Numbers are the integers (printed
    in decimal), strings are sequences of code units below 256, and an
    object is the list of its own enumerable properties in enumeration
    order.  Inherited (prototype) members are not part of a value: a
    statement about a key that a row does not have excludes the names
    of the members of Object.prototype.  String.prototype.replace is
    embedded with the dollar patterns of its replacement string, paths
    with the dot syntax of lodash (no brackets).  Thrown exceptions are
    results of type [result].  The one place where the program mutates
    objects, the unwind of createDataRows, is also given on a store of
    objects with identity. *)

From Stdlib Require Import String Ascii List ZArith Lia Bool Arith DecimalString DecimalPos.
Import ListNotations.
Local Open Scope list_scope.
Local Open Scope string_scope.

(** ** Characters and strings of the host language *)

(** The double quote character. *)
Definition dquote : ascii := "034"%char.
(** The backslash character. *)
Definition bslash : ascii := "092"%char.
(** The line feed character. *)
Definition linefeed : ascii := "010"%char.

Definition str1 (c : ascii) : string := String c EmptyString.

Module JsString.

(** Number of occurrences of a character. *)
Fixpoint count (c : ascii) (s : string) : nat :=
  match s with
  | EmptyString => 0
  | String a s' => (if Ascii.eqb a c then 1 else 0) + count c s'
  end.

(** Array.prototype.join on an array of strings. *)
Fixpoint join (sep : string) (l : list string) : string :=
  match l with
  | [] => ""
  | [x] => x
  | x :: l' => x ++ sep ++ join sep l'
  end.

(** s.split('') : the one-character pieces of a string. *)
Fixpoint chars (s : string) : list string :=
  match s with
  | EmptyString => []
  | String a s' => str1 a :: chars s'
  end.

(** The rest of a string after its first n characters. *)
Fixpoint dropChars (n : nat) (s : string) : string :=
  match n, s with
  | O, _ => s
  | S _, EmptyString => ""
  | S k, String _ s' => dropChars k s'
  end.

(** GetSubstitution: the text that the replacement string of
    String.prototype.replace stands for at one match.  A dollar sign
    twice is one dollar sign, dollar and ampersand the matched text,
    dollar and backquote the text before the match, dollar and
    apostrophe the text after it.  The patterns of the program have no
    capture group, so a dollar sign in front of any other character, or
    at the end, stands for itself. *)
Fixpoint substitution (rep matched before after : string) : string :=
  match rep with
  | EmptyString => ""
  | String a rest =>
      if Ascii.eqb a "$" then
        match rest with
        | EmptyString => String a ""
        | String b rest' =>
            if Ascii.eqb b "$" then String b (substitution rest' matched before after)
            else if Ascii.eqb b "&" then matched ++ substitution rest' matched before after
            else if Ascii.eqb b "`" then before ++ substitution rest' matched before after
            else if Ascii.eqb b "'" then after ++ substitution rest' matched before after
            else String a (substitution rest matched before after)
        end
      else String a (substitution rest matched before after)
  end.

(** s.replace(/pat/g, rep) for a literal, non-empty pattern: matches are
    found left to right and do not overlap.  [skip] counts the characters
    of the current match that are still to be dropped, [before] is the
    part of the string that has been read. *)
Fixpoint replaceFrom (pat rep before : string) (skip : nat) (s : string) : string :=
  match s with
  | EmptyString => ""
  | String a s' =>
      match skip with
      | S k => replaceFrom pat rep (before ++ str1 a) k s'
      | O =>
          if String.prefix pat s
          then substitution rep pat before (dropChars (String.length pat) s)
               ++ replaceFrom pat rep (before ++ str1 a) (String.length pat - 1) s'
          else String a (replaceFrom pat rep (before ++ str1 a) 0 s')
      end
  end.

Definition replace (pat rep s : string) : string := replaceFrom pat rep "" 0 s.

(** A replacement string without a dollar sign stands for itself. *)
Definition noDollar (rep : string) : bool := (count "$" rep =? 0)%nat.

(** The replacement of every match by a text that is inserted as it
    is: what [replace] does for a replacement without a dollar sign
    (lemma replace_literal).  The statements use it to describe such a
    replacement. *)
Fixpoint replaceGo (pat rep : string) (skip : nat) (s : string) : string :=
  match s with
  | EmptyString => ""
  | String a s' =>
      match skip with
      | S k => replaceGo pat rep k s'
      | O =>
          if String.prefix pat s
          then rep ++ replaceGo pat rep (String.length pat - 1) s'
          else String a (replaceGo pat rep 0 s')
      end
  end.

Definition replaceAll (pat rep s : string) : string := replaceGo pat rep 0 s.

(** s.split(sep) for a non-empty separator: the first portion and the
    portions after it. *)
Fixpoint splitGo (sep : string) (skip : nat) (s : string) : string * list string :=
  match s with
  | EmptyString => ("", [])
  | String a s' =>
      match skip with
      | S k => splitGo sep k s'
      | O =>
          if String.prefix sep s
          then let (p, ps) := splitGo sep (String.length sep - 1) s' in ("", p :: ps)
          else let (p, ps) := splitGo sep 0 s' in (String a p, ps)
      end
  end.

Definition split (sep s : string) : list string :=
  let (p, ps) := splitGo sep 0 s in p :: ps.

(** Array(n).join(sep): n empty slots joined by the separator. *)
Definition Array_join (n : nat) (sep : string) : string :=
  join sep (repeat "" n).

End JsString.

(** ** Values *)

Unset Elimination Schemes.
Inductive value : Type :=
| VUndefined
| VNull
| VBool (b : bool)
| VNum (n : Z)
| VStr (s : string)
| VArr (xs : list value)
| VObj (props : list (string * value)).
Set Elimination Schemes.

Inductive jstype : Type :=
| TUndefined | TObject | TBoolean | TNumber | TString | TFunction.

Definition typeof (v : value) : jstype :=
  match v with
  | VUndefined => TUndefined
  | VNull => TObject
  | VBool _ => TBoolean
  | VNum _ => TNumber
  | VStr _ => TString
  | VArr _ => TObject
  | VObj _ => TObject
  end.

Definition jstype_eqb (a b : jstype) : bool :=
  match a, b with
  | TUndefined, TUndefined | TObject, TObject | TBoolean, TBoolean
  | TNumber, TNumber | TString, TString | TFunction, TFunction => true
  | _, _ => false
  end.

(** ToBoolean. *)
Definition truthy (v : value) : bool :=
  match v with
  | VUndefined | VNull => false
  | VBool b => b
  | VNum n => negb (n =? 0)%Z
  | VStr s => negb (s =? "")
  | VArr _ | VObj _ => true
  end.

Definition isArray (v : value) : bool :=
  match v with VArr _ => true | _ => false end.

(** lodash isObject: a non-null value of type object. *)
Definition isObject (v : value) : bool :=
  match v with VArr _ | VObj _ => true | _ => false end.

Definition isNullish (v : value) : bool :=
  match v with VUndefined | VNull => true | _ => false end.

(** ** Exceptions *)

Inductive exn : Type :=
| JsError (message : string)   (* throw new Error(message) *)
| JsTypeError.                 (* a TypeError raised by the runtime *)

Inductive result (A : Type) : Type :=
| Ok (a : A)
| Throw (e : exn).
Arguments Ok {A} a.
Arguments Throw {A} e.

Definition bind {A B : Type} (r : result A) (k : A -> result B) : result B :=
  match r with
  | Ok a => k a
  | Throw e => Throw e
  end.

Notation "x <- c1 ;; c2" := (bind c1 (fun x => c2))
  (at level 61, c1 at next level, right associativity).

Fixpoint mapM {A B : Type} (f : A -> result B) (l : list A) : result (list B) :=
  match l with
  | [] => Ok []
  | x :: l' => y <- f x ;; ys <- mapM f l' ;; Ok (y :: ys)
  end.

(** forEach with an accumulator that the callback updates and that an
    exception abandons. *)
Fixpoint foldM {A B : Type} (f : A -> B -> result A) (l : list B) (a : A) : result A :=
  match l with
  | [] => Ok a
  | x :: l' => a' <- f a x ;; foldM f l' a'
  end.

(** ** Property access *)

Definition props : Type := list (string * value).

Fixpoint lookup (key : string) (ps : props) : option value :=
  match ps with
  | [] => None
  | (k, v) :: ps' => if k =? key then Some v else lookup key ps'
  end.

(** object[key] = v on a plain object: an existing property keeps its
    place, a new one is added last (a new key that is an array index is
    not moved in front, as an engine would). *)
Fixpoint setProp (ps : props) (key : string) (v : value) : props :=
  match ps with
  | [] => [(key, v)]
  | (k, w) :: ps' => if k =? key then (k, v) :: ps' else (k, w) :: setProp ps' key v
  end.

Definition indexKey (i : nat) : string :=
  NilEmpty.string_of_uint (Nat.to_uint i).

Definition indexKeys (n : nat) : list string := map indexKey (seq 0 n).

(** A key that is the canonical decimal form of an array index. *)
Definition arrayIndex (key : string) : option N :=
  match NilEmpty.uint_of_string key with
  | Some u =>
      let n := N.of_uint u in
      if NilEmpty.string_of_uint (N.to_uint n) =? key then Some n else None
  | None => None
  end.

Definition isIndex (key : string) : bool :=
  match arrayIndex key with Some _ => true | None => false end.

Definition charAt (s : string) (i : nat) : value :=
  match String.get i s with
  | Some a => VStr (str1 a)
  | None => VUndefined
  end.

(** object[key], for an object that is not null or undefined: the own
    properties.  The members that a value inherits from its prototype
    (constructor, toString and the like, which are functions) are not
    values of the embedding; a statement that depends on a key being
    absent excludes their names (objectPrototypeNames). *)
Definition getProp (object : value) (key : string) : value :=
  match object with
  | VObj ps => match lookup key ps with Some v => v | None => VUndefined end
  | VArr xs =>
      match arrayIndex key with
      | Some i => nth (N.to_nat i) xs VUndefined
      | None => if key =? "length" then VNum (Z.of_nat (List.length xs)) else VUndefined
      end
  | VStr s =>
      match arrayIndex key with
      | Some i => charAt s (N.to_nat i)
      | None => if key =? "length" then VNum (Z.of_nat (String.length s)) else VUndefined
      end
  | _ => VUndefined
  end.

(** key in Object(object), for the own properties (inherited members
    are left out, as in getProp). *)
Definition hasIn (object : value) (key : string) : bool :=
  match object with
  | VObj ps => match lookup key ps with Some _ => true | None => false end
  | VArr xs =>
      match arrayIndex key with
      | Some i => (i <? N.of_nat (List.length xs))%N
      | None => key =? "length"
      end
  | VStr s =>
      match arrayIndex key with
      | Some i => (i <? N.of_nat (String.length s))%N
      | None => key =? "length"
      end
  | _ => false
  end.

(** Object.keys. *)
Definition Object_keys (v : value) : result (list string) :=
  match v with
  | VUndefined | VNull => Throw JsTypeError
  | VBool _ | VNum _ => Ok []
  | VStr s => Ok (indexKeys (String.length s))
  | VArr xs => Ok (indexKeys (List.length xs))
  | VObj ps => Ok (map fst ps)
  end.

(** Object.getOwnPropertyNames(v).length, for a truthy v. *)
Definition ownPropertyNamesLength (v : value) : nat :=
  match v with
  | VObj ps => List.length ps
  | VArr xs => S (List.length xs)
  | VStr s => S (String.length s)
  | _ => 0
  end.

(** ** JSON.stringify *)

Definition hexDigit (n : nat) : ascii :=
  nth n (list_ascii_of_string "0123456789abcdef") "0"%char.

Definition escapeChar (c : ascii) : string :=
  let n := nat_of_ascii c in
  if Ascii.eqb c dquote then String bslash (str1 dquote)
  else if Ascii.eqb c bslash then String bslash (str1 bslash)
  else if (n =? 8)%nat then String bslash "b"
  else if (n =? 9)%nat then String bslash "t"
  else if (n =? 10)%nat then String bslash "n"
  else if (n =? 12)%nat then String bslash "f"
  else if (n =? 13)%nat then String bslash "r"
  else if (n <? 32)%nat then
    String bslash ("u00" ++ String (hexDigit (n / 16)) (str1 (hexDigit (n mod 16))))
  else str1 c.

Fixpoint escapeString (s : string) : string :=
  match s with
  | EmptyString => ""
  | String a s' => escapeChar a ++ escapeString s'
  end.

(** JSON.stringify of a string. *)
Definition JSON_quote (s : string) : string :=
  String dquote (escapeString s ++ str1 dquote).

(** The text of a number that is an integer: its decimal numeral.  This
    is what JavaScript prints for the integers that a double holds
    exactly and that have fewer than 22 digits; the other integers are
    not numbers of the program. *)
Definition numberToString (n : Z) : string :=
  NilEmpty.string_of_int (Z.to_int n).

(** JSON.stringify(v); None stands for the result undefined. *)
Fixpoint JSON_stringify (v : value) : option string :=
  match v with
  | VUndefined => None
  | VNull => Some "null"
  | VBool true => Some "true"
  | VBool false => Some "false"
  | VNum n => Some (numberToString n)
  | VStr s => Some (JSON_quote s)
  | VArr xs =>
      Some ("[" ++ JsString.join ","
                     (map (fun x => match JSON_stringify x with
                                    | Some s => s
                                    | None => "null"
                                    end) xs) ++ "]")
  | VObj ps =>
      Some ("{" ++ JsString.join ","
                     (flat_map (fun kv => match JSON_stringify (snd kv) with
                                          | Some s => [JSON_quote (fst kv) ++ ":" ++ s]
                                          | None => []
                                          end) ps) ++ "}")
  end.

(** ** The lodash helpers and flat

    These packages are dependencies of the program; they are embedded
    after their documented behaviour, for paths that use the dot syntax
    only (no brackets). *)

(** stringToPath: the keys between the dots.  This is what lodash does
    for a path without brackets; a path with brackets is not embedded
    and the statements on paths exclude it (simpleKey). *)
Definition stringToPath (path : string) : list string :=
  JsString.split "." path.

(** castPath(path, object): a path that names a property of the object
    is a single key. *)
Definition castPath (path : string) (object : value) : list string :=
  if hasIn object path then [path] else stringToPath path.

Fixpoint baseGetFrom (object : value) (keys : list string) : value :=
  match keys with
  | [] => object
  | key :: rest =>
      if isNullish object then VUndefined
      else baseGetFrom (getProp object key) rest
  end.

Definition baseGet (object : value) (keys : list string) : value :=
  match keys with
  | [] => VUndefined
  | _ :: _ => baseGetFrom object keys
  end.

(** lodash.get(object, path, defaultValue). *)
Definition lodashGet (object : value) (path : string) (defaultValue : value) : value :=
  let result :=
    if isNullish object then VUndefined
    else baseGet object (castPath path object) in
  match result with
  | VUndefined => defaultValue
  | _ => result
  end.

(** array[i] = v; a slot past the end grows the array and the slots in
    between read as undefined. *)
Fixpoint setNth (xs : list value) (i : nat) (v : value) : list value :=
  match i, xs with
  | O, [] => [v]
  | O, _ :: xs' => v :: xs'
  | S i', [] => VUndefined :: setNth [] i' v
  | S i', x :: xs' => x :: setNth xs' i' v
  end.

(** assignValue(object, key, v) of lodash: object[key] = v. *)
Definition assignValue (object : value) (key : string) (v : value) : value :=
  match object with
  | VObj ps => VObj (setProp ps key v)
  | VArr xs =>
      match arrayIndex key with
      | Some i => VArr (setNth xs (N.to_nat i) v)
      | None => object
      end
  | _ => object
  end.

Fixpoint baseSetFrom (nested : value) (keys : list string) (v : value) : value :=
  match keys with
  | [] => nested
  | key :: rest =>
      match rest with
      | [] => assignValue nested key v
      | next :: _ =>
          let objValue := getProp nested key in
          let newValue :=
            if isObject objValue then objValue
            else if isIndex next then VArr [] else VObj [] in
          assignValue nested key (baseSetFrom newValue rest v)
      end
  end.

(** lodash.set(object, path, v); the updated object is the result. *)
Definition lodashSet (object : value) (path : string) (v : value) : value :=
  if isObject object then baseSetFrom object (castPath path object) v
  else object.

(** lodash.clonedeep: values are trees, a deep copy is the same tree. *)
Definition lodashCloneDeep (v : value) : value := v.

(** lodash.has(object, path): the path leads to an own property.  The
    program does not call it; the statements on the unwind do. *)
Fixpoint baseHasFrom (object : value) (keys : list string) : bool :=
  match keys with
  | [] => false
  | key :: rest =>
      match rest with
      | [] => hasIn object key
      | _ :: _ => hasIn object key && baseHasFrom (getProp object key) rest
      end
  end.

Definition lodashHas (object : value) (path : string) : bool :=
  baseHasFrom object (castPath path object).

(** lodash.flatten on an array of arrays of keys. *)
Definition lodashFlattenKeys (dataFields : list (list string)) : list string :=
  concat dataFields.

(** lodash.flatten(array): one level of nesting is removed.  A value
    that is not an array has no elements to flatten unless it has an
    own length: the loop of lodash runs while the index is below the
    length, compared as a number. *)
Definition flattenOnce (xs : list value) : list value :=
  flat_map (fun x => match x with VArr ys => ys | _ => [x] end) xs.

(** The number of indexes below a length property: a number, a string
    that is a decimal numeral, or true (which counts as one).  Other
    lengths (numerals in another notation, arrays) are not embedded and
    count as none. *)
Definition indexesBelow (length : value) : nat :=
  match length with
  | VNum n => Z.to_nat n
  | VStr s => match arrayIndex s with Some n => N.to_nat n | None => 0 end
  | VBool true => 1
  | _ => 0
  end.

Definition lodashFlatten (array : value) : list value :=
  match array with
  | VArr xs => flattenOnce xs
  | VObj ps =>
      match lookup "length" ps with
      | Some length =>
          flattenOnce (map (fun i => getProp array (indexKey i)) (seq 0 (indexesBelow length)))
      | None => []
      end
  | _ => []
  end.

(** lodash.uniq: the first occurrence of every element, in order. *)
Definition lodashUniq (l : list string) : list string :=
  fold_left (fun seen k => if existsb (String.eqb k) seen then seen else (seen ++ [k])%list) l [].

(** flat: the test of its step function for descending into a value,
    its type is Object or Array and it has keys. *)
Definition isFlattenable (v : value) : bool :=
  match v with
  | VObj (_ :: _) | VArr (_ :: _) => true
  | _ => false
  end.

(** prev ? prev + delimiter + key : key *)
Definition newKey (prev key : string) : string :=
  if prev =? "" then key else prev ++ "." ++ key.

Fixpoint flatChars (prev : string) (i : nat) (s : string) (output : props) : props :=
  match s with
  | EmptyString => output
  | String a s' =>
      flatChars prev (S i) s' (setProp output (newKey prev (indexKey i)) (VStr (str1 a)))
  end.

(** The step function of flat; the output object is threaded through. *)
Fixpoint flatStep (object : value) (prev : string) (output : props) {struct object} : props :=
  match object with
  | VObj ps =>
      (fix each (ps : list (string * value)) (out : props) : props :=
         match ps with
         | [] => out
         | (key, v) :: ps' =>
             each ps' (if isFlattenable v
                       then flatStep v (newKey prev key) out
                       else setProp out (newKey prev key) v)
         end) ps output
  | VArr xs =>
      (fix each (i : nat) (xs : list value) (out : props) : props :=
         match xs with
         | [] => out
         | v :: xs' =>
             each (S i) xs' (if isFlattenable v
                             then flatStep v (newKey prev (indexKey i)) out
                             else setProp out (newKey prev (indexKey i)) v)
         end) 0 xs output
  | VStr s => flatChars prev 0 s output
  | _ => output
  end.

(** flatten(target) of the flat package. *)
Definition flat (target : value) : result value :=
  _ <- Object_keys target ;;
  Ok (VObj (flatStep target "" [])).

(** ** Field specifications and parameters *)

(** The second argument of a computed field: label and default of the
    field element, undefined when absent. *)
Record fieldMeta : Type := {
  meta_label : option string;
  meta_default : value
}.

(** The value property of a field element. *)
Inductive fieldValue : Type :=
| PathValue (path : string)
| FunctionValue (fn : value -> fieldMeta -> list value -> value)
| OtherValue.   (* absent, or neither a string nor a function *)

(** A field element that is an object; [default] is None when the
    object has no such property. *)
Record fieldObject : Type := {
  label : option string;
  fvalue : fieldValue;
  default : option value
}.

Inductive field : Type :=
| FieldString (path : string)
| FieldObject (o : fieldObject).

(** Json2CsvParams as the caller passes it; None is an omitted option. *)
Record Json2CsvParams : Type := {
  fields : option (list field);
  fieldNames : option (list string);
  del : option string;
  defaultValue : value;
  quotes : option string;
  doubleQuotes : option string;
  hasCSVColumnTitle : option bool;
  eol : option string;
  newLine : option string;
  flatten : bool;
  unwindPath : option string;
  excelStrings : bool;
  includeEmptyRows : bool
}.

(** The params object after normalizeParams has filled it in.  A field
    name is None when it is not a string (a function, or undefined). *)
Record Normalized : Type := {
  n_fields : list field;
  n_fieldNames : list (option string);
  n_del : string;
  n_defaultValue : value;
  n_quotes : string;
  n_doubleQuotes : string;
  n_hasCSVColumnTitle : bool;
  n_eol : string;
  n_newLine : option string;
  n_unwindPath : option string;
  n_excelStrings : bool;
  n_includeEmptyRows : bool
}.

(** params || {} *)
Definition noParams : Json2CsvParams := {|
  fields := None; fieldNames := None; del := None; defaultValue := VUndefined;
  quotes := None; doubleQuotes := None; hasCSVColumnTitle := None; eol := None;
  newLine := None; flatten := false; unwindPath := None; excelStrings := false;
  includeEmptyRows := false
|}.

(** s || d for an optional string s. *)
Definition orElse (s : option string) (d : string) : string :=
  match s with
  | Some x => if x =? "" then d else x
  | None => d
  end.

Definition msgData : string := "Data needs to be an object or array".
Definition msgFields : string :=
  String.concat "" ["params should include "; str1 dquote; "fields"; str1 dquote;
                    " and/or non-empty "; str1 dquote; "data"; str1 dquote;
                    " array of objects"].
Definition msgFieldNames : string :=
  "fieldNames and fields should be of the same length, if fieldNames is provided.".

(** ** The program *)

(** normalizeData.  data.map(flatten) passes the index as the options
    of flat; a number has none of the options, so they are the defaults. *)
Definition normalizeData (data : value) (params : Json2CsvParams) : result (list value) :=
  if negb (jstype_eqb (typeof data) TObject) then Throw (JsError msgData)
  else
    let data := if truthy data then data else VArr [] in
    let data := match data with VArr xs => xs | _ => [data] end in
    if flatten params then mapM flat data else Ok data.

(** The first part of normalizeParams: the field list it settles on,
    None when params.fields stays undefined. *)
Definition resolveFields (params : Json2CsvParams) (data : value) : result (option (list field)) :=
  _ <- match fields params, data with
       | None, VArr [] => Throw (JsError msgFields)
       | None, VArr (x :: _) =>
           if jstype_eqb (typeof x) TObject then Ok tt else Throw (JsError msgFields)
       | _, _ => Ok tt
       end ;;
  match fields params with
  | Some fs => Ok (Some fs)
  | None =>
      match data with
      | VArr xs =>
          dataFields <- mapM Object_keys xs ;;
          Ok (Some (map FieldString (lodashUniq (lodashFlattenKeys dataFields))))
      | _ =>
          if flatten params
          then Ok (Some (map FieldString (indexKeys (List.length (lodashFlatten data)))))
          else Ok None
      end
  end.

(** field.label || field.value *)
Definition labelOrValue (o : fieldObject) : option string :=
  match label o with
  | Some l => if l =? "" then
                match fvalue o with PathValue p => Some p | _ => None end
              else Some l
  | None => match fvalue o with PathValue p => Some p | _ => None end
  end.

Definition fieldName (names : option (list string)) (fieldElement : field) (i : nat)
    : option string :=
  match fieldElement with
  | FieldString path =>
      match names with
      | Some ns => nth_error ns i
      | None => Some path
      end
  | FieldObject o => labelOrValue o
  end.

Fixpoint mapi {A B : Type} (f : A -> nat -> B) (i : nat) (l : list A) : list B :=
  match l with
  | [] => []
  | x :: l' => f x i :: mapi f (S i) l'
  end.

Definition normalizeParams (params : Json2CsvParams) (data : value) : result Normalized :=
  resolved <- resolveFields params data ;;
  _ <- match fieldNames params with
       | Some names =>
           match resolved with
           | None => Throw JsTypeError
           | Some fs =>
               if negb (List.length names =? List.length fs)%nat
               then Throw (JsError msgFieldNames) else Ok tt
           end
       | None => Ok tt
       end ;;
  match resolved with
  | None => Throw JsTypeError
  | Some fs =>
      let quotes' := match quotes params with Some q => q | None => str1 dquote end in
      Ok {| n_fields := fs;
            n_fieldNames := mapi (fieldName (fieldNames params)) 0 fs;
            n_del := orElse (del params) ",";
            n_defaultValue := defaultValue params;
            n_quotes := quotes';
            n_doubleQuotes := match doubleQuotes params with
                              | Some d => d
                              | None => JsString.Array_join 3 quotes'
                              end;
            n_hasCSVColumnTitle := match hasCSVColumnTitle params with
                                   | Some false => false
                                   | _ => true
                                   end;
            n_eol := orElse (eol params) "";
            n_newLine := newLine params;
            n_unwindPath := unwindPath params;
            n_excelStrings := excelStrings params;
            n_includeEmptyRows := includeEmptyRows params |}
  end.

(** The text one field name adds to the title row. *)
Definition titleCell (params : Normalized) (element : option string) : result string :=
  match element with
  | Some name =>
      Ok (JsString.replace (str1 dquote) (n_quotes params) (JSON_quote name))
  | None => Throw JsTypeError
  end.

(** The body of the loop over params.fieldNames. *)
Definition titleStep (params : Normalized) (str : string) (element : option string)
    : result string :=
  let str := if str =? "" then str else str ++ n_del params in
  cell <- titleCell params element ;;
  Ok (str ++ cell).

Definition createColumnTitles (params : Normalized) : result string :=
  if n_hasCSVColumnTitle params then foldM (titleStep params) (n_fieldNames params) ""
  else Ok "".

(** splitElement[i] = x, for an index inside the array. *)
Fixpoint setAt (l : list string) (i : nat) (x : string) : list string :=
  match l, i with
  | [], _ => []
  | _ :: l', O => x :: l'
  | y :: l', S i' => y :: setAt l' i' x
  end.

Definition isQuoteAt (s : string) (i : nat) : bool :=
  match String.get i s with
  | Some a => Ascii.eqb a dquote
  | None => false
  end.

Definition replaceQuotationMarks (stringifiedElement quotes : string) : string :=
  let lastCharIndex := String.length stringifiedElement - 1 in
  if isQuoteAt stringifiedElement 0 && isQuoteAt stringifiedElement lastCharIndex then
    let splitElement := JsString.chars stringifiedElement in
    let splitElement := setAt splitElement 0 quotes in
    let splitElement := setAt splitElement lastCharIndex quotes in
    JsString.join "" splitElement
  else stringifiedElement.

(** createDataRows: the unwind logic. *)
Definition unwindStep (unwindPath : string) (dataRows : list value) (dataEl : value) : list value :=
  let unwindArray := lodashGet dataEl unwindPath VUndefined in
  match unwindArray with
  | VArr ((_ :: _) as els) =>
      fold_left (fun dataRows unwindEl =>
                   let dataCopy := lodashCloneDeep dataEl in
                   let dataCopy := lodashSet dataCopy unwindPath unwindEl in
                   (dataRows ++ [dataCopy])%list)
                els dataRows
  | VArr [] =>
      let dataCopy := lodashCloneDeep dataEl in
      let dataCopy := lodashSet dataCopy unwindPath VUndefined in
      (dataRows ++ [dataCopy])%list
  | _ => (dataRows ++ [dataEl])%list
  end.

Definition createDataRows (data : list value) (params : Normalized) : list value :=
  match n_unwindPath params with
  | Some unwindPath =>
      if unwindPath =? "" then data
      else fold_left (unwindStep unwindPath) data []
  | None => data
  end.

(** createDataRows on a store of row objects.  Here a row has an
    identity, its position in the store: lodash.clonedeep allocates a
    new object, lodash.set mutates the object it is given, and dataRows
    holds references.  [createDataRows] above is its reading on values;
    the two agree (createDataRowsRef_spec). *)
Definition deref (st : list value) (r : nat) : value := nth r st VUndefined.

Definition allocate (st : list value) (v : value) : nat * list value :=
  (List.length st, (st ++ [v])%list).

Fixpoint mutate (st : list value) (r : nat) (v : value) : list value :=
  match st, r with
  | [], _ => []
  | _ :: st', O => v :: st'
  | x :: st', S r' => x :: mutate st' r' v
  end.

Definition cloneDeepRef (st : list value) (r : nat) : nat * list value :=
  allocate st (lodashCloneDeep (deref st r)).

Definition setRef (st : list value) (r : nat) (path : string) (v : value) : list value :=
  mutate st r (lodashSet (deref st r) path v).

Definition pushCopy (unwindPath : string) (dataEl : nat) (acc : list nat * list value)
    (unwindEl : value) : list nat * list value :=
  let (dataRows, st) := acc in
  let (dataCopy, st) := cloneDeepRef st dataEl in
  let st := setRef st dataCopy unwindPath unwindEl in
  ((dataRows ++ [dataCopy])%list, st).

Definition unwindStepRef (unwindPath : string) (acc : list nat * list value)
    (dataEl : nat) : list nat * list value :=
  let unwindArray := lodashGet (deref (snd acc) dataEl) unwindPath VUndefined in
  match unwindArray with
  | VArr ((_ :: _) as els) => fold_left (pushCopy unwindPath dataEl) els acc
  | VArr [] => pushCopy unwindPath dataEl acc VUndefined
  | _ => ((fst acc ++ [dataEl])%list, snd acc)
  end.

Definition createDataRowsRef (data : list nat) (params : Normalized) (st : list value)
    : list nat * list value :=
  match n_unwindPath params with
  | Some unwindPath =>
      if unwindPath =? "" then (data, st)
      else fold_left (unwindStepRef unwindPath) data ([], st)
  | None => (data, st)
  end.

(** The default that applies to a field element. *)
Definition fieldDefault (params : Normalized) (fieldElement : field) : value :=
  match fieldElement with
  | FieldString _ => n_defaultValue params
  | FieldObject o =>
      match default o with
      | Some d => d
      | None => n_defaultValue params
      end
  end.

(** The value of a cell: looked up or computed, then replaced by the
    default when it is null or undefined. *)
Definition cellValue (params : Normalized) (data : list value) (dataElement : value)
    (fieldElement : field) : value :=
  let defaultValue := fieldDefault params fieldElement in
  let val :=
    match fieldElement with
    | FieldString path =>
        if path =? "" then VUndefined else lodashGet dataElement path defaultValue
    | FieldObject o =>
        match fvalue o with
        | PathValue path => lodashGet dataElement path defaultValue
        | FunctionValue fn =>
            fn dataElement
               {| meta_label := label o;
                  meta_default := match default o with Some d => d | None => VUndefined end |}
               data
        | OtherValue => VUndefined
        end
    end in
  if isNullish val then defaultValue else val.

Definition twoBackslashes : string := String bslash (str1 bslash).
Definition escapedQuote : string := String bslash (str1 dquote).

(** The text of a cell whose value is not undefined. *)
Definition cellText (params : Normalized) (val : value) : result string :=
  match JSON_stringify val with
  | None => Throw JsTypeError
  | Some stringifiedElement =>
      let stringifiedElement :=
        if jstype_eqb (typeof val) TObject then JSON_quote stringifiedElement
        else stringifiedElement in
      let stringifiedElement :=
        if n_quotes params =? str1 dquote then stringifiedElement
        else replaceQuotationMarks stringifiedElement (n_quotes params) in
      let stringifiedElement :=
        JsString.replace twoBackslashes (str1 bslash) stringifiedElement in
      let stringifiedElement :=
        if n_excelStrings params && jstype_eqb (typeof val) TString
        then String dquote (String "="%char (str1 dquote)) ++ stringifiedElement
             ++ String dquote (str1 dquote)
        else stringifiedElement in
      Ok stringifiedElement
  end.

(** The body of the loop over params.fields. *)
Definition appendCell (params : Normalized) (data : list value) (dataElement : value)
    (line : string) (fieldElement : field) : result string :=
  let val := cellValue params data dataElement fieldElement in
  line <- match val with
          | VUndefined => Ok line
          | _ => stringifiedElement <- cellText params val ;; Ok (line ++ stringifiedElement)
          end ;;
  Ok (line ++ n_del params).

(** What happens to a line once its cells are in: the last delimiter
    character goes, escaped quotes become params.doubleQuotes and the
    doubled backslashes are collapsed. *)
Definition finishLine (params : Normalized) (line : string) : string :=
  let line := substring 0 (String.length line - 1) line in
  let line :=
    JsString.join twoBackslashes
      (map (fun portion => JsString.replace escapedQuote (n_doubleQuotes params) portion)
           (JsString.split twoBackslashes line)) in
  JsString.replace twoBackslashes (str1 bslash) line.

Definition createLine (params : Normalized) (data : list value) (dataElement : value)
    : result string :=
  line <- foldM (appendCell params data dataElement) (n_fields params) "" ;;
  Ok (finishLine params line).

(** params.newLine || os.EOL || '\n' *)
Definition lineTerminator (os_EOL : string) (params : Normalized) : string :=
  orElse (n_newLine params) (orElse (Some os_EOL) (str1 linefeed)).

Definition isRendered (params : Normalized) (dataElement : value) : bool :=
  truthy dataElement
  && ((0 <? ownPropertyNamesLength dataElement)%nat || n_includeEmptyRows params).

Definition appendLine (os_EOL : string) (params : Normalized) (output line : string) : string :=
  if output =? "" then line ++ n_eol params
  else output ++ lineTerminator os_EOL params ++ line ++ n_eol params.

(** The body of the loop over the data rows. *)
Definition contentStep (os_EOL : string) (params : Normalized) (data : list value)
    (output : string) (dataElement : value) : result string :=
  if isRendered params dataElement then
    line <- createLine params data dataElement ;;
    Ok (appendLine os_EOL params output line)
  else Ok output.

Definition createColumnContent (os_EOL : string) (data : list value) (output : string)
    (params : Normalized) : result string :=
  let dataRows := createDataRows data params in
  foldM (contentStep os_EOL params data) dataRows output.

(** module.exports, with os.EOL of the platform as a parameter. *)
Definition json2csv (os_EOL : string) (data : value) (params : option Json2CsvParams)
    : result string :=
  let params := match params with Some p => p | None => noParams end in
  normalizedData <- normalizeData data params ;;
  normalizedParams <- normalizeParams params data ;;
  titles <- createColumnTitles normalizedParams ;;
  createColumnContent os_EOL normalizedData titles normalizedParams.

(** ** Definitions used by the statements *)

(** A params object with the given fields and every other option omitted. *)
Definition withFields (fs : list field) : Json2CsvParams := {|
  fields := Some fs; fieldNames := None; del := None; defaultValue := VUndefined;
  quotes := None; doubleQuotes := None; hasCSVColumnTitle := None; eol := None;
  newLine := None; flatten := false; unwindPath := None; excelStrings := false;
  includeEmptyRows := false
|}.

(** A params object that only asks for flattening. *)
Definition onlyFlatten : Json2CsvParams := {|
  fields := None; fieldNames := None; del := None; defaultValue := VUndefined;
  quotes := None; doubleQuotes := None; hasCSVColumnTitle := None; eol := None;
  newLine := None; flatten := true; unwindPath := None; excelStrings := false;
  includeEmptyRows := false
|}.

(** The rows [{a:1},{a:2}]. *)
Definition rowsA12 : value :=
  VArr [VObj [("a", VNum 1)]; VObj [("a", VNum 2)]].

(** The text of a string between two quote characters. *)
Definition quoted (s : string) : string := String dquote (s ++ str1 dquote).

(** The unwind of one row in the words of the specification: one copy
    per element of a non-empty array with the path set to the element,
    one copy with the path set to undefined for an empty array, the row
    itself otherwise. *)
Definition specUnwindRow (unwindPath : string) (row : value) : list value :=
  match lodashGet row unwindPath VUndefined with
  | VArr [] => [lodashSet (lodashCloneDeep row) unwindPath VUndefined]
  | VArr els => map (fun el => lodashSet (lodashCloneDeep row) unwindPath el) els
  | _ => [row]
  end.


(** The rows that produce a line, and their lines. *)
Definition renderedRows (params : Normalized) (data : list value) : list value :=
  filter (isRendered params) (createDataRows data params).

Definition renderedLines (params : Normalized) (data : list value) : result (list string) :=
  mapM (createLine params data) (renderedRows params data).





(** Params with the fields a and b, no title row and the doubleQuotes
    setting that names the text after the match. *)
Definition dollarAfter : Json2CsvParams := {|
  fields := Some [FieldString "a"; FieldString "b"]; fieldNames := None; del := None;
  defaultValue := VUndefined; quotes := None; doubleQuotes := Some "$'";
  hasCSVColumnTitle := Some false; eol := None; newLine := None; flatten := false;
  unwindPath := None; excelStrings := false; includeEmptyRows := false
|}.

(** Params with the field a and a quote setting. *)
Definition withQuotes (q : string) : Json2CsvParams := {|
  fields := Some [FieldString "a"]; fieldNames := None; del := None;
  defaultValue := VUndefined; quotes := Some q; doubleQuotes := None;
  hasCSVColumnTitle := None; eol := None; newLine := None; flatten := false;
  unwindPath := None; excelStrings := false; includeEmptyRows := false
|}.


(** Total number of occurrences of a character in a list of strings. *)
Definition countAll (c : ascii) (l : list string) : nat :=
  list_sum (map (JsString.count c) l).

(** The input of the test on fieldNames that do not line up: one row
    with three properties, no fields, two field names. *)
Definition carRow : value :=
  VObj [("carModel", VStr "Audi"); ("price", VNum 0); ("color", VStr "blue")].

Definition twoFieldNames : Json2CsvParams := {|
  fields := None; fieldNames := Some ["test"; "blah"]; del := None;
  defaultValue := VUndefined; quotes := None; doubleQuotes := None;
  hasCSVColumnTitle := None; eol := None; newLine := None; flatten := false;
  unwindPath := None; excelStrings := false; includeEmptyRows := false
|}.

(** Fields ['a'] together with the field names ['x','y']. *)
Definition oneFieldTwoNames : Json2CsvParams := {|
  fields := Some [FieldString "a"]; fieldNames := Some ["x"; "y"]; del := None;
  defaultValue := VUndefined; quotes := None; doubleQuotes := None;
  hasCSVColumnTitle := None; eol := None; newLine := None; flatten := false;
  unwindPath := None; excelStrings := false; includeEmptyRows := false
|}.

(** Every field has a string for its name in the title row. *)
Definition namesAreStrings (params : Json2CsvParams) (fs : list field) : Prop :=
  Forall (fun name => name <> None) (mapi (fieldName (fieldNames params)) 0 fs).



(** A key of a flattened object that lies under the key prev. *)
Definition underPrefix (prev key : string) : Prop :=
  exists rest, key = prev ++ "." ++ rest.

(** The normalized params when every option is omitted and the field
    list is empty. *)
Definition defaultNormalized : Normalized := {|
  n_fields := []; n_fieldNames := []; n_del := ","; n_defaultValue := VUndefined;
  n_quotes := str1 dquote; n_doubleQuotes := String dquote (str1 dquote);
  n_hasCSVColumnTitle := true; n_eol := ""; n_newLine := None; n_unwindPath := None;
  n_excelStrings := false; n_includeEmptyRows := false
|}.

(** The row {id:1, colors:['red','blue']} and the normalized params
    that unwind the path colors. *)
Definition colorsRow : value :=
  VObj [("id", VNum 1); ("colors", VArr [VStr "red"; VStr "blue"])].

Definition unwindColors : Normalized := {|
  n_fields := [FieldString "id"; FieldString "colors"]; n_fieldNames := [Some "id"; Some "colors"];
  n_del := ","; n_defaultValue := VUndefined;
  n_quotes := str1 dquote; n_doubleQuotes := String dquote (str1 dquote);
  n_hasCSVColumnTitle := true; n_eol := ""; n_newLine := None;
  n_unwindPath := Some "colors"; n_excelStrings := false; n_includeEmptyRows := false
|}.

(** The text a field adds to the line before the delimiter: nothing
    for a value that is undefined, the text of the cell otherwise. *)
Definition fieldText (params : Normalized) (data : list value) (dataElement : value)
    (fieldElement : field) : result string :=
  match cellValue params data dataElement fieldElement with
  | VUndefined => Ok ""
  | val => cellText params val
  end.

(** A string without its first n characters. *)
Fixpoint drop (n : nat) (s : string) : string :=
  match n, s with
  | O, _ => s
  | S k, String _ s' => drop k s'
  | S _, EmptyString => ""
  end.

(** The row {a:'x,y'}. *)
Definition commaRow : value := VObj [("a", VStr "x,y")].

(** The fields ['a','b'] and what normalizeParams makes of them. *)
Definition fieldsAB : Json2CsvParams := withFields [FieldString "a"; FieldString "b"].

Definition normalizedAB : Normalized := {|
  n_fields := [FieldString "a"; FieldString "b"]; n_fieldNames := [Some "a"; Some "b"];
  n_del := ","; n_defaultValue := VUndefined;
  n_quotes := str1 dquote; n_doubleQuotes := String dquote (str1 dquote);
  n_hasCSVColumnTitle := true; n_eol := ""; n_newLine := None; n_unwindPath := None;
  n_excelStrings := false; n_includeEmptyRows := false
|}.

(** The fields ['carModel','price','color'] of the test suite. *)
Definition carFields : list field :=
  [FieldString "carModel"; FieldString "price"; FieldString "color"].

Definition carTitles : string :=
  quoted "carModel" ++ "," ++ quoted "price" ++ "," ++ quoted "color".

(** A reference to a copy: an object that was not in the store st. *)
Definition isCopy (st : list value) (r : nat) : bool := (List.length st <=? r)%nat.

(** ** Definitions used by the further properties *)

(** A character that JSON.stringify copies as it is, or escapes as a
    quote: not a control character and not the backslash. *)
Definition plainChar (c : ascii) : bool :=
  (32 <=? nat_of_ascii c)%nat && negb (Ascii.eqb c bslash).

Fixpoint plainString (s : string) : bool :=
  match s with
  | EmptyString => true
  | String a s' => plainChar a && plainString s'
  end.

(** The JSON text of a value, empty where JSON.stringify gives undefined. *)
Definition jsonText (v : value) : string :=
  match JSON_stringify v with
  | Some s => s
  | None => ""
  end.

(** A value whose text has no control character and no backslash. *)
Definition plainValue (v : value) : bool :=
  match v with
  | VStr s => plainString s
  | VNull | VArr _ | VObj _ => plainString (jsonText v)
  | VUndefined | VBool _ | VNum _ => true
  end.

(** A text between the quote setting, its double quotes replaced by
    params.doubleQuotes. *)
Definition csvQuoted (params : Normalized) (s : string) : string :=
  n_quotes params
  ++ JsString.replaceAll (str1 dquote) (n_doubleQuotes params) s
  ++ n_quotes params.

(** '"="' + s + '""' *)
Definition excelWrapped (s : string) : string :=
  String dquote (String "="%char (str1 dquote)) ++ s ++ String dquote (str1 dquote).

(** The cell of a value as it stands in a finished line, for a plain
    value. *)
Definition csvText (params : Normalized) (v : value) : string :=
  match v with
  | VUndefined => ""
  | VBool true => "true"
  | VBool false => "false"
  | VNum n => numberToString n
  | VStr s =>
      if n_excelStrings params then excelWrapped (csvQuoted params s)
      else csvQuoted params s
  | VNull | VArr _ | VObj _ => csvQuoted params (jsonText v)
  end.

(** [Escapes dq s t]: the text s, in which a backslash only stands in
    front of a double quote, and the text t that the last passes of
    createColumnContent make of it, every backslash and quote pair
    replaced by dq. *)
Inductive Escapes (dq : string) : string -> string -> Prop :=
| Escapes_nil : Escapes dq "" ""
| Escapes_char (c : ascii) (s t : string) :
    c <> bslash -> Escapes dq s t -> Escapes dq (String c s) (String c t)
| Escapes_quote (s t : string) :
    Escapes dq s t -> Escapes dq (String bslash (String dquote s)) (dq ++ t).

(** The passes of finishLine after the cut of the last character. *)
Definition escapeLine (params : Normalized) (line : string) : string :=
  let line :=
    JsString.join twoBackslashes
      (map (fun portion => JsString.replaceAll escapedQuote (n_doubleQuotes params) portion)
           (JsString.split twoBackslashes line)) in
  JsString.replaceAll twoBackslashes (str1 bslash) line.

(** A row that createColumnContent passes over. *)
Definition isSkipped (params : Normalized) (row : value) : Prop :=
  truthy row = false
  \/ (n_includeEmptyRows params = false /\ ownPropertyNamesLength row = 0).

(** Params with path fields, field names and nothing else. *)
Definition withNames (paths names : list string) : Json2CsvParams := {|
  fields := Some (map FieldString paths); fieldNames := Some names; del := None;
  defaultValue := VUndefined; quotes := None; doubleQuotes := None;
  hasCSVColumnTitle := None; eol := None; newLine := None; flatten := false;
  unwindPath := None; excelStrings := false; includeEmptyRows := false
|}.

(** A text without control characters. *)
Fixpoint printable (s : string) : bool :=
  match s with
  | EmptyString => true
  | String a s' => (32 <=? nat_of_ascii a)%nat && printable s'
  end.

(** The normalized params for the single field 'a' and the defaults. *)
Definition normalizedA : Normalized := {|
  n_fields := [FieldString "a"]; n_fieldNames := [Some "a"];
  n_del := ","; n_defaultValue := VUndefined;
  n_quotes := str1 dquote; n_doubleQuotes := String dquote (str1 dquote);
  n_hasCSVColumnTitle := true; n_eol := ""; n_newLine := None; n_unwindPath := None;
  n_excelStrings := false; n_includeEmptyRows := false
|}.

(** The params object as normalizeParams leaves it, when every field
    name is a string: the options it assigns hold the normalized
    settings, the others are as the caller gave them. *)
Definition assignedParams (params : Json2CsvParams) (np : Normalized) (names : list string)
    : Json2CsvParams := {|
  fields := Some (n_fields np); fieldNames := Some names; del := Some (n_del np);
  defaultValue := n_defaultValue np; quotes := Some (n_quotes np);
  doubleQuotes := Some (n_doubleQuotes np);
  hasCSVColumnTitle := Some (n_hasCSVColumnTitle np); eol := Some (n_eol np);
  newLine := newLine params; flatten := flatten params; unwindPath := unwindPath params;
  excelStrings := excelStrings params; includeEmptyRows := includeEmptyRows params
|}.

(** A field computed from the row, without a label. *)
Definition computedField (fn : value -> fieldMeta -> list value -> value) : field :=
  FieldObject {| label := None; fvalue := FunctionValue fn; default := None |}.

(** The names of the members that a plain object inherits from
    Object.prototype.  Property access finds them on an object that has
    no own property of that name.  The embedding reads own properties
    only (getProp), so the statements on a key that a row does not have
    leave these names out. *)
Definition objectPrototypeNames : list string :=
  ["constructor"; "hasOwnProperty"; "isPrototypeOf"; "propertyIsEnumerable";
   "toLocaleString"; "toString"; "valueOf"; "__proto__"; "__defineGetter__";
   "__defineSetter__"; "__lookupGetter__"; "__lookupSetter__"].

Definition inheritedName (k : string) : bool :=
  existsb (String.eqb k) objectPrototypeNames.

(** The name whose assignment sets the prototype of an object instead
    of a property. *)
Definition protoKey : string := "__proto__".

(** A key that lodash reads as one property name and flat writes as
    one property: not empty, without a dot and without a bracket, and
    not the name that stands for the prototype. *)
Definition simpleKey (k : string) : bool :=
  negb (k =? "") && (JsString.count "."%char k =? 0)%nat
  && (JsString.count "["%char k =? 0)%nat && (JsString.count "]"%char k =? 0)%nat
  && negb (k =? protoKey).

Fixpoint distinct (l : list string) : bool :=
  match l with
  | [] => true
  | k :: l' => negb (existsb (String.eqb k) l') && distinct l'
  end.

(** A row that is a plain object, or null. *)
Definition plainObjectRow (row : value) : bool :=
  match row with
  | VObj _ | VNull => true
  | _ => false
  end.

(** Data whose rows are plain objects or null: an array of such rows, a
    single object, or null. *)
Definition plainData (data : value) : bool :=
  match data with
  | VArr rows => forallb plainObjectRow rows
  | VObj _ | VNull => true
  | _ => false
  end.

(** A path that names one property and no member of Object.prototype. *)
Definition ownKeyPath (path : string) : bool :=
  simpleKey path && negb (inheritedName path).

(** Every object inside the value has simple keys, none of them twice. *)
Fixpoint tidy (v : value) : bool :=
  match v with
  | VObj ps =>
      distinct (map fst ps) && forallb simpleKey (map fst ps)
      && forallb (fun kv => tidy (snd kv)) ps
  | VArr xs => forallb tidy xs
  | _ => true
  end.

(** The value that the keys lead to through the properties of nested
    objects, when flat stores it: a value it does not descend into. *)
Fixpoint leafAt (v : value) (ks : list string) : option value :=
  match ks with
  | [] => if isFlattenable v then None else Some v
  | k :: rest =>
      match v with
      | VObj ps => match lookup k ps with Some x => leafAt x rest | None => None end
      | _ => None
      end
  end.

(** The loop of the step function of flat over the properties of an
    object. *)
Definition flatProps (prev : string) (ps : props) (out : props) : props :=
  fold_left (fun out kv =>
               if isFlattenable (snd kv)
               then flatStep (snd kv) (newKey prev (fst kv)) out
               else setProp out (newKey prev (fst kv)) (snd kv))
            ps out.

(** A row with a nested object. *)
Definition nestedRow : value :=
  VObj [("id", VNum 1); ("car", VObj [("make", VStr "Audi"); ("year", VNum 2011)])].

(** * Verification *)

(** ** The cases of test/index.js that state their expected output *)

Example test_empty_object_only_title :
  json2csv (str1 linefeed) (VObj []) (Some (withFields carFields)) = Ok carTitles.
Proof. reflexivity. Qed.

Example test_null_row_only_title :
  json2csv (str1 linefeed) (VArr [VNull]) (Some (withFields carFields)) = Ok carTitles.
Proof. reflexivity. Qed.

Example test_not_an_object :
  json2csv (str1 linefeed) (VStr "not an object") (Some twoFieldNames)
  = Throw (JsError "Data needs to be an object or array").
Proof. reflexivity. Qed.

Example test_quote_after_backslash :
  json2csv (str1 linefeed) (VArr [VObj [("field", VStr (String bslash (str1 dquote)))]]) None
  = Ok (quoted "field" ++ str1 linefeed
        ++ String dquote (String bslash (String dquote (str1 dquote)))).
Proof. reflexivity. Qed.

Example unwind_then_render :
  json2csv (str1 linefeed)
    (VArr [colorsRow; VObj [("id", VNum 2); ("colors", VArr [])]; VObj [("id", VNum 3)]])
    (Some {| fields := Some [FieldString "id"; FieldString "colors"]; fieldNames := None;
             del := None; defaultValue := VUndefined; quotes := None; doubleQuotes := None;
             hasCSVColumnTitle := Some false; eol := None; newLine := None;
             flatten := false; unwindPath := Some "colors"; excelStrings := false;
             includeEmptyRows := false |})
  = Ok ("1," ++ quoted "red" ++ str1 linefeed ++ "1," ++ quoted "blue" ++ str1 linefeed
        ++ "2," ++ str1 linefeed ++ "3,").
Proof. reflexivity. Qed.

(** ** Replacement strings with dollar patterns, empty lines *)

Example doubleQuotes_text_after_match :
  json2csv (str1 linefeed)
    (VArr [VObj [("a", VStr (String "x" (String dquote "y"))); ("b", VNum 1)]])
    (Some dollarAfter)
  = Ok (String dquote "xy" ++ String dquote ",1y" ++ String dquote ",1").
Proof. reflexivity. Qed.

Example quotes_dollar :
  json2csv (str1 linefeed) (VArr [VObj [("a", VStr (String "x" (String dquote "y")))]])
    (Some (withQuotes "$"))
  = Ok ("$a$" ++ str1 linefeed ++ "$x$y$").
Proof. reflexivity. Qed.

Example quotes_dollar_ampersand :
  json2csv (str1 linefeed) (VArr [VObj [("a", VStr "v")]]) (Some (withQuotes "$&"))
  = Ok (quoted "a" ++ str1 linefeed ++ "$&v$&").
Proof. reflexivity. Qed.

Example empty_first_line_leaves_no_trace :
  json2csv (str1 linefeed)
    (VArr [VObj [("b", VNum 1)]; VObj [("a", VNum 2)]; VObj [("a", VNum 3)]])
    (Some {| fields := Some [FieldString "a"]; fieldNames := None;
             del := None; defaultValue := VUndefined; quotes := None; doubleQuotes := None;
             hasCSVColumnTitle := Some false; eol := None; newLine := None;
             flatten := false; unwindPath := None; excelStrings := false;
             includeEmptyRows := false |})
  = Ok ("2" ++ str1 linefeed ++ "3").
Proof. reflexivity. Qed.

(** ** Strings *)

Lemma append_nil_r (s : string) : s ++ "" = s.
Proof.
  induction s as [|a s IH]; simpl; [reflexivity | now rewrite IH].
Qed.

Lemma append_assoc (s t u : string) : (s ++ t) ++ u = s ++ t ++ u.
Proof.
  induction s as [|a s IH]; simpl; [reflexivity | now rewrite IH].
Qed.

Lemma length_append (s t : string) :
  String.length (s ++ t) = String.length s + String.length t.
Proof.
  induction s as [|a s IH]; simpl; [reflexivity | now rewrite IH].
Qed.

Lemma count_append (c : ascii) (s t : string) :
  JsString.count c (s ++ t) = JsString.count c s + JsString.count c t.
Proof.
  induction s as [|a s IH]; simpl; [reflexivity | rewrite IH; lia].
Qed.

Lemma prefix_nil (s : string) : String.prefix "" s = true.
Proof. destruct s; reflexivity. Qed.

Lemma prefix_cons (a b : ascii) (p s : string) :
  String.prefix (String a p) (String b s) = Ascii.eqb a b && String.prefix p s.
Proof.
  change (String.prefix (String a p) (String b s))
    with (if ascii_dec a b then String.prefix p s else false).
  destruct (ascii_dec a b) as [->|Hn].
  - now rewrite Ascii.eqb_refl.
  - apply Ascii.eqb_neq in Hn. now rewrite Hn.
Qed.

Lemma prefix_cons_nil (a : ascii) (p : string) : String.prefix (String a p) "" = false.
Proof. reflexivity. Qed.

Arguments String.prefix : simpl never.

Lemma replaceGo_skip (pat rep : string) (k : nat) (a : ascii) (s : string) :
  JsString.replaceGo pat rep (S k) (String a s) = JsString.replaceGo pat rep k s.
Proof. reflexivity. Qed.

Lemma replaceGo_here (pat rep : string) (a : ascii) (s : string) :
  JsString.replaceGo pat rep 0 (String a s)
  = if String.prefix pat (String a s)
    then rep ++ JsString.replaceGo pat rep (String.length pat - 1) s
    else String a (JsString.replaceGo pat rep 0 s).
Proof. reflexivity. Qed.

Lemma splitGo_skip (sep : string) (k : nat) (a : ascii) (s : string) :
  JsString.splitGo sep (S k) (String a s) = JsString.splitGo sep k s.
Proof. reflexivity. Qed.

Lemma splitGo_here (sep : string) (a : ascii) (s : string) :
  JsString.splitGo sep 0 (String a s)
  = if String.prefix sep (String a s)
    then let (p, ps) := JsString.splitGo sep (String.length sep - 1) s in ("", p :: ps)
    else let (p, ps) := JsString.splitGo sep 0 s in (String a p, ps).
Proof. reflexivity. Qed.

Lemma count_cons (c a : ascii) (s : string) :
  JsString.count c (String a s) = (if Ascii.eqb a c then 1 else 0) + JsString.count c s.
Proof. reflexivity. Qed.

Lemma count_cons_zero (c a : ascii) (s : string) :
  JsString.count c (String a s) = 0 -> Ascii.eqb a c = false /\ JsString.count c s = 0.
Proof.
  rewrite count_cons. destruct (Ascii.eqb a c); simpl; [discriminate | auto].
Qed.

(** ** Replacement strings *)

Lemma substitution_literal (rep matched before after : string) :
  JsString.noDollar rep = true -> JsString.substitution rep matched before after = rep.
Proof.
  unfold JsString.noDollar. rewrite Nat.eqb_eq.
  induction rep as [|a rep IH]; intros H; [reflexivity|].
  apply count_cons_zero in H. destruct H as [Ha Hrep].
  cbn [JsString.substitution]. rewrite Ha. f_equal. now apply IH.
Qed.

Lemma replaceFrom_literal (pat rep : string) :
  JsString.noDollar rep = true ->
  forall s before skip,
    JsString.replaceFrom pat rep before skip s = JsString.replaceGo pat rep skip s.
Proof.
  intros Hrep. induction s as [|a s IH]; intros before skip; [reflexivity|].
  cbn [JsString.replaceFrom JsString.replaceGo]. destruct skip as [|k]; [|apply IH].
  rewrite !IH, (substitution_literal rep _ _ _ Hrep). reflexivity.
Qed.

(** A replacement without a dollar sign is inserted as it is. *)
Lemma replace_literal (pat rep s : string) :
  JsString.noDollar rep = true -> JsString.replace pat rep s = JsString.replaceAll pat rep s.
Proof.
  intros H. now apply replaceFrom_literal.
Qed.

Lemma noDollar_count (rep : string) :
  JsString.noDollar rep = true <-> JsString.count "$"%char rep = 0.
Proof.
  unfold JsString.noDollar. apply Nat.eqb_eq.
Qed.

Lemma replace_backslashes (s : string) :
  JsString.replace twoBackslashes (str1 bslash) s
  = JsString.replaceAll twoBackslashes (str1 bslash) s.
Proof.
  now apply replace_literal.
Qed.

(** cellText, its one replacement written as the insertion that it is. *)
Lemma cellText_eq (params : Normalized) (val : value) :
  cellText params val
  = match JSON_stringify val with
    | None => Throw JsTypeError
    | Some stringifiedElement =>
        let stringifiedElement :=
          if jstype_eqb (typeof val) TObject then JSON_quote stringifiedElement
          else stringifiedElement in
        let stringifiedElement :=
          if n_quotes params =? str1 dquote then stringifiedElement
          else replaceQuotationMarks stringifiedElement (n_quotes params) in
        let stringifiedElement :=
          JsString.replaceAll twoBackslashes (str1 bslash) stringifiedElement in
        let stringifiedElement :=
          if n_excelStrings params && jstype_eqb (typeof val) TString
          then String dquote (String "="%char (str1 dquote)) ++ stringifiedElement
               ++ String dquote (str1 dquote)
          else stringifiedElement in
        Ok stringifiedElement
    end.
Proof.
  unfold cellText. destruct (JSON_stringify val); [|reflexivity].
  cbv zeta. now rewrite replace_backslashes.
Qed.

(** finishLine for a doubleQuotes setting without a dollar sign. *)
Lemma finishLine_eq (params : Normalized) (line : string) :
  JsString.noDollar (n_doubleQuotes params) = true ->
  finishLine params line
  = JsString.replaceAll twoBackslashes (str1 bslash)
      (JsString.join twoBackslashes
         (map (fun portion =>
                 JsString.replaceAll escapedQuote (n_doubleQuotes params) portion)
              (JsString.split twoBackslashes
                 (substring 0 (String.length line - 1) line)))).
Proof.
  intros H. unfold finishLine. rewrite replace_backslashes. do 2 f_equal.
  apply map_ext. intros portion. now apply replace_literal.
Qed.

(** titleCell for a quote setting without a dollar sign. *)
Lemma titleCell_eq (params : Normalized) (name : string) :
  JsString.noDollar (n_quotes params) = true ->
  titleCell params (Some name)
  = Ok (JsString.replaceAll (str1 dquote) (n_quotes params) (JSON_quote name)).
Proof.
  intros H. cbn [titleCell]. now rewrite replace_literal.
Qed.

(** ** The result monad *)

Lemma bind_Ok {A B : Type} (r : result A) (k : A -> result B) (b : B) :
  bind r k = Ok b -> exists a, r = Ok a /\ k a = Ok b.
Proof.
  destruct r as [a|e]; simpl; intros H; [exists a; auto | discriminate].
Qed.

Lemma bind_Throw {A B : Type} (r : result A) (k : A -> result B) (e : exn) :
  bind r k = Throw e -> r = Throw e \/ exists a, r = Ok a /\ k a = Throw e.
Proof.
  destruct r as [a|e']; simpl; intros H; [right; exists a; auto | left; congruence].
Qed.

Lemma mapM_Throw {A B : Type} (P : exn -> Prop) (f : A -> result B) (l : list A) :
  (forall x e, f x = Throw e -> P e) ->
  forall e, mapM f l = Throw e -> P e.
Proof.
  intros Hf. induction l as [|x l IH]; simpl; intros e H; [discriminate|].
  destruct (f x) as [y|e'] eqn:Hx; simpl in H.
  - destruct (mapM f l) as [ys|e'']; simpl in H; [discriminate|].
    apply IH. congruence.
  - inversion H; subst. eapply Hf; eauto.
Qed.

Lemma mapM_total {A B : Type} (f : A -> result B) (l : list A) :
  (forall x, exists y, f x = Ok y) -> exists ys, mapM f l = Ok ys.
Proof.
  intros Hf. induction l as [|x l [ys IH]]; simpl; [eauto|].
  destruct (Hf x) as [y Hy]. rewrite Hy, IH. simpl. eauto.
Qed.

Lemma mapM_length {A B : Type} (f : A -> result B) (l : list A) (ys : list B) :
  mapM f l = Ok ys -> List.length ys = List.length l.
Proof.
  revert ys. induction l as [|x l IH]; simpl; intros ys H.
  - inversion H; reflexivity.
  - destruct (f x); simpl in H; [|discriminate].
    destruct (mapM f l); simpl in H; [|discriminate].
    inversion H; subst; simpl. f_equal. apply IH. reflexivity.
Qed.

Lemma foldM_Throw {A B : Type} (P : exn -> Prop) (f : A -> B -> result A) (l : list B) :
  (forall a x e, f a x = Throw e -> P e) ->
  forall a e, foldM f l a = Throw e -> P e.
Proof.
  intros Hf. induction l as [|x l IH]; simpl; intros a e H; [discriminate|].
  destruct (f a x) as [a'|e'] eqn:Hx; simpl in H.
  - eapply IH; eauto.
  - inversion H; subst. eapply Hf; eauto.
Qed.

Lemma foldM_total {A B : Type} (f : A -> B -> result A) (l : list B) :
  (forall a x, exists a', f a x = Ok a') -> forall a, exists a', foldM f l a = Ok a'.
Proof.
  intros Hf. induction l as [|x l IH]; simpl; intros a; [eauto|].
  destruct (Hf a x) as [a' Ha]. rewrite Ha. simpl. apply IH.
Qed.

(** ** Rendering never throws on the values of the model *)

Lemma JSON_stringify_defined (v : value) :
  v <> VUndefined -> exists s, JSON_stringify v = Some s.
Proof.
  destruct v as [| |b|n|s|xs|ps]; intros H; simpl; try (eexists; reflexivity).
  - congruence.
  - destruct b; eexists; reflexivity.
Qed.

Lemma cellText_total (params : Normalized) (val : value) :
  val <> VUndefined -> exists s, cellText params val = Ok s.
Proof.
  intros H. unfold cellText.
  destruct (JSON_stringify_defined val H) as [s ->]. eexists; reflexivity.
Qed.

Lemma appendCell_total (params : Normalized) (data : list value) (row : value)
    (line : string) (f : field) :
  exists line', appendCell params data row line f = Ok line'.
Proof.
  unfold appendCell.
  destruct (cellValue params data row f) eqn:Hv; simpl; try (eexists; reflexivity);
    match goal with
    | |- context [cellText params ?v] =>
        let s := fresh "s" in let Hs := fresh "Hs" in
        assert (Hne : v <> VUndefined) by discriminate;
        destruct (cellText_total params v Hne) as [s Hs]; rewrite Hs; simpl;
        eexists; reflexivity
    end.
Qed.

Lemma createLine_total (params : Normalized) (data : list value) (row : value) :
  exists line, createLine params data row = Ok line.
Proof.
  unfold createLine.
  destruct (foldM_total (appendCell params data row) (n_fields params)
              (appendCell_total params data row) "") as [l Hl].
  rewrite Hl. simpl. eexists; reflexivity.
Qed.

Lemma renderedLines_total (params : Normalized) (data : list value) :
  exists lines, renderedLines params data = Ok lines.
Proof.
  unfold renderedLines. apply mapM_total. intros x. apply createLine_total.
Qed.

Lemma createColumnContent_total (os_EOL : string) (data : list value) (output : string)
    (params : Normalized) :
  exists doc, createColumnContent os_EOL data output params = Ok doc.
Proof.
  unfold createColumnContent. apply foldM_total. intros a x. unfold contentStep.
  destruct (isRendered params x); [|eexists; reflexivity].
  destruct (createLine_total params data x) as [l ->]. simpl. eexists; reflexivity.
Qed.

(** ** Which exceptions the stages raise *)

Lemma flat_Throw (v : value) (e : exn) : flat v = Throw e -> e = JsTypeError.
Proof.
  unfold flat. destruct v; simpl; intros H; congruence.
Qed.

Lemma Object_keys_Throw (v : value) (e : exn) : Object_keys v = Throw e -> e = JsTypeError.
Proof.
  destruct v; simpl; intros H; congruence.
Qed.

Lemma normalizeData_object (data : value) (params : Json2CsvParams) (e : exn) :
  typeof data = TObject -> normalizeData data params = Throw e -> e = JsTypeError.
Proof.
  intros Ht. unfold normalizeData. rewrite Ht. simpl.
  destruct (flatten params); [|discriminate].
  apply (mapM_Throw (fun e => e = JsTypeError)). apply flat_Throw.
Qed.

Lemma normalizeData_not_object (data : value) (params : Json2CsvParams) :
  typeof data <> TObject -> normalizeData data params = Throw (JsError msgData).
Proof.
  intros Ht. unfold normalizeData.
  destruct data; simpl in *; try reflexivity; congruence.
Qed.

Lemma resolveFields_Throw (params : Json2CsvParams) (data : value) (e : exn) :
  resolveFields params data = Throw e -> e = JsTypeError \/ e = JsError msgFields.
Proof.
  unfold resolveFields. intros H.
  destruct (fields params) as [fs|]; simpl in H.
  - destruct data; simpl in H; discriminate.
  - destruct data as [| |b|n|s|xs|ps]; simpl in H;
      try (destruct (flatten params); discriminate).
    destruct xs as [|x xs]; simpl in H; [right; congruence|].
    destruct (jstype_eqb (typeof x) TObject); simpl in H; [|right; congruence].
    left.
    destruct (Object_keys x) as [k|e'] eqn:Hk; simpl in H.
    + destruct (mapM Object_keys xs) as [ks|e''] eqn:Hks; simpl in H; [discriminate|].
      inversion H; subst.
      apply (mapM_Throw (fun e => e = JsTypeError) Object_keys xs Object_keys_Throw _ Hks).
    + inversion H; subst. eapply Object_keys_Throw; eauto.
Qed.

Lemma normalizeParams_Throw (params : Json2CsvParams) (data : value) (e : exn) :
  normalizeParams params data = Throw e ->
  e = JsTypeError \/ e = JsError msgFields \/ e = JsError msgFieldNames.
Proof.
  unfold normalizeParams. intros H.
  destruct (resolveFields params data) as [resolved|e'] eqn:Hr; simpl in H.
  - destruct (fieldNames params) as [names|]; simpl in H.
    + destruct resolved as [fs|]; simpl in H; [|left; congruence].
      destruct (negb (List.length names =? List.length fs)%nat); simpl in H.
      * right; right; congruence.
      * discriminate.
    + destruct resolved; [discriminate | left; congruence].
  - inversion H; subst. destruct (resolveFields_Throw _ _ _ Hr); auto.
Qed.

Lemma createColumnTitles_Throw (params : Normalized) (e : exn) :
  createColumnTitles params = Throw e -> e = JsTypeError.
Proof.
  unfold createColumnTitles. destruct (n_hasCSVColumnTitle params); [|discriminate].
  apply (foldM_Throw (fun e => e = JsTypeError)).
  intros a x e' H. unfold titleStep in H. destruct x; simpl in H; congruence.
Qed.

Lemma json2csv_Throw (os_EOL : string) (data : value) (params : option Json2CsvParams)
    (e : exn) :
  typeof data = TObject -> json2csv os_EOL data params = Throw e ->
  e = JsTypeError \/ e = JsError msgFields \/ e = JsError msgFieldNames.
Proof.
  intros Ht H. unfold json2csv in H.
  apply bind_Throw in H. destruct H as [H|[rows [_ H]]].
  { left. eapply normalizeData_object; eauto. }
  apply bind_Throw in H. destruct H as [H|[np [_ H]]].
  { eapply normalizeParams_Throw; eauto. }
  apply bind_Throw in H. destruct H as [H|[titles [_ H]]].
  { left. eapply createColumnTitles_Throw; eauto. }
  destruct (createColumnContent_total os_EOL rows titles np) as [doc Hd].
  congruence.
Qed.

Lemma jstype_eq_dec (a b : jstype) : {a = b} + {a <> b}.
Proof. decide equality. Qed.

(** ** C6 *)

(** C6. The exported function throws the error with the message
    [Data needs to be an object or array] exactly when typeof data is not
    object, that is when data is undefined, a boolean, a number or a
    string (null, arrays and plain objects have typeof object).  The
    throw comes from normalizeData, the first stage, whatever the params. *)
Theorem C6_type_check (os_EOL : string) (data : value) (params : option Json2CsvParams) :
  (json2csv os_EOL data params = Throw (JsError msgData) <-> typeof data <> TObject)
  /\ (forall p, normalizeData data p = Throw (JsError msgData) <-> typeof data <> TObject)
  /\ (typeof data <> TObject <->
      match data with
      | VUndefined | VBool _ | VNum _ | VStr _ => True
      | VNull | VArr _ | VObj _ => False
      end).
Proof.
  split; [|split].
  - split.
    + intros H Ht. destruct (json2csv_Throw _ _ _ _ Ht H) as [E|[E|E]]; discriminate E.
    + intros Ht. unfold json2csv. rewrite (normalizeData_not_object _ _ Ht). reflexivity.
  - intros p. split.
    + intros H Ht. pose proof (normalizeData_object _ _ _ Ht H). discriminate.
    + apply normalizeData_not_object.
  - destruct data; simpl; split; intros H; try exact I; try congruence; try discriminate;
      try (exfalso; exact H); try (exfalso; apply H; reflexivity).
Qed.

(** ** C3 *)

(** C3 (as stated, refuted). For the rows [{a:1},{a:2}] with fields ['a'],
    default options and the line terminator \n, the document is not
    "a"\n"1"\n"2": the numeric cells carry no quote characters. *)
Lemma C3_numeric_cells_not_quoted :
  json2csv (str1 linefeed) rowsA12 (Some (withFields [FieldString "a"]))
  <> Ok (quoted "a" ++ str1 linefeed ++ quoted "1" ++ str1 linefeed ++ quoted "2").
Proof.
  vm_compute. discriminate.
Qed.

(** ** C8 *)

(** C8 (as stated, refuted). With quotes and doubleQuotes omitted the
    quote character is the double quote and the replacement sequence is
    not the quote character three times. *)
Lemma C8_not_tripled :
  exists np, normalizeParams (withFields [FieldString "a"]) (VArr []) = Ok np
             /\ n_doubleQuotes np <> n_quotes np ++ n_quotes np ++ n_quotes np.
Proof.
  eexists. split; [reflexivity|]. vm_compute. discriminate.
Qed.

(** C8 (amended). When doubleQuotes is omitted, the replacement sequence
    for an embedded quote is the configured quote character twice. *)
Theorem C8_default_doubleQuotes (params : Json2CsvParams) (data : value) (np : Normalized) :
  doubleQuotes params = None ->
  normalizeParams params data = Ok np ->
  n_doubleQuotes np = n_quotes np ++ n_quotes np.
Proof.
  intros Hd H. unfold normalizeParams in H.
  apply bind_Ok in H. destruct H as [resolved [_ H]].
  apply bind_Ok in H. destruct H as [u [_ H]].
  destruct resolved as [fs|]; [|discriminate].
  inversion H; subst; clear H. simpl. rewrite Hd.
  unfold JsString.Array_join. simpl.
  destruct (quotes params) as [q|]; simpl; now rewrite ?append_nil_r.
Qed.

Lemma C8_default_doubleQuotes_witness :
  exists np, normalizeParams (withFields [FieldString "a"]) (VArr []) = Ok np
             /\ n_doubleQuotes np = n_quotes np ++ n_quotes np.
Proof.
  eexists. split; [reflexivity|].
  apply (C8_default_doubleQuotes (withFields [FieldString "a"]) (VArr [])); reflexivity.
Defined.

(** ** Strings without backslashes *)

Lemma replaceAll_no_backslash (rep s : string) :
  JsString.count bslash s = 0 ->
  JsString.replaceAll twoBackslashes rep s = s.
Proof.
  unfold JsString.replaceAll. induction s as [|a s IH]; [reflexivity|].
  intros H. apply count_cons_zero in H. destruct H as [E H].
  rewrite replaceGo_here. unfold twoBackslashes at 1. rewrite prefix_cons.
  rewrite Ascii.eqb_sym, E. simpl. now rewrite IH.
Qed.

Lemma splitGo_no_backslash (s : string) :
  JsString.count bslash s = 0 -> JsString.splitGo twoBackslashes 0 s = (s, []).
Proof.
  induction s as [|a s IH]; [reflexivity|].
  intros H. apply count_cons_zero in H. destruct H as [E H].
  rewrite splitGo_here. unfold twoBackslashes at 1. rewrite prefix_cons.
  rewrite Ascii.eqb_sym, E. simpl. now rewrite IH.
Qed.

Lemma split_no_backslash (s : string) :
  JsString.count bslash s = 0 ->
  JsString.split twoBackslashes s = [s].
Proof.
  intros H. unfold JsString.split. now rewrite splitGo_no_backslash.
Qed.

Lemma count_zero_not_first (c : ascii) (s : string) :
  JsString.count c s = 0 ->
  match String.get 0 s with Some a => Ascii.eqb a c | None => false end = false.
Proof.
  destruct s as [|a s]; simpl; [reflexivity|].
  destruct (Ascii.eqb a c); [discriminate | reflexivity].
Qed.

Lemma string_of_uint_count (c : ascii) (d : Decimal.uint) :
  c = bslash \/ c = dquote ->
  JsString.count c (NilEmpty.string_of_uint d) = 0.
Proof.
  intros [-> | ->]; induction d; simpl; auto.
Qed.

Lemma numberToString_count (c : ascii) (n : Z) :
  c = bslash \/ c = dquote ->
  JsString.count c (numberToString n) = 0.
Proof.
  intros Hc. unfold numberToString.
  destruct (Z.to_int n) as [d|d]; simpl; [now apply string_of_uint_count|].
  rewrite string_of_uint_count by assumption.
  destruct Hc as [-> | ->]; reflexivity.
Qed.

Lemma cellText_number (params : Normalized) (n : Z) :
  cellText params (VNum n) = Ok (numberToString n).
Proof.
  rewrite cellText_eq. simpl.
  assert (Hq : replaceQuotationMarks (numberToString n) (n_quotes params) = numberToString n).
  { unfold replaceQuotationMarks, isQuoteAt.
    rewrite (count_zero_not_first dquote) by (apply numberToString_count; auto).
    reflexivity. }
  rewrite Hq.
  replace (if n_quotes params =? str1 dquote then numberToString n else numberToString n)
    with (numberToString n) by (destruct (n_quotes params =? str1 dquote); reflexivity).
  rewrite replaceAll_no_backslash by (apply numberToString_count; auto).
  now rewrite andb_false_r.
Qed.

(** C3 (amended). For the rows [{a:1},{a:2}] with fields ['a'], default
    options and the line terminator \n, the document is "a"\n1\n2: the
    header cell is quoted and the numeric cells are the bare number
    literals.  A numeric cell is its decimal literal under every
    configuration of quotes. *)
Theorem C3_document :
  json2csv (str1 linefeed) rowsA12 (Some (withFields [FieldString "a"]))
  = Ok (quoted "a" ++ str1 linefeed ++ "1" ++ str1 linefeed ++ "2")
  /\ forall (params : Normalized) (n : Z),
       cellText params (VNum n) = Ok (numberToString n).
Proof.
  split; [reflexivity | intros; apply cellText_number].
Qed.

(** ** C7 *)

(** C7. Once the data has passed normalizeData and the field list is
    resolved, a fieldNames array of another length makes normalizeParams,
    and with it the exported function, throw the error with the message
    of the source; no document is returned. *)
Theorem C7_fieldNames_length (os_EOL : string) (data : value) (params : Json2CsvParams)
    (rows : list value) (fs : list field) (names : list string) :
  normalizeData data params = Ok rows ->
  resolveFields params data = Ok (Some fs) ->
  fieldNames params = Some names ->
  List.length names <> List.length fs ->
  normalizeParams params data
  = Throw (JsError "fieldNames and fields should be of the same length, if fieldNames is provided.")
  /\ json2csv os_EOL data (Some params)
     = Throw (JsError "fieldNames and fields should be of the same length, if fieldNames is provided.").
Proof.
  intros Hd Hr Hn Hl.
  assert (Hp : normalizeParams params data = Throw (JsError msgFieldNames)).
  { unfold normalizeParams. rewrite Hr. simpl. rewrite Hn.
    apply Nat.eqb_neq in Hl. rewrite Hl. reflexivity. }
  split; [exact Hp|].
  unfold json2csv. rewrite Hd. simpl. rewrite Hp. reflexivity.
Qed.

Lemma C7_fieldNames_length_witness :
  json2csv (str1 linefeed) (VArr [carRow]) (Some twoFieldNames)
  = Throw (JsError "fieldNames and fields should be of the same length, if fieldNames is provided.").
Proof.
  apply (C7_fieldNames_length (str1 linefeed) (VArr [carRow]) twoFieldNames [carRow]
           (map FieldString ["carModel"; "price"; "color"]) ["test"; "blah"]).
  - reflexivity.
  - reflexivity.
  - reflexivity.
  - simpl. lia.
Defined.

(** ** C9 *)

Lemma titles_total (params : Normalized) (names : list (option string)) :
  Forall (fun name => name <> None) names ->
  forall str, exists header, foldM (titleStep params) names str = Ok header.
Proof.
  induction 1 as [|name names Hn _ IH]; intros str; simpl; [eauto|].
  destruct name as [name|]; [|congruence]. unfold titleStep at 1. simpl. apply IH.
Qed.

Lemma createColumnContent_no_rows (os_EOL output : string) (params : Normalized) :
  createColumnContent os_EOL [] output params = Ok output.
Proof.
  unfold createColumnContent, createDataRows.
  destruct (n_unwindPath params) as [p|]; [destruct (p =? "")|]; reflexivity.
Qed.

(** C9 (as stated, refuted). With data null and the explicit fields
    ['a'], field names of another length make the exported function throw. *)
Lemma C9_null_data_can_throw :
  json2csv (str1 linefeed) VNull (Some oneFieldTwoNames) = Throw (JsError msgFieldNames).
Proof.
  reflexivity.
Qed.

(** C9 (amended). For data null and an explicit field list, provided
    fieldNames is omitted or as long as the field list and, unless the
    header is disabled, every field has a string for its name: null
    passes the type check, the row sequence is empty and the result is the
    title row alone, which is the empty string when the header is
    disabled. *)
Theorem C9_null_data (os_EOL : string) (params : Json2CsvParams) (fs : list field) :
  fields params = Some fs ->
  (forall names, fieldNames params = Some names -> List.length names = List.length fs) ->
  (hasCSVColumnTitle params <> Some false -> namesAreStrings params fs) ->
  exists np header,
    normalizeData VNull params = Ok []
    /\ normalizeParams params VNull = Ok np
    /\ createColumnTitles np = Ok header
    /\ (hasCSVColumnTitle params = Some false -> header = "")
    /\ json2csv os_EOL VNull (Some params) = Ok header.
Proof.
  intros Hf Hn Hs.
  assert (Hd : normalizeData VNull params = Ok []).
  { unfold normalizeData. simpl. destruct (flatten params); reflexivity. }
  assert (Hr : resolveFields params VNull = Ok (Some fs)).
  { unfold resolveFields. rewrite Hf. reflexivity. }
  assert (Hp : exists np, normalizeParams params VNull = Ok np
                          /\ n_fieldNames np = mapi (fieldName (fieldNames params)) 0 fs
                          /\ n_hasCSVColumnTitle np
                             = match hasCSVColumnTitle params with
                               | Some false => false
                               | _ => true
                               end).
  { unfold normalizeParams. rewrite Hr. simpl.
    destruct (fieldNames params) as [names|] eqn:En; simpl.
    - rewrite (Hn names eq_refl), Nat.eqb_refl. simpl.
      eexists; split; [reflexivity|]. split; reflexivity.
    - eexists; split; [reflexivity|]. split; reflexivity. }
  destruct Hp as [np [Hp [Hnames Htitle]]].
  assert (Ht : exists header, createColumnTitles np = Ok header
                              /\ (hasCSVColumnTitle params = Some false -> header = "")).
  { unfold createColumnTitles. rewrite Htitle.
    destruct (hasCSVColumnTitle params) as [[|]|] eqn:Eh.
    - destruct (titles_total np (n_fieldNames np)) with (str := "") as [h Hh].
      { rewrite Hnames. apply Hs. discriminate. }
      exists h. split; [exact Hh | discriminate].
    - exists "". split; reflexivity.
    - destruct (titles_total np (n_fieldNames np)) with (str := "") as [h Hh].
      { rewrite Hnames. apply Hs. discriminate. }
      exists h. split; [exact Hh | discriminate]. }
  destruct Ht as [header [Ht Hempty]].
  exists np, header. repeat split; try assumption.
  unfold json2csv. rewrite Hd. simpl. rewrite Hp. simpl. rewrite Ht. simpl.
  apply createColumnContent_no_rows.
Qed.

Lemma C9_null_data_witness :
  exists np header,
    normalizeData VNull (withFields [FieldString "a"; FieldString "b"]) = Ok []
    /\ normalizeParams (withFields [FieldString "a"; FieldString "b"]) VNull = Ok np
    /\ createColumnTitles np = Ok header
    /\ (hasCSVColumnTitle (withFields [FieldString "a"; FieldString "b"]) = Some false
        -> header = "")
    /\ json2csv (str1 linefeed) VNull (Some (withFields [FieldString "a"; FieldString "b"]))
       = Ok header.
Proof.
  apply (C9_null_data (str1 linefeed) (withFields [FieldString "a"; FieldString "b"])
           [FieldString "a"; FieldString "b"]).
  - reflexivity.
  - simpl. discriminate.
  - intros _. unfold namesAreStrings. simpl.
    repeat constructor; discriminate.
Defined.

(** ** C4 *)

Lemma concat_cons (x : string) (l : list string) :
  String.concat "" (x :: l) = x ++ String.concat "" l.
Proof.
  destruct l; simpl; [now rewrite append_nil_r | reflexivity].
Qed.

Lemma join_cons_map {A : Type} (sep : string) (g : A -> string) (x : string) (l : list A) :
  JsString.join sep (x :: map g l) = x ++ String.concat "" (map (fun y => sep ++ g y) l).
Proof.
  revert x. induction l as [|y l IH]; intros x.
  - simpl. now rewrite append_nil_r.
  - change (JsString.join sep (x :: map g (y :: l)))
      with (x ++ sep ++ JsString.join sep (g y :: map g l)).
    rewrite IH. cbn [map]. rewrite concat_cons. now rewrite append_assoc.
Qed.

Lemma append_not_empty (s t : string) : s <> "" -> s ++ t <> "".
Proof.
  destruct s; simpl; [congruence | discriminate].
Qed.








(** ** C5 *)















(** ** Induction on values *)

Lemma value_ind (P : value -> Prop) :
  P VUndefined -> P VNull -> (forall b, P (VBool b)) -> (forall n, P (VNum n)) ->
  (forall s, P (VStr s)) ->
  (forall xs, Forall P xs -> P (VArr xs)) ->
  (forall ps, Forall (fun kv => P (snd kv)) ps -> P (VObj ps)) ->
  forall v, P v.
Proof.
  intros Hu Hn Hb Hz Hs Ha Ho.
  fix IH 1. intros [| |b|n|s|xs|ps].
  - exact Hu.
  - exact Hn.
  - apply Hb.
  - apply Hz.
  - apply Hs.
  - apply Ha. induction xs as [|x xs IHxs]; constructor; [apply IH | exact IHxs].
  - apply Ho. induction ps as [|[k v] ps IHps]; constructor; [apply IH | exact IHps].
Qed.

(** ** The keys of a flattened object *)


Lemma newKey_under (prev key : string) : prev <> "" -> newKey prev key = prev ++ "." ++ key.
Proof.
  intros H. unfold newKey. apply String.eqb_neq in H. now rewrite H.
Qed.

Lemma underPrefix_newKey (prev key k : string) :
  prev <> "" -> underPrefix (newKey prev key) k -> underPrefix prev k.
Proof.
  intros H [rest ->]. rewrite newKey_under by exact H.
  exists (key ++ "." ++ rest). now rewrite !append_assoc.
Qed.

Lemma newKey_not_empty (prev key : string) : prev <> "" -> newKey prev key <> "".
Proof.
  intros H. rewrite newKey_under by exact H. now apply append_not_empty.
Qed.



Lemma lookup_not_in (key : string) (ps : props) :
  ~ In key (map fst ps) -> lookup key ps = None.
Proof.
  induction ps as [|[k v] ps IH]; simpl; [reflexivity|].
  intros H. destruct (k =? key) eqn:E.
  - apply String.eqb_eq in E. exfalso. auto.
  - apply IH. auto.
Qed.

Lemma splitGo_length (sep : string) (s : string) :
  forall skip p ps, JsString.splitGo sep skip s = (p, ps) -> String.length p <= String.length s.
Proof.
  induction s as [|a s IH]; intros skip p ps H.
  - simpl in H. inversion H. simpl. lia.
  - destruct skip as [|k].
    + rewrite splitGo_here in H.
      destruct (String.prefix sep (String a s)).
      * destruct (JsString.splitGo sep (String.length sep - 1) s). inversion H. simpl. lia.
      * destruct (JsString.splitGo sep 0 s) as [q qs] eqn:E. inversion H; subst.
        apply IH in E. simpl. lia.
    + rewrite splitGo_skip in H. apply IH in H. simpl. lia.
Qed.

Lemma underPrefix_longer (prev key : string) :
  underPrefix prev key -> String.length prev < String.length key.
Proof.
  intros [rest ->]. rewrite length_append. simpl. lia.
Qed.

Lemma baseGetFrom_undefined (keys : list string) : baseGetFrom VUndefined keys = VUndefined.
Proof.
  destruct keys; reflexivity.
Qed.

(** A path that is shorter than every key of an object resolves to the
    default. *)
Lemma lodashGet_short_path (ps : props) (path : string) (d : value) :
  (forall k, In k (map fst ps) -> String.length path < String.length k) ->
  lodashGet (VObj ps) path d = d.
Proof.
  intros Hk. unfold lodashGet, castPath. simpl.
  rewrite (lookup_not_in path ps).
  2:{ intros H. apply Hk in H. lia. }
  unfold stringToPath, JsString.split.
  destruct (JsString.splitGo "." 0 path) as [p0 rest] eqn:E.
  apply splitGo_length in E. simpl.
  rewrite (lookup_not_in p0 ps).
  2:{ intros H. apply Hk in H. lia. }
  now rewrite baseGetFrom_undefined.
Qed.

(** ** C10 *)



Lemma lodashUniq_fold_In (x : string) (l : list string) :
  forall seen,
    In x (fold_left (fun seen k => if existsb (String.eqb k) seen then seen
                                   else (seen ++ [k])%list) l seen)
    <-> In x seen \/ In x l.
Proof.
  induction l as [|k l IH]; intros seen; simpl.
  - tauto.
  - rewrite IH. destruct (existsb (String.eqb k) seen) eqn:E.
    + apply existsb_exists in E. destruct E as [y [Hy E]].
      apply String.eqb_eq in E. subst y.
      split; [tauto|]. intros [H|[H|H]]; subst; auto.
    + rewrite in_app_iff. simpl. tauto.
Qed.

Lemma lodashUniq_In (x : string) (l : list string) : In x (lodashUniq l) <-> In x l.
Proof.
  unfold lodashUniq. rewrite lodashUniq_fold_In. simpl. tauto.
Qed.



(** ** Reading a path after writing it *)

Lemma lookup_setProp_same (ps : props) (key : string) (v : value) :
  lookup key (setProp ps key v) = Some v.
Proof.
  induction ps as [|[k w] ps IH]; simpl.
  - now rewrite String.eqb_refl.
  - destruct (k =? key) eqn:E; simpl; rewrite E; [reflexivity | exact IH].
Qed.

Lemma lookup_setProp_other (ps : props) (key k : string) (v : value) :
  k <> key -> lookup k (setProp ps key v) = lookup k ps.
Proof.
  intros Hk. induction ps as [|[k' w] ps IH]; simpl.
  - destruct (key =? k) eqn:E; [|reflexivity].
    apply String.eqb_eq in E. congruence.
  - destruct (k' =? key) eqn:E; simpl.
    + apply String.eqb_eq in E. subst k'.
      destruct (key =? k) eqn:E'; [|reflexivity].
      apply String.eqb_eq in E'. congruence.
    + now rewrite IH.
Qed.

Lemma setNth_length (xs : list value) (i : nat) (v : value) :
  i < List.length xs -> List.length (setNth xs i v) = List.length xs.
Proof.
  revert xs. induction i as [|i IH]; intros [|x xs] H; simpl in *; try lia.
  rewrite IH; lia.
Qed.

Lemma nth_setNth_same (xs : list value) (i : nat) (v d : value) :
  i < List.length xs -> nth i (setNth xs i v) d = v.
Proof.
  revert xs. induction i as [|i IH]; intros [|x xs] H; simpl in *; try lia;
    try reflexivity.
  apply IH. lia.
Qed.

Lemma nth_setNth_other (xs : list value) (i j : nat) (v d : value) :
  i < List.length xs -> j <> i -> nth j (setNth xs i v) d = nth j xs d.
Proof.
  revert xs j. induction i as [|i IH]; intros [|x xs] j H Hj; simpl in *; try lia.
  - destruct j; [lia | reflexivity].
  - destruct j; [reflexivity|]. apply IH; lia.
Qed.

Lemma arrayIndex_canonical (key : string) (i : N) :
  arrayIndex key = Some i -> key = NilEmpty.string_of_uint (N.to_uint i).
Proof.
  unfold arrayIndex. destruct (NilEmpty.uint_of_string key) as [u|]; [|discriminate].
  destruct (NilEmpty.string_of_uint (N.to_uint (N.of_uint u)) =? key) eqn:E; [|discriminate].
  intros H. inversion H; subst. apply String.eqb_eq in E. now symmetry.
Qed.

Lemma arrayIndex_not_length : arrayIndex "length" = None.
Proof. reflexivity. Qed.

(** The object has the property: a key of a plain object, or an index
    inside an array. *)
Lemma getProp_object_present (o : value) (key : string) :
  isObject (getProp o key) = true ->
  (exists ps w, o = VObj ps /\ lookup key ps = Some w)
  \/ (exists xs i, o = VArr xs /\ arrayIndex key = Some i /\ N.to_nat i < List.length xs).
Proof.
  destruct o as [| |b|n|s|xs|ps]; simpl; try discriminate.
  - destruct (arrayIndex key) as [i|].
    + unfold charAt. destruct (String.get (N.to_nat i) s); discriminate.
    + destruct (key =? "length"); discriminate.
  - destruct (arrayIndex key) as [i|] eqn:E.
    + intros H. right. exists xs, i. repeat split.
      destruct (Nat.lt_ge_cases (N.to_nat i) (List.length xs)) as [Hlt|Hge]; [exact Hlt|].
      rewrite nth_overflow in H by exact Hge. discriminate.
    + destruct (key =? "length"); discriminate.
  - destruct (lookup key ps) as [w|] eqn:E; [|discriminate].
    intros _. left. exists ps, w. auto.
Qed.

Lemma getProp_assign_same (o : value) (key : string) (v : value) :
  isObject (getProp o key) = true -> getProp (assignValue o key v) key = v.
Proof.
  intros H. destruct (getProp_object_present o key H)
    as [[ps [w [-> Hl]]] | [xs [i [-> [Hi Hlt]]]]]; simpl.
  - now rewrite lookup_setProp_same.
  - rewrite Hi. simpl. rewrite Hi. now apply nth_setNth_same.
Qed.

Lemma hasIn_assign (o : value) (key : string) (v : value) (k : string) :
  isObject (getProp o key) = true -> hasIn (assignValue o key v) k = hasIn o k.
Proof.
  intros H. destruct (getProp_object_present o key H)
    as [[ps [w [-> Hl]]] | [xs [i [-> [Hi Hlt]]]]]; simpl.
  - destruct (String.eqb_spec k key) as [->|Hk].
    + now rewrite lookup_setProp_same, Hl.
    + now rewrite lookup_setProp_other.
  - rewrite Hi. simpl. now rewrite setNth_length.
Qed.

Lemma getProp_assign_other (o : value) (key : string) (v : value) (k : string) :
  isObject (getProp o key) = true -> k <> key ->
  getProp (assignValue o key v) k = getProp o k.
Proof.
  intros H Hk. destruct (getProp_object_present o key H)
    as [[ps [w [-> Hl]]] | [xs [i [-> [Hi Hlt]]]]]; simpl.
  - now rewrite lookup_setProp_other.
  - rewrite Hi. simpl. destruct (arrayIndex k) as [j|] eqn:Hj.
    + apply nth_setNth_other; [exact Hlt|].
      intros E. apply Hk.
      apply arrayIndex_canonical in Hi. apply arrayIndex_canonical in Hj.
      rewrite Hi, Hj. f_equal. f_equal. lia.
    + now rewrite setNth_length.
Qed.

Lemma isObject_assign (o : value) (key : string) (v : value) :
  isObject (getProp o key) = true -> isObject (assignValue o key v) = true.
Proof.
  intros H. destruct (getProp_object_present o key H)
    as [[ps [w [-> Hl]]] | [xs [i [-> [Hi Hlt]]]]]; simpl; [reflexivity|].
  now rewrite Hi.
Qed.

Lemma getProp_primitive (o : value) (key : string) :
  isObject o = false -> isObject (getProp o key) = false.
Proof.
  destruct o as [| |b|n|s|xs|ps]; simpl; try reflexivity; try discriminate.
  intros _. destruct (arrayIndex key) as [i|].
  - unfold charAt. destruct (String.get (N.to_nat i) s); reflexivity.
  - destruct (key =? "length"); reflexivity.
Qed.

Lemma baseGetFrom_primitive (keys : list string) :
  forall o, isObject o = false -> isObject (baseGetFrom o keys) = false.
Proof.
  induction keys as [|k keys IH]; intros o H; simpl; [exact H|].
  destruct (isNullish o); [reflexivity|].
  apply IH. now apply getProp_primitive.
Qed.

Lemma baseGetFrom_object (keys : list string) (o : value) :
  isObject (baseGetFrom o keys) = true -> isObject o = true.
Proof.
  intros H. destruct (isObject o) eqn:E; [reflexivity|].
  rewrite (baseGetFrom_primitive keys o E) in H. discriminate.
Qed.

Lemma isObject_not_nullish (o : value) : isObject o = true -> isNullish o = false.
Proof.
  destruct o; simpl; congruence.
Qed.

Lemma baseGetFrom_cons (o : value) (key : string) (rest : list string) :
  isObject o = true -> baseGetFrom o (key :: rest) = baseGetFrom (getProp o key) rest.
Proof.
  intros H. simpl. now rewrite (isObject_not_nullish o H).
Qed.

(** Writing along a path that reads an object or an array: the write
    lands where the read looks, and no property appears or disappears. *)
Lemma baseSetFrom_spec (keys : list string) :
  forall o v,
    keys <> [] ->
    isObject (baseGetFrom o keys) = true ->
    isObject (baseSetFrom o keys v) = true
    /\ baseGetFrom (baseSetFrom o keys v) keys = v
    /\ baseHasFrom (baseSetFrom o keys v) keys = true
    /\ (forall k, hasIn (baseSetFrom o keys v) k = hasIn o k)
    /\ (forall k, k <> hd "" keys -> getProp (baseSetFrom o keys v) k = getProp o k).
Proof.
  induction keys as [|key rest IH]; intros o v Hne Hget; [congruence|].
  pose proof (baseGetFrom_object _ _ Hget) as Ho.
  rewrite baseGetFrom_cons in Hget by exact Ho.
  pose proof (baseGetFrom_object _ _ Hget) as Hchild.
  destruct rest as [|next rest'].
  - cbn [baseSetFrom].
    pose proof (isObject_assign o key v Hchild) as Ho'.
    split; [exact Ho'|]. split; [|split; [|split]].
    + rewrite baseGetFrom_cons by exact Ho'. simpl. now apply getProp_assign_same.
    + simpl. rewrite hasIn_assign by exact Hchild.
      destruct (getProp_object_present o key Hchild)
        as [[ps [w [-> Hl]]] | [xs [i [-> [Hi Hlt]]]]]; simpl.
      * now rewrite Hl.
      * rewrite Hi. apply N.ltb_lt. lia.
    + intros k. now apply hasIn_assign.
    + intros k Hk. now apply getProp_assign_other.
  - assert (Hset : baseSetFrom o (key :: next :: rest') v
                   = assignValue o key (baseSetFrom (getProp o key) (next :: rest') v)).
    { cbn [baseSetFrom]. now rewrite Hchild. }
    rewrite Hset.
    destruct (IH (getProp o key) v) as [Hc1 [Hc2 [Hc3 _]]]; [discriminate | exact Hget |].
    set (child' := baseSetFrom (getProp o key) (next :: rest') v) in *.
    pose proof (isObject_assign o key child' Hchild) as Ho'.
    split; [exact Ho'|]. split; [|split; [|split]].
    + rewrite baseGetFrom_cons by exact Ho'.
      rewrite getProp_assign_same by exact Hchild. exact Hc2.
    + change (baseHasFrom (assignValue o key child') (key :: next :: rest'))
        with (hasIn (assignValue o key child') key
              && baseHasFrom (getProp (assignValue o key child') key) (next :: rest')).
      rewrite getProp_assign_same by exact Hchild. rewrite Hc3, andb_true_r.
      rewrite hasIn_assign by exact Hchild.
      destruct (getProp_object_present o key Hchild)
        as [[ps [w [-> Hl]]] | [xs [i [-> [Hi Hlt]]]]]; simpl.
      * now rewrite Hl.
      * rewrite Hi. apply N.ltb_lt. lia.
    + intros k. now apply hasIn_assign.
    + intros k Hk. now apply getProp_assign_other.
Qed.

Lemma castPath_not_nil (path : string) (object : value) : castPath path object <> [].
Proof.
  unfold castPath, stringToPath, JsString.split.
  destruct (hasIn object path); [discriminate|].
  destruct (JsString.splitGo "." 0 path); discriminate.
Qed.

Lemma baseGet_baseGetFrom (object : value) (keys : list string) :
  keys <> [] -> baseGet object keys = baseGetFrom object keys.
Proof.
  destruct keys; [congruence | reflexivity].
Qed.

Lemma lodashGet_object (row : value) (path : string) (found : value) :
  isObject found = true ->
  lodashGet row path VUndefined = found ->
  isObject row = true /\ baseGetFrom row (castPath path row) = found.
Proof.
  intros Hf. unfold lodashGet.
  rewrite baseGet_baseGetFrom by apply castPath_not_nil.
  destruct (isNullish row) eqn:En.
  - intros <-. discriminate.
  - intros H.
    assert (Hg : baseGetFrom row (castPath path row) = found).
    { destruct (baseGetFrom row (castPath path row)); try exact H;
        subst found; discriminate. }
    split; [|exact Hg]. apply (baseGetFrom_object (castPath path row)). now rewrite Hg.
Qed.

Lemma castPath_same_properties (path : string) (o o' : value) :
  (forall k, hasIn o' k = hasIn o k) -> castPath path o' = castPath path o.
Proof.
  intros H. unfold castPath. now rewrite H.
Qed.

(** lodash.set after a lodash.get that found an object or an array. *)
Lemma lodashSet_spec (row : value) (path : string) (found v : value) :
  isObject found = true ->
  lodashGet row path VUndefined = found ->
  lodashHas (lodashSet row path v) path = true
  /\ (forall d, lodashGet (lodashSet row path v) path d
                = match v with VUndefined => d | _ => v end)
  /\ (forall k, hasIn (lodashSet row path v) k = hasIn row k)
  /\ (forall k, k <> hd "" (castPath path row) ->
                getProp (lodashSet row path v) k = getProp row k).
Proof.
  intros Hf Hget.
  destruct (lodashGet_object row path found Hf Hget) as [Ho Hg].
  assert (Hobj : isObject (baseGetFrom row (castPath path row)) = true) by now rewrite Hg.
  destruct (baseSetFrom_spec (castPath path row) row v (castPath_not_nil path row) Hobj)
    as [H1 [H2 [H3 [H4 H5]]]].
  unfold lodashSet. rewrite Ho.
  set (row' := baseSetFrom row (castPath path row) v) in *.
  pose proof (castPath_same_properties path row row' H4) as Hc.
  split; [|split; [|split]].
  - unfold lodashHas. now rewrite Hc.
  - intros d. unfold lodashGet. rewrite (isObject_not_nullish row' H1).
    rewrite baseGet_baseGetFrom by apply castPath_not_nil.
    rewrite Hc, H2. destruct v; reflexivity.
  - exact H4.
  - exact H5.
Qed.

(** ** C2 *)

Lemma fold_left_push {A B : Type} (g : B -> A) (els : list B) :
  forall acc, fold_left (fun acc el => (acc ++ [g el])%list) els acc = (acc ++ map g els)%list.
Proof.
  induction els as [|el els IH]; intros acc; simpl.
  - now rewrite app_nil_r.
  - rewrite IH, <- app_assoc. reflexivity.
Qed.

Lemma unwindStep_spec (unwindPath : string) (dataRows : list value) (dataEl : value) :
  unwindStep unwindPath dataRows dataEl = (dataRows ++ specUnwindRow unwindPath dataEl)%list.
Proof.
  unfold unwindStep, specUnwindRow.
  destruct (lodashGet dataEl unwindPath VUndefined) as [| |b|n|s|[|x xs]|ps]; try reflexivity.
  apply (fold_left_push (fun el => lodashSet (lodashCloneDeep dataEl) unwindPath el)).
Qed.

Lemma fold_unwindStep (unwindPath : string) (data : list value) :
  forall dataRows,
    fold_left (unwindStep unwindPath) data dataRows
    = (dataRows ++ concat (map (specUnwindRow unwindPath) data))%list.
Proof.
  induction data as [|row data IH]; intros dataRows; simpl.
  - now rewrite app_nil_r.
  - rewrite IH, unwindStep_spec, <- app_assoc. reflexivity.
Qed.

(** ** createDataRows on the store *)

Lemma deref_old (st new : list value) (r : nat) :
  r < List.length st -> deref (st ++ new)%list r = deref st r.
Proof.
  intros H. unfold deref. now apply app_nth1.
Qed.

Lemma deref_new (st : list value) (v : value) : deref (st ++ [v])%list (List.length st) = v.
Proof.
  unfold deref. rewrite app_nth2 by lia. now rewrite Nat.sub_diag.
Qed.

Lemma mutate_new (st : list value) (old v : value) :
  mutate (st ++ [old])%list (List.length st) v = (st ++ [v])%list.
Proof.
  induction st as [|x st IH]; simpl; [reflexivity | now rewrite IH].
Qed.

Lemma pushCopy_spec (unwindPath : string) (dataEl : nat) (dataRows : list nat) (st : list value)
    (unwindEl : value) :
  dataEl < List.length st ->
  pushCopy unwindPath dataEl (dataRows, st) unwindEl
  = ((dataRows ++ [List.length st])%list,
     (st ++ [lodashSet (deref st dataEl) unwindPath unwindEl])%list).
Proof.
  intros H. unfold pushCopy, cloneDeepRef, allocate, setRef, lodashCloneDeep.
  rewrite deref_new, mutate_new. reflexivity.
Qed.

Lemma fold_pushCopy (unwindPath : string) (dataEl : nat) (els : list value) :
  forall dataRows st,
    dataEl < List.length st ->
    fold_left (pushCopy unwindPath dataEl) els (dataRows, st)
    = ((dataRows ++ seq (List.length st) (List.length els))%list,
       (st ++ map (fun el => lodashSet (deref st dataEl) unwindPath el) els)%list).
Proof.
  induction els as [|el els IH]; intros dataRows st H.
  - simpl. now rewrite !app_nil_r.
  - cbn [fold_left]. rewrite pushCopy_spec by exact H.
    rewrite IH by (rewrite length_app; simpl; lia).
    rewrite length_app. simpl.
    replace (List.length st + 1) with (S (List.length st)) by lia.
    rewrite <- !app_assoc. simpl. f_equal. f_equal. f_equal.
    apply map_ext. intros a. now rewrite deref_old.
Qed.

Lemma map_deref_seq (st new : list value) :
  map (deref (st ++ new)%list) (seq (List.length st) (List.length new)) = new.
Proof.
  revert st. induction new as [|v new IH]; intros st; [reflexivity|].
  simpl. f_equal.
  - unfold deref. rewrite app_nth2 by lia. now rewrite Nat.sub_diag.
  - specialize (IH (st ++ [v])%list). rewrite length_app in IH. simpl in IH.
    replace (List.length st + 1) with (S (List.length st)) in IH by lia.
    rewrite <- app_assoc in IH. exact IH.
Qed.

(** What one row adds: the references pushed and the objects allocated. *)
Lemma unwindStepRef_spec (unwindPath : string) (dataRows : list nat) (st : list value)
    (dataEl : nat) :
  dataEl < List.length st ->
  exists added new,
    unwindStepRef unwindPath (dataRows, st) dataEl
    = ((dataRows ++ added)%list, (st ++ new)%list)
    /\ map (deref (st ++ new)%list) added = specUnwindRow unwindPath (deref st dataEl)
    /\ (added = [dataEl] \/ added = seq (List.length st) (List.length new)).
Proof.
  intros H. unfold unwindStepRef, specUnwindRow. cbn [fst snd].
  destruct (lodashGet (deref st dataEl) unwindPath VUndefined)
    as [| |b|n|s|[|x xs]|ps] eqn:E;
    try (exists [dataEl], []; rewrite app_nil_r; simpl;
         split; [reflexivity|]; split; [reflexivity | now left]).
  - exists [List.length st], [lodashSet (deref st dataEl) unwindPath VUndefined].
    rewrite pushCopy_spec by exact H. split; [reflexivity|]. split; [|now right].
    simpl. now rewrite deref_new.
  - exists (seq (List.length st) (List.length (x :: xs))),
           (map (fun el => lodashSet (deref st dataEl) unwindPath el) (x :: xs)).
    rewrite fold_pushCopy by exact H. split; [reflexivity|]. split.
    + rewrite <- (length_map (fun el => lodashSet (deref st dataEl) unwindPath el) (x :: xs)).
      apply map_deref_seq.
    + right. now rewrite length_map.
Qed.

Lemma map_deref_old (st new : list value) (rows : list nat) :
  Forall (fun r => r < List.length st) rows ->
  map (deref (st ++ new)%list) rows = map (deref st) rows.
Proof.
  intros H. apply map_ext_in. intros r Hr.
  apply deref_old. rewrite Forall_forall in H. now apply H.
Qed.

Lemma filter_isCopy_old (st : list value) (rows : list nat) :
  Forall (fun r => r < List.length st) rows -> filter (isCopy st) rows = [].
Proof.
  induction 1 as [|r rows Hr _ IH]; [reflexivity|].
  simpl. unfold isCopy at 1.
  destruct (Nat.leb_spec (List.length st) r); [lia | exact IH].
Qed.

Lemma fold_unwindStepRef (unwindPath : string) (st0 : list value) (data : list nat) :
  Forall (fun r => r < List.length st0) data ->
  forall dataRows cur,
    Forall (fun r => r < List.length (st0 ++ cur)%list) dataRows ->
    NoDup (filter (isCopy st0) dataRows) ->
    exists rows new,
      fold_left (unwindStepRef unwindPath) data (dataRows, (st0 ++ cur)%list)
      = (rows, (st0 ++ new)%list)
      /\ map (deref (st0 ++ new)%list) rows
         = (map (deref (st0 ++ cur)%list) dataRows
            ++ concat (map (specUnwindRow unwindPath) (map (deref st0) data)))%list
      /\ NoDup (filter (isCopy st0) rows).
Proof.
  induction 1 as [|dataEl data Hel _ IH]; intros dataRows cur Hrows Hnd.
  - exists dataRows, cur. simpl. rewrite app_nil_r. auto.
  - cbn [fold_left].
    assert (Hel' : dataEl < List.length (st0 ++ cur)%list) by (rewrite length_app; lia).
    destruct (unwindStepRef_spec unwindPath dataRows (st0 ++ cur)%list dataEl Hel')
      as [added [new [Hstep [Hmap Hadded]]]].
    rewrite Hstep, <- app_assoc.
    destruct (IH (dataRows ++ added)%list (cur ++ new)%list) as [rows [new' [Hf [Hm Hn]]]].
    + apply Forall_app. split.
      * eapply Forall_impl; [|exact Hrows]. intros r Hr. simpl in Hr.
        rewrite !length_app in *. lia.
      * destruct Hadded as [-> | ->].
        -- constructor; [|constructor]. rewrite !length_app. lia.
        -- apply Forall_forall. intros r Hr. apply in_seq in Hr.
           rewrite app_assoc, (length_app (st0 ++ cur)%list new). lia.
    + rewrite filter_app. apply NoDup_app; [exact Hnd | |].
      * destruct Hadded as [-> | ->].
        -- apply NoDup_filter. constructor; [intros [] | constructor].
        -- apply NoDup_filter, seq_NoDup.
      * intros r Hr Hr'. apply filter_In in Hr. apply filter_In in Hr'.
        destruct Hr as [Hr _]. destruct Hr' as [Hr' Hc].
        rewrite Forall_forall in Hrows. apply Hrows in Hr.
        destruct Hadded as [-> | ->].
        -- destruct Hr' as [<-|[]]. unfold isCopy in Hc. apply Nat.leb_le in Hc. lia.
        -- apply in_seq in Hr'. lia.
    + exists rows, new'. split; [exact Hf|]. split; [|exact Hn].
      rewrite Hm, map_app. cbn [map concat]. rewrite <- app_assoc. f_equal.
      * rewrite app_assoc. apply map_deref_old. exact Hrows.
      * f_equal. rewrite app_assoc, Hmap. now rewrite deref_old.
Qed.

(** The store and the values agree: the references of createDataRowsRef
    read as the rows of createDataRows; the objects of the input are
    what they were, the copies are new objects, and no copy is pushed
    twice. *)
Lemma createDataRowsRef_spec (params : Normalized) (st : list value) (data : list nat) :
  Forall (fun r => r < List.length st) data ->
  exists rows new,
    createDataRowsRef data params st = (rows, (st ++ new)%list)
    /\ map (deref (st ++ new)%list) rows = createDataRows (map (deref st) data) params
    /\ (forall r, r < List.length st -> deref (st ++ new)%list r = deref st r)
    /\ NoDup (filter (isCopy st) rows).
Proof.
  intros Hdata. unfold createDataRowsRef, createDataRows.
  assert (Hsame : exists rows new,
             (data, st) = (rows, (st ++ new)%list)
             /\ map (deref (st ++ new)%list) rows = map (deref st) data
             /\ (forall r, r < List.length st -> deref (st ++ new)%list r = deref st r)
             /\ NoDup (filter (isCopy st) rows)).
  { exists data, []. rewrite app_nil_r. repeat split; auto.
    rewrite filter_isCopy_old by exact Hdata. constructor. }
  destruct (n_unwindPath params) as [p|]; [|exact Hsame].
  destruct (p =? ""); [exact Hsame|].
  destruct (fold_unwindStepRef p st data Hdata [] []) as [rows [new [Hf [Hm Hn]]]].
  - constructor.
  - constructor.
  - rewrite app_nil_r in Hf. exists rows, new. split; [exact Hf|]. split; [|split].
    + rewrite Hm. simpl. now rewrite fold_unwindStep.
    + intros r Hr. now apply deref_old.
    + exact Hn.
Qed.

(** C2. With an unwind path configured, the rows of createDataRows are
    the unwinds of the input rows, one after the other in the order of
    the input.  A row whose value at the path is a non-empty array gives
    one copy per element, in the order of the array, and the path of the
    i-th copy reads the i-th element; an empty array gives one copy on
    which the path is still a property and reads as missing, not as an
    array; any other row is passed on unchanged.  A copy has the
    properties of its row, and those outside the path keep their values.
    On the store, where clonedeep allocates and set mutates, the
    references that are pushed read as these rows, the objects of the
    input are left as they were and no copy is pushed twice. *)
Theorem C2_unwind (params : Normalized) (data : list value) (unwindPath : string) :
  n_unwindPath params = Some unwindPath ->
  unwindPath <> "" ->
  createDataRows data params = concat (map (specUnwindRow unwindPath) data)
  /\ (forall row,
       (forall els,
          lodashGet row unwindPath VUndefined = VArr els -> els <> [] ->
          specUnwindRow unwindPath row = map (fun el => lodashSet row unwindPath el) els
          /\ forall i el,
               nth_error els i = Some el ->
               exists copy,
                 nth_error (specUnwindRow unwindPath row) i = Some copy
                 /\ lodashGet copy unwindPath VUndefined = el
                 /\ (forall k, hasIn copy k = hasIn row k)
                 /\ (forall k, k <> hd "" (castPath unwindPath row) ->
                               getProp copy k = getProp row k))
       /\ (lodashGet row unwindPath VUndefined = VArr [] ->
           exists copy,
             specUnwindRow unwindPath row = [copy]
             /\ lodashHas copy unwindPath = true
             /\ (forall d, lodashGet copy unwindPath d = d)
             /\ isArray (lodashGet copy unwindPath VUndefined) = false
             /\ (forall k, hasIn copy k = hasIn row k)
             /\ (forall k, k <> hd "" (castPath unwindPath row) ->
                           getProp copy k = getProp row k))
       /\ (isArray (lodashGet row unwindPath VUndefined) = false ->
           specUnwindRow unwindPath row = [row]))
  /\ forall (st : list value) (refs : list nat),
       Forall (fun r => r < List.length st) refs ->
       exists rows new,
         createDataRowsRef refs params st = (rows, (st ++ new)%list)
         /\ map (deref (st ++ new)%list) rows = createDataRows (map (deref st) refs) params
         /\ (forall r, r < List.length st -> deref (st ++ new)%list r = deref st r)
         /\ NoDup (filter (isCopy st) rows).
Proof.
  intros Hp Hne. split; [|split; [|intros st refs; apply createDataRowsRef_spec]].
  - unfold createDataRows. rewrite Hp.
    apply String.eqb_neq in Hne. rewrite Hne.
    now rewrite fold_unwindStep.
  - intros row. split; [|split].
    + intros els Hget Hels.
      assert (Hspec : specUnwindRow unwindPath row
                      = map (fun el => lodashSet row unwindPath el) els).
      { unfold specUnwindRow. rewrite Hget. destruct els; [congruence | reflexivity]. }
      split; [exact Hspec|].
      intros i el Hi. exists (lodashSet row unwindPath el).
      destruct (lodashSet_spec row unwindPath (VArr els) el eq_refl Hget)
        as [_ [Hread [Hprops Hothers]]].
      split; [|split; [|split]].
      * rewrite Hspec. now apply map_nth_error.
      * rewrite Hread. destruct el; reflexivity.
      * exact Hprops.
      * exact Hothers.
    + intros Hget. exists (lodashSet row unwindPath VUndefined).
      destruct (lodashSet_spec row unwindPath (VArr []) VUndefined eq_refl Hget)
        as [Hhas [Hread [Hprops Hothers]]].
      split; [|split; [|split; [|split; [|split]]]].
      * unfold specUnwindRow. now rewrite Hget.
      * exact Hhas.
      * intros d. now rewrite Hread.
      * now rewrite Hread.
      * exact Hprops.
      * exact Hothers.
    + intros Hna. unfold specUnwindRow.
      destruct (lodashGet row unwindPath VUndefined); try reflexivity. discriminate.
Qed.

Lemma C2_unwind_witness :
  createDataRows [colorsRow] unwindColors
  = [VObj [("id", VNum 1); ("colors", VStr "red")];
     VObj [("id", VNum 1); ("colors", VStr "blue")]].
Proof.
  rewrite (proj1 (C2_unwind unwindColors [colorsRow] "colors" eq_refl
                    ltac:(discriminate))).
  reflexivity.
Defined.

(** ** Counting a character through split, join and replace *)

Lemma prefix_decompose (pat s : string) :
  String.prefix pat s = true -> exists rest, s = pat ++ rest.
Proof.
  revert s. induction pat as [|a pat IH]; intros s H.
  - exists s. reflexivity.
  - destruct s as [|b s]; [discriminate|].
    rewrite prefix_cons in H. apply andb_prop in H. destruct H as [Hab Hp].
    apply Ascii.eqb_eq in Hab. subst b.
    destruct (IH s Hp) as [rest ->]. exists rest. reflexivity.
Qed.

Lemma drop_append (s t : string) : drop (String.length s) (s ++ t) = t.
Proof.
  induction s as [|a s IH]; simpl; [destruct t; reflexivity | exact IH].
Qed.

Lemma drop_zero (s : string) : drop 0 s = s.
Proof. destruct s; reflexivity. Qed.

(** After a match at the head of the string, what is left to scan holds
    as many copies of a character foreign to the pattern as the string. *)
Lemma count_after_match (c a : ascii) (pat s : string) :
  pat <> "" -> JsString.count c pat = 0 ->
  String.prefix pat (String a s) = true ->
  JsString.count c (drop (String.length pat - 1) s) = JsString.count c (String a s).
Proof.
  intros Hne Hc Hp. destruct (prefix_decompose _ _ Hp) as [rest E].
  destruct pat as [|b pat]; [congruence|].
  simpl in E. inversion E; subst.
  replace (String.length (String b pat) - 1) with (String.length pat) by (simpl; lia).
  rewrite drop_append.
  change (String b (pat ++ rest)) with (String b pat ++ rest).
  rewrite count_append, Hc. reflexivity.
Qed.

Lemma count_replaceGo (c : ascii) (pat rep : string) :
  pat <> "" -> JsString.count c pat = 0 -> JsString.count c rep = 0 ->
  forall s skip,
    JsString.count c (JsString.replaceGo pat rep skip s) = JsString.count c (drop skip s).
Proof.
  intros Hne Hp Hr. induction s as [|a s IH]; intros skip.
  - destruct skip; reflexivity.
  - destruct skip as [|k].
    + rewrite replaceGo_here, drop_zero.
      destruct (String.prefix pat (String a s)) eqn:E.
      * rewrite count_append, Hr, IH. simpl. now apply count_after_match.
      * rewrite !count_cons, IH, drop_zero. reflexivity.
    + rewrite replaceGo_skip. apply IH.
Qed.

Lemma count_replaceAll (c : ascii) (pat rep s : string) :
  pat <> "" -> JsString.count c pat = 0 -> JsString.count c rep = 0 ->
  JsString.count c (JsString.replaceAll pat rep s) = JsString.count c s.
Proof.
  intros Hne Hp Hr. unfold JsString.replaceAll.
  rewrite (count_replaceGo c pat rep Hne Hp Hr). apply f_equal, drop_zero.
Qed.

Lemma countAll_cons (c : ascii) (x : string) (l : list string) :
  countAll c (x :: l) = JsString.count c x + countAll c l.
Proof. reflexivity. Qed.

Lemma count_splitGo (c : ascii) (sep : string) :
  sep <> "" -> JsString.count c sep = 0 ->
  forall s skip p ps,
    JsString.splitGo sep skip s = (p, ps) ->
    JsString.count c p + countAll c ps = JsString.count c (drop skip s).
Proof.
  intros Hne Hc. induction s as [|a s IH]; intros skip p ps H.
  - simpl in H. inversion H; subst. destruct skip; reflexivity.
  - destruct skip as [|k].
    + rewrite splitGo_here in H. rewrite drop_zero.
      destruct (String.prefix sep (String a s)) eqn:E.
      * destruct (JsString.splitGo sep (String.length sep - 1) s) as [q qs] eqn:Eq.
        inversion H; subst. apply IH in Eq.
        rewrite countAll_cons. simpl JsString.count at 1.
        rewrite Eq. now apply count_after_match.
      * destruct (JsString.splitGo sep 0 s) as [q qs] eqn:Eq.
        inversion H; subst. apply IH in Eq. rewrite drop_zero in Eq.
        rewrite !count_cons. lia.
    + rewrite splitGo_skip in H. apply IH in H. exact H.
Qed.

Lemma countAll_split (c : ascii) (sep s : string) :
  sep <> "" -> JsString.count c sep = 0 ->
  countAll c (JsString.split sep s) = JsString.count c s.
Proof.
  intros Hne Hc. unfold JsString.split.
  destruct (JsString.splitGo sep 0 s) as [p ps] eqn:E.
  apply (count_splitGo c sep Hne Hc) in E. rewrite drop_zero in E.
  now rewrite countAll_cons.
Qed.

Lemma count_join (c : ascii) (sep : string) (l : list string) :
  JsString.count c sep = 0 -> JsString.count c (JsString.join sep l) = countAll c l.
Proof.
  intros Hc. induction l as [|x l IH]; [reflexivity|].
  destruct l as [|y l].
  - simpl. unfold countAll. simpl. lia.
  - change (JsString.join sep (x :: y :: l)) with (x ++ sep ++ JsString.join sep (y :: l)).
    rewrite !count_append, Hc, IH, countAll_cons. reflexivity.
Qed.

Lemma countAll_map (c : ascii) (f : string -> string) (l : list string) :
  (forall x, JsString.count c (f x) = JsString.count c x) ->
  countAll c (map f l) = countAll c l.
Proof.
  intros Hf. induction l as [|x l IH]; [reflexivity|].
  cbn [map]. now rewrite !countAll_cons, Hf, IH.
Qed.

Lemma count_str1 (c a : ascii) :
  JsString.count c (str1 a) = if Ascii.eqb a c then 1 else 0.
Proof.
  simpl. destruct (Ascii.eqb a c); reflexivity.
Qed.

Lemma count_str1_other (c a : ascii) : c <> a -> JsString.count c (str1 a) = 0.
Proof.
  intros H. rewrite count_str1.
  destruct (Ascii.eqb a c) eqn:E; [|reflexivity].
  apply Ascii.eqb_eq in E. congruence.
Qed.

Lemma substring_whole_prefix (s t : string) : substring 0 (String.length s) (s ++ t) = s.
Proof.
  induction s as [|a s IH]; simpl.
  - destruct t; reflexivity.
  - now rewrite IH.
Qed.

Lemma substring_without_last (s : string) (a : ascii) :
  substring 0 (String.length (s ++ str1 a) - 1) (s ++ str1 a) = s.
Proof.
  rewrite length_append. simpl.
  replace (String.length s + 1 - 1) with (String.length s) by lia.
  apply substring_whole_prefix.
Qed.

(** The passes of finishLine after the cut of the last character keep
    the number of a character that is neither a backslash nor a double
    quote and does not occur in params.doubleQuotes, when doubleQuotes
    holds no dollar sign. *)
Lemma count_finishLine (params : Normalized) (d : ascii) (body : string) :
  d <> bslash -> d <> dquote ->
  JsString.count d (n_doubleQuotes params) = 0 ->
  JsString.noDollar (n_doubleQuotes params) = true ->
  JsString.count d (finishLine params (body ++ str1 d)) = JsString.count d body.
Proof.
  intros Hb Hq Hdq Hnd. rewrite finishLine_eq by exact Hnd.
  rewrite substring_without_last.
  assert (Htb : JsString.count d twoBackslashes = 0).
  { unfold twoBackslashes. rewrite count_cons, count_str1_other by exact Hb.
    destruct (Ascii.eqb bslash d) eqn:E; [|reflexivity].
    apply Ascii.eqb_eq in E. congruence. }
  assert (Heq : JsString.count d escapedQuote = 0).
  { unfold escapedQuote. rewrite count_cons, count_str1_other by exact Hq.
    destruct (Ascii.eqb bslash d) eqn:E; [|reflexivity].
    apply Ascii.eqb_eq in E. congruence. }
  rewrite count_replaceAll;
    [| discriminate | exact Htb | now apply count_str1_other ].
  rewrite count_join by exact Htb.
  rewrite countAll_map.
  - apply countAll_split; [discriminate | exact Htb].
  - intros x. apply count_replaceAll; [discriminate | exact Heq | exact Hdq].
Qed.

(** ** C1 *)

Lemma appendCell_fieldText (params : Normalized) (data : list value) (row : value)
    (line : string) (f : field) :
  appendCell params data row line f
  = (text <- fieldText params data row f ;; Ok (line ++ text ++ n_del params)).
Proof.
  unfold appendCell, fieldText.
  destruct (cellValue params data row f); [reflexivity | ..];
    (destruct (cellText params _); cbn [bind]; [now rewrite append_assoc | reflexivity]).
Qed.

Lemma fieldText_total (params : Normalized) (data : list value) (row : value) (f : field) :
  exists text, fieldText params data row f = Ok text.
Proof.
  unfold fieldText.
  destruct (cellValue params data row f) eqn:E; try (eexists; reflexivity);
    apply cellText_total; discriminate.
Qed.

Lemma foldM_appendCell (params : Normalized) (data : list value) (row : value)
    (fs : list field) :
  forall texts line,
    mapM (fieldText params data row) fs = Ok texts ->
    foldM (appendCell params data row) fs line
    = Ok (line ++ String.concat "" (map (fun t => t ++ n_del params) texts)).
Proof.
  induction fs as [|f fs IH]; intros texts line H; simpl in H.
  - inversion H; subst. simpl. now rewrite append_nil_r.
  - destruct (fieldText params data row f) as [t|] eqn:Et; simpl in H; [|discriminate].
    destruct (mapM (fieldText params data row) fs) as [ts|] eqn:Ets; simpl in H;
      [|discriminate].
    inversion H; subst. cbn [foldM map].
    rewrite appendCell_fieldText, Et. cbn [bind].
    rewrite (IH ts) by reflexivity.
    rewrite concat_cons. now rewrite !append_assoc.
Qed.

Lemma count_cells_and_delimiters (d : ascii) (texts : list string) :
  JsString.count d (String.concat "" (map (fun t => t ++ str1 d) texts))
  = countAll d texts + List.length texts.
Proof.
  induction texts as [|t texts IH]; [reflexivity|].
  cbn [map]. rewrite concat_cons, !count_append, IH, countAll_cons, count_str1.
  rewrite Ascii.eqb_refl. simpl. lia.
Qed.

Lemma cells_end_with_delimiter (d : ascii) (texts : list string) :
  texts <> [] ->
  exists body, String.concat "" (map (fun t => t ++ str1 d) texts) = body ++ str1 d.
Proof.
  induction texts as [|t texts IH]; [congruence|]. intros _.
  cbn [map]. rewrite concat_cons.
  destruct texts as [|t' texts].
  - exists t. simpl. now rewrite append_nil_r.
  - destruct IH as [body Hb]; [discriminate|].
    rewrite Hb. exists ((t ++ str1 d) ++ body). now rewrite !append_assoc.
Qed.

(** A data line: the delimiters between the cells and the delimiters
    inside the texts of the cells. *)
Lemma createLine_count (params : Normalized) (data : list value) (row : value) (d : ascii) :
  n_fields params <> [] ->
  n_del params = str1 d ->
  d <> bslash -> d <> dquote ->
  JsString.count d (n_doubleQuotes params) = 0 ->
  JsString.noDollar (n_doubleQuotes params) = true ->
  exists texts line,
    mapM (fieldText params data row) (n_fields params) = Ok texts
    /\ List.length texts = List.length (n_fields params)
    /\ createLine params data row = Ok line
    /\ JsString.count d line = (List.length (n_fields params) - 1) + countAll d texts.
Proof.
  intros Hne Hdel Hb Hq Hdq Hnd.
  destruct (mapM_total (fieldText params data row) (n_fields params)
              (fieldText_total params data row)) as [texts Ht].
  pose proof (mapM_length _ _ _ Ht) as Hlen.
  assert (Htexts : texts <> []).
  { intros ->. destruct (n_fields params); [congruence | discriminate]. }
  destruct (cells_end_with_delimiter d texts Htexts) as [body Hbody].
  exists texts, (finishLine params (body ++ str1 d)).
  split; [exact Ht|]. split; [exact Hlen|]. split.
  - unfold createLine. rewrite (foldM_appendCell params data row _ texts "" Ht).
    cbn [bind]. rewrite Hdel. simpl. now rewrite Hbody.
  - rewrite count_finishLine by assumption.
    pose proof (count_cells_and_delimiters d texts) as Hc.
    rewrite Hbody, count_append, count_str1, Ascii.eqb_refl in Hc.
    destruct texts; [congruence|]. simpl in *. lia.
Qed.

Lemma titleCell_not_empty (params : Normalized) (element : option string) (cell : string) :
  n_quotes params <> "" -> JsString.noDollar (n_quotes params) = true ->
  titleCell params element = Ok cell -> cell <> "".
Proof.
  intros Hq Hnd. destruct element as [name|]; [|discriminate].
  rewrite titleCell_eq by exact Hnd.
  intros H. inversion H; subst; clear H.
  unfold JsString.replaceAll, JSON_quote. rewrite replaceGo_here.
  unfold str1 at 1. rewrite prefix_cons, Ascii.eqb_refl, prefix_nil. simpl.
  now apply append_not_empty.
Qed.

Lemma titleStep_cells (params : Normalized) (names : list (option string)) :
  forall str header,
    foldM (titleStep params) names str = Ok header ->
    exists cells, mapM (titleCell params) names = Ok cells.
Proof.
  induction names as [|name names IH]; intros str header H; simpl in *; [eauto|].
  unfold titleStep at 1 in H.
  destruct (titleCell params name) as [cell|]; simpl in H; [|discriminate].
  apply IH in H. destruct H as [cells ->]. simpl. eauto.
Qed.

Lemma titles_count_after_text (params : Normalized) (d : ascii) (names : list (option string)) :
  n_del params = str1 d ->
  forall cells str,
    str <> "" ->
    mapM (titleCell params) names = Ok cells ->
    exists header,
      foldM (titleStep params) names str = Ok header
      /\ JsString.count d header
         = JsString.count d str + countAll d cells + List.length names.
Proof.
  intros Hdel. induction names as [|name names IH]; intros cells str Hne H; simpl in H.
  - inversion H; subst. exists str. split; [reflexivity|]. unfold countAll. simpl. lia.
  - destruct (titleCell params name) as [cell|] eqn:Ec; simpl in H; [|discriminate].
    destruct (mapM (titleCell params) names) as [cs|] eqn:Ecs; simpl in H; [|discriminate].
    inversion H; subst; clear H.
    cbn [foldM]. unfold titleStep at 1. rewrite Ec. cbn [bind].
    pose proof Hne as Hne'. apply String.eqb_neq in Hne'. rewrite Hne'.
    destruct (IH cs ((str ++ n_del params) ++ cell)) as [header [Hh Hc]].
    + apply append_not_empty. now apply append_not_empty.
    + reflexivity.
    + exists header. split; [exact Hh|].
      rewrite Hc, !count_append, Hdel, count_str1, Ascii.eqb_refl, countAll_cons.
      simpl. lia.
Qed.

(** The title row: the delimiters between the names and the delimiters
    inside the texts of the names. *)
Lemma createColumnTitles_count (params : Normalized) (d : ascii) (header : string) :
  n_hasCSVColumnTitle params = true ->
  n_quotes params <> "" ->
  JsString.noDollar (n_quotes params) = true ->
  n_del params = str1 d ->
  createColumnTitles params = Ok header ->
  exists cells,
    mapM (titleCell params) (n_fieldNames params) = Ok cells
    /\ List.length cells = List.length (n_fieldNames params)
    /\ JsString.count d header + 1 = List.length (n_fieldNames params) + countAll d cells
       \/ (n_fieldNames params = [] /\ header = "")%type.
Proof.
  intros Ht Hq Hnd Hdel H. unfold createColumnTitles in H. rewrite Ht in H.
  destruct (titleStep_cells params _ _ _ H) as [cells Hcells].
  exists cells.
  destruct (n_fieldNames params) as [|name names] eqn:En.
  - right. simpl in H. inversion H. auto.
  - left. split; [exact Hcells|]. split; [now apply mapM_length in Hcells|].
    simpl in Hcells.
    destruct (titleCell params name) as [cell|] eqn:Ec; simpl in Hcells; [|discriminate].
    destruct (mapM (titleCell params) names) as [cs|] eqn:Ecs; simpl in Hcells;
      [|discriminate].
    inversion Hcells; subst; clear Hcells.
    cbn [foldM] in H. unfold titleStep at 1 in H. rewrite Ec in H. cbn [bind] in H.
    change (if "" =? "" then "" else "" ++ n_del params) with "" in H.
    change ("" ++ cell) with cell in H.
    destruct (titles_count_after_text params d names Hdel cs cell) as [h [Hh Hc]].
    + exact (titleCell_not_empty params name cell Hq Hnd Ec).
    + exact Ecs.
    + rewrite Hh in H. inversion H; subst. rewrite Hc, countAll_cons. simpl. lia.
Qed.

Lemma mapi_length {A B : Type} (f : A -> nat -> B) (l : list A) :
  forall i, List.length (mapi f i l) = List.length l.
Proof.
  induction l as [|x l IH]; intros i; simpl; [reflexivity | now rewrite IH].
Qed.

Lemma normalizeParams_names (params : Json2CsvParams) (data : value) (np : Normalized) :
  normalizeParams params data = Ok np ->
  List.length (n_fieldNames np) = List.length (n_fields np).
Proof.
  unfold normalizeParams. intros H.
  apply bind_Ok in H. destruct H as [resolved [_ H]].
  apply bind_Ok in H. destruct H as [u [_ H]].
  destruct resolved as [fs|]; [|discriminate].
  inversion H; subst; clear H. simpl. apply mapi_length.
Qed.

(** C1 (as stated, refuted). For the row {a:'x,y'} and the fields ['a']
    the data line holds one delimiter character, inside its cell, where
    fields.length - 1 is zero. *)
Lemma C1_delimiter_inside_cell :
  exists np line,
    normalizeParams (withFields [FieldString "a"]) (VArr [commaRow]) = Ok np
    /\ n_del np = ","
    /\ createLine np [commaRow] commaRow = Ok line
    /\ JsString.count ","%char line <> List.length (n_fields np) - 1.
Proof.
  eexists; eexists. split; [reflexivity|]. split; [reflexivity|].
  split; [reflexivity|]. vm_compute. discriminate.
Qed.

(** C1 (amended). For a non-empty field list and a delimiter of one
    character that is neither the backslash nor the double quote and
    does not occur in doubleQuotes, with a doubleQuotes setting that
    holds no dollar sign (String.prototype.replace expands the dollar
    patterns of its replacement), every data line that is emitted is
    made of fields.length cell texts: it holds fields.length - 1
    delimiter characters between the cells, plus those inside the texts
    of its cells.  With a quote setting that is not empty and holds no
    dollar sign the same holds of the header line and the texts of the
    field names, so header and data lines have the same number of
    columns. *)
Theorem C1_delimiter_count (params : Json2CsvParams) (data : value) (np : Normalized)
    (d : ascii) :
  normalizeParams params data = Ok np ->
  n_fields np <> [] ->
  n_del np = str1 d ->
  d <> bslash -> d <> dquote ->
  JsString.count d (n_doubleQuotes np) = 0 ->
  JsString.noDollar (n_doubleQuotes np) = true ->
  (forall rows row line,
     createLine np rows row = Ok line ->
     exists texts,
       mapM (fieldText np rows row) (n_fields np) = Ok texts
       /\ List.length texts = List.length (n_fields np)
       /\ JsString.count d line = (List.length (n_fields np) - 1) + countAll d texts)
  /\ (forall header,
        n_hasCSVColumnTitle np = true ->
        n_quotes np <> "" ->
        JsString.noDollar (n_quotes np) = true ->
        createColumnTitles np = Ok header ->
        exists cells,
          mapM (titleCell np) (n_fieldNames np) = Ok cells
          /\ List.length cells = List.length (n_fields np)
          /\ JsString.count d header = (List.length (n_fields np) - 1) + countAll d cells).
Proof.
  intros Hp Hne Hdel Hb Hq Hdq Hnd. split.
  - intros rows row line Hline.
    destruct (createLine_count np rows row d Hne Hdel Hb Hq Hdq Hnd)
      as [texts [line' [Ht [Hlen [Hline' Hcount]]]]].
    rewrite Hline in Hline'. injection Hline' as <-.
    exists texts. auto.
  - intros header Ht Hquotes Hndq Hh.
    pose proof (normalizeParams_names params data np Hp) as Hlen.
    destruct (createColumnTitles_count np d header Ht Hquotes Hndq Hdel Hh) as [cells H].
    exists cells. destruct H as [[Hc [Hl Hcount]] | [Hnil _]].
    + split; [exact Hc|]. split; [congruence|].
      assert (Hpos : 0 < List.length (n_fields np))
        by (destruct (n_fields np); [congruence | simpl; lia]).
      lia.
    + rewrite Hnil in Hlen. destruct (n_fields np); [congruence | discriminate].
Qed.

Lemma C1_delimiter_count_witness :
  exists texts,
    mapM (fieldText normalizedAB [] (VObj [("a", VNum 1); ("b", VStr "x")]))
         (n_fields normalizedAB) = Ok texts
    /\ List.length texts = List.length (n_fields normalizedAB)
    /\ JsString.count ","%char
         (String "1" (String "," (String dquote (String "x" (str1 dquote)))))
       = (List.length (n_fields normalizedAB) - 1) + countAll ","%char texts.
Proof.
  apply (proj1 (C1_delimiter_count fieldsAB (VArr []) normalizedAB ","%char
                  eq_refl ltac:(discriminate) eq_refl ltac:(discriminate)
                  ltac:(discriminate) eq_refl eq_refl)
           [] (VObj [("a", VNum 1); ("b", VStr "x")])).
  reflexivity.
Defined.

(** * Further properties *)

(** ** replaceQuotationMarks *)

Lemma join_empty_cons (x : string) (l : list string) :
  JsString.join "" (x :: l) = x ++ JsString.join "" l.
Proof.
  destruct l; simpl; [now rewrite append_nil_r | reflexivity].
Qed.

Lemma join_chars_with_last (e q : string) :
  JsString.join "" (JsString.chars e ++ [q])%list = e ++ q.
Proof.
  induction e as [|a e IH]; [reflexivity|].
  cbn [JsString.chars app]. rewrite join_empty_cons, IH. reflexivity.
Qed.

Lemma setAt_chars_last (e : string) (a : ascii) (q : string) :
  setAt (JsString.chars (e ++ str1 a)) (String.length e) q = (JsString.chars e ++ [q])%list.
Proof.
  induction e as [|b e IH]; [reflexivity|].
  simpl. now rewrite IH.
Qed.

Lemma get_append_last (e : string) (a : ascii) :
  String.get (String.length e) (e ++ str1 a) = Some a.
Proof.
  induction e as [|b e IH]; [reflexivity | exact IH].
Qed.

Lemma replaceQuotationMarks_quoted (s quotes : string) :
  replaceQuotationMarks (JSON_quote s) quotes = quotes ++ escapeString s ++ quotes.
Proof.
  unfold replaceQuotationMarks, JSON_quote.
  set (e := escapeString s).
  replace (String.length (String dquote (e ++ str1 dquote)) - 1) with (S (String.length e))
    by (simpl; rewrite length_append; simpl; lia).
  assert (H0 : isQuoteAt (String dquote (e ++ str1 dquote)) 0 = true) by reflexivity.
  assert (H1 : isQuoteAt (String dquote (e ++ str1 dquote)) (S (String.length e)) = true).
  { unfold isQuoteAt. simpl. now rewrite get_append_last. }
  rewrite H0, H1. cbn [andb JsString.chars].
  change (setAt (str1 dquote :: JsString.chars (e ++ str1 dquote)) 0 quotes)
    with (quotes :: JsString.chars (e ++ str1 dquote)).
  cbn [setAt]. rewrite setAt_chars_last, join_empty_cons, join_chars_with_last.
  reflexivity.
Qed.

Lemma replaceQuotationMarks_literal (t quotes : string) :
  isQuoteAt t 0 = false -> replaceQuotationMarks t quotes = t.
Proof.
  intros H. unfold replaceQuotationMarks. now rewrite H.
Qed.

(** ** Texts in which a backslash only escapes a quote *)

Lemma Escapes_plain (dq s : string) : JsString.count bslash s = 0 -> Escapes dq s s.
Proof.
  induction s as [|a s IH]; intros H; [constructor|].
  apply count_cons_zero in H. destruct H as [E H].
  constructor; [|now apply IH].
  intros ->. rewrite Ascii.eqb_refl in E. discriminate.
Qed.

Lemma Escapes_app (dq s1 t1 s2 t2 : string) :
  Escapes dq s1 t1 -> Escapes dq s2 t2 -> Escapes dq (s1 ++ s2) (t1 ++ t2).
Proof.
  induction 1 as [|c s t Hc _ IH|s t _ IH]; intros H2; simpl.
  - exact H2.
  - constructor; auto.
  - rewrite append_assoc. constructor. auto.
Qed.

Lemma plainChar_not_backslash (c : ascii) : plainChar c = true -> c <> bslash.
Proof.
  unfold plainChar. intros H ->. apply andb_prop in H. destruct H as [_ H].
  rewrite Ascii.eqb_refl in H. discriminate.
Qed.

Lemma escapeChar_plain (c : ascii) :
  plainChar c = true ->
  escapeChar c = if Ascii.eqb c dquote then escapedQuote else str1 c.
Proof.
  intros H. unfold escapeChar.
  destruct (Ascii.eqb c dquote) eqn:Eq; [reflexivity|].
  unfold plainChar in H. apply andb_prop in H. destruct H as [Hn Hb].
  apply negb_true_iff in Hb. rewrite Hb.
  apply Nat.leb_le in Hn.
  repeat match goal with
         | |- context [(nat_of_ascii c =? ?k)%nat] =>
             destruct (Nat.eqb_spec (nat_of_ascii c) k); [lia|]
         end.
  destruct (Nat.ltb_spec (nat_of_ascii c) 32); [lia | reflexivity].
Qed.

Lemma replaceAll_quote_cons_quote (rep s : string) :
  JsString.replaceAll (str1 dquote) rep (String dquote s)
  = rep ++ JsString.replaceAll (str1 dquote) rep s.
Proof.
  unfold JsString.replaceAll. rewrite replaceGo_here.
  unfold str1 at 1. rewrite prefix_cons, Ascii.eqb_refl, prefix_nil. reflexivity.
Qed.

Lemma replaceAll_quote_cons_other (rep : string) (c : ascii) (s : string) :
  Ascii.eqb c dquote = false ->
  JsString.replaceAll (str1 dquote) rep (String c s)
  = String c (JsString.replaceAll (str1 dquote) rep s).
Proof.
  intros H. unfold JsString.replaceAll. rewrite replaceGo_here.
  unfold str1 at 1. rewrite prefix_cons, Ascii.eqb_sym, H. reflexivity.
Qed.

Lemma Escapes_escapeString (dq s : string) :
  plainString s = true ->
  Escapes dq (escapeString s) (JsString.replaceAll (str1 dquote) dq s).
Proof.
  induction s as [|a s IH]; intros H; [constructor|].
  simpl in H. apply andb_prop in H. destruct H as [Ha Hs].
  cbn [escapeString]. rewrite (escapeChar_plain a Ha).
  destruct (Ascii.eqb a dquote) eqn:E.
  - apply Ascii.eqb_eq in E. subst a. rewrite replaceAll_quote_cons_quote.
    unfold escapedQuote. simpl. constructor. auto.
  - rewrite replaceAll_quote_cons_other by exact E. simpl.
    constructor; [now apply plainChar_not_backslash | auto].
Qed.

Lemma Escapes_no_backslash (dq s t : string) :
  JsString.count bslash dq = 0 -> Escapes dq s t -> JsString.count bslash t = 0.
Proof.
  intros Hd. induction 1 as [|c s t Hc _ IH|s t _ IH]; [reflexivity | |].
  - rewrite count_cons, IH.
    destruct (Ascii.eqb c bslash) eqn:E; [|reflexivity].
    apply Ascii.eqb_eq in E. congruence.
  - rewrite count_append. lia.
Qed.

Lemma prefix_twoBackslashes (c : ascii) (s : string) :
  String.prefix twoBackslashes (String c s)
  = Ascii.eqb bslash c && match s with
                          | String b _ => Ascii.eqb bslash b
                          | EmptyString => false
                          end.
Proof.
  unfold twoBackslashes. rewrite prefix_cons.
  destruct s as [|b s]; [reflexivity|].
  unfold str1. now rewrite prefix_cons, prefix_nil, andb_true_r.
Qed.

Lemma prefix_escapedQuote (c : ascii) (s : string) :
  String.prefix escapedQuote (String c s)
  = Ascii.eqb bslash c && match s with
                          | String b _ => Ascii.eqb dquote b
                          | EmptyString => false
                          end.
Proof.
  unfold escapedQuote. rewrite prefix_cons.
  destruct s as [|b s]; [reflexivity|].
  unfold str1. now rewrite prefix_cons, prefix_nil, andb_true_r.
Qed.

Lemma not_backslash_eqb (c : ascii) : c <> bslash -> Ascii.eqb bslash c = false.
Proof.
  intros H. apply Ascii.eqb_neq. congruence.
Qed.

Lemma backslash_not_quote : Ascii.eqb bslash dquote = false.
Proof. reflexivity. Qed.


(** No doubled backslash: replace and split leave the text alone. *)
Lemma Escapes_replace_backslashes (dq rep s t : string) :
  Escapes dq s t -> JsString.replaceAll twoBackslashes rep s = s.
Proof.
  unfold JsString.replaceAll.
  induction 1 as [|c s t Hc _ IH|s t _ IH]; [reflexivity | |].
  - rewrite replaceGo_here, prefix_twoBackslashes, (not_backslash_eqb c Hc). cbn [andb].
    now rewrite IH.
  - rewrite replaceGo_here, prefix_twoBackslashes, backslash_not_quote, andb_false_r.
    rewrite replaceGo_here, prefix_twoBackslashes, backslash_not_quote. cbn [andb].
    now rewrite IH.
Qed.

Lemma Escapes_split_backslashes (dq s t : string) :
  Escapes dq s t -> JsString.split twoBackslashes s = [s].
Proof.
  intros H. unfold JsString.split.
  assert (Hs : JsString.splitGo twoBackslashes 0 s = (s, [])).
  { induction H as [|c s t Hc _ IH|s t _ IH]; [reflexivity | |].
    - rewrite splitGo_here, prefix_twoBackslashes, (not_backslash_eqb c Hc). cbn [andb].
      now rewrite IH.
    - rewrite splitGo_here, prefix_twoBackslashes, backslash_not_quote, andb_false_r.
      rewrite splitGo_here, prefix_twoBackslashes, backslash_not_quote. cbn [andb].
      now rewrite IH. }
  now rewrite Hs.
Qed.

Lemma Escapes_replace_quotes (dq s t : string) :
  Escapes dq s t -> JsString.replaceAll escapedQuote dq s = t.
Proof.
  unfold JsString.replaceAll.
  induction 1 as [|c s t Hc _ IH|s t _ IH]; [reflexivity | |].
  - rewrite replaceGo_here, prefix_escapedQuote, (not_backslash_eqb c Hc). cbn [andb].
    now rewrite IH.
  - rewrite replaceGo_here, prefix_escapedQuote, !Ascii.eqb_refl. cbn [andb].
    change (String.length escapedQuote - 1) with 1.
    rewrite replaceGo_skip. now rewrite IH.
Qed.

Lemma escapeLine_Escapes (params : Normalized) (s t : string) :
  JsString.count bslash (n_doubleQuotes params) = 0 ->
  Escapes (n_doubleQuotes params) s t ->
  escapeLine params s = t.
Proof.
  intros Hd H. unfold escapeLine.
  rewrite (Escapes_split_backslashes _ _ _ H). simpl.
  rewrite (Escapes_replace_quotes _ _ _ H).
  apply replaceAll_no_backslash. eapply Escapes_no_backslash; eauto.
Qed.

Lemma finishLine_escapeLine (params : Normalized) (body : string) (c : ascii) :
  JsString.noDollar (n_doubleQuotes params) = true ->
  finishLine params (body ++ str1 c) = escapeLine params body.
Proof.
  intros H. rewrite finishLine_eq by exact H.
  unfold escapeLine. now rewrite substring_without_last.
Qed.

(** ** The line of a row of plain values *)

Lemma quotes_step (quotes j : string) :
  (if quotes =? str1 dquote then JSON_quote j
   else replaceQuotationMarks (JSON_quote j) quotes)
  = quotes ++ escapeString j ++ quotes.
Proof.
  destruct (quotes =? str1 dquote) eqn:E.
  - apply String.eqb_eq in E. subst quotes. reflexivity.
  - apply replaceQuotationMarks_quoted.
Qed.

Lemma Escapes_quoted (params : Normalized) (j : string) :
  JsString.count bslash (n_quotes params) = 0 ->
  plainString j = true ->
  Escapes (n_doubleQuotes params)
          (n_quotes params ++ escapeString j ++ n_quotes params) (csvQuoted params j).
Proof.
  intros Hq Hj. unfold csvQuoted.
  apply Escapes_app; [now apply Escapes_plain|].
  apply Escapes_app; [now apply Escapes_escapeString | now apply Escapes_plain].
Qed.

Lemma cellText_object (params : Normalized) (v : value) (j : string) :
  typeof v = TObject -> JSON_stringify v = Some j ->
  JsString.count bslash (n_quotes params) = 0 ->
  plainString j = true ->
  cellText params v = Ok (n_quotes params ++ escapeString j ++ n_quotes params).
Proof.
  intros Ht Hj Hq Hp. rewrite cellText_eq. rewrite Hj, Ht. cbn [jstype_eqb].
  rewrite quotes_step, andb_false_r.
  now rewrite (Escapes_replace_backslashes _ _ _ _ (Escapes_quoted params j Hq Hp)).
Qed.

Lemma cellText_string (params : Normalized) (s : string) :
  JsString.count bslash (n_quotes params) = 0 ->
  plainString s = true ->
  cellText params (VStr s)
  = Ok (if n_excelStrings params
        then excelWrapped (n_quotes params ++ escapeString s ++ n_quotes params)
        else n_quotes params ++ escapeString s ++ n_quotes params).
Proof.
  intros Hq Hp. rewrite cellText_eq. cbn [JSON_stringify typeof jstype_eqb].
  rewrite quotes_step, andb_true_r.
  now rewrite (Escapes_replace_backslashes _ _ _ _ (Escapes_quoted params s Hq Hp)).
Qed.

Lemma cellText_bool (params : Normalized) (b : bool) :
  cellText params (VBool b) = Ok (if b then "true" else "false").
Proof.
  rewrite cellText_eq. destruct b; cbn [JSON_stringify typeof jstype_eqb];
    rewrite andb_false_r;
    destruct (n_quotes params =? str1 dquote); reflexivity.
Qed.

Lemma Escapes_excelWrapped (dq s t : string) :
  Escapes dq s t -> Escapes dq (excelWrapped s) (excelWrapped t).
Proof.
  intros H. unfold excelWrapped.
  apply Escapes_app; [apply Escapes_plain; reflexivity|].
  apply Escapes_app; [exact H | apply Escapes_plain; reflexivity].
Qed.

Lemma cellText_plain (params : Normalized) (v : value) :
  JsString.count bslash (n_quotes params) = 0 ->
  plainValue v = true -> v <> VUndefined ->
  exists t, cellText params v = Ok t /\ Escapes (n_doubleQuotes params) t (csvText params v).
Proof.
  intros Hq Hp Hv. destruct v as [| |b|n|s|xs|ps]; [congruence | | | | | |].
  - eexists. split; [apply (cellText_object params VNull "null"); auto|].
    now apply Escapes_quoted.
  - eexists. split; [apply cellText_bool|].
    destruct b; apply Escapes_plain; reflexivity.
  - eexists. split; [apply cellText_number|].
    apply Escapes_plain. apply numberToString_count. auto.
  - eexists. split; [now apply cellText_string|]. simpl in Hp. cbn [csvText].
    destruct (n_excelStrings params).
    + apply Escapes_excelWrapped. now apply Escapes_quoted.
    + now apply Escapes_quoted.
  - eexists. split.
    + apply (cellText_object params (VArr xs) (jsonText (VArr xs))); auto.
    + now apply Escapes_quoted.
  - eexists. split.
    + apply (cellText_object params (VObj ps) (jsonText (VObj ps))); auto.
    + now apply Escapes_quoted.
Qed.

Lemma fieldText_plain (params : Normalized) (data : list value) (row : value) (f : field) :
  JsString.count bslash (n_quotes params) = 0 ->
  plainValue (cellValue params data row f) = true ->
  exists t, fieldText params data row f = Ok t
            /\ Escapes (n_doubleQuotes params) t (csvText params (cellValue params data row f)).
Proof.
  intros Hq Hp. unfold fieldText.
  destruct (cellValue params data row f) eqn:E;
    try (apply cellText_plain; [exact Hq | exact Hp | discriminate]).
  exists "". split; [reflexivity | constructor].
Qed.

Lemma mapM_fieldText_plain (params : Normalized) (data : list value) (row : value)
    (fs : list field) :
  JsString.count bslash (n_quotes params) = 0 ->
  Forall (fun f => plainValue (cellValue params data row f) = true) fs ->
  exists texts,
    mapM (fieldText params data row) fs = Ok texts
    /\ Forall2 (Escapes (n_doubleQuotes params)) texts
               (map (fun f => csvText params (cellValue params data row f)) fs).
Proof.
  intros Hq. induction 1 as [|f fs Hf _ [texts [Hm Hall]]].
  - exists []. split; [reflexivity | constructor].
  - destruct (fieldText_plain params data row f Hq Hf) as [t [Ht He]].
    exists (t :: texts). split.
    + cbn [mapM]. rewrite Ht, Hm. reflexivity.
    + constructor; assumption.
Qed.

Lemma Escapes_join (dq d : string) (ss ts : list string) :
  Escapes dq d d -> Forall2 (Escapes dq) ss ts ->
  Escapes dq (JsString.join d ss) (JsString.join d ts).
Proof.
  intros Hd. induction 1 as [|s t ss ts Hst Hrest IH]; [constructor|].
  destruct Hrest as [|s' t' ss ts Hst' Hrest].
  - exact Hst.
  - change (JsString.join d (s :: s' :: ss)) with (s ++ d ++ JsString.join d (s' :: ss)).
    change (JsString.join d (t :: t' :: ts)) with (t ++ d ++ JsString.join d (t' :: ts)).
    apply Escapes_app; [exact Hst|]. apply Escapes_app; [exact Hd | exact IH].
Qed.

Lemma concat_is_join (del : string) (texts : list string) :
  texts <> [] ->
  String.concat "" (map (fun t => t ++ del) texts) = JsString.join del texts ++ del.
Proof.
  induction texts as [|t texts IH]; [congruence|]. intros _.
  cbn [map]. rewrite concat_cons.
  destruct texts as [|t' texts].
  - simpl. now rewrite append_nil_r.
  - rewrite IH by discriminate.
    change (JsString.join del (t :: t' :: texts))
      with (t ++ del ++ JsString.join del (t' :: texts)).
    now rewrite !append_assoc.
Qed.

Lemma createLine_joined (params : Normalized) (data : list value) (row : value)
    (init : string) (c : ascii) :
  n_fields params <> [] ->
  n_del params = init ++ str1 c ->
  JsString.noDollar (n_doubleQuotes params) = true ->
  exists texts,
    mapM (fieldText params data row) (n_fields params) = Ok texts
    /\ createLine params data row
       = Ok (escapeLine params (JsString.join (n_del params) texts ++ init)).
Proof.
  intros Hne Hdel Hnd.
  destruct (mapM_total (fieldText params data row) (n_fields params)
              (fieldText_total params data row)) as [texts Ht].
  exists texts. split; [exact Ht|].
  assert (Htexts : texts <> []).
  { intros ->. apply mapM_length in Ht. destruct (n_fields params); [congruence | discriminate]. }
  unfold createLine. rewrite (foldM_appendCell params data row _ texts "" Ht).
  cbn [bind]. change ("" ++ ?x) with x.
  rewrite (concat_is_join (n_del params) texts Htexts).
  f_equal. rewrite <- (finishLine_escapeLine params _ c Hnd). f_equal.
  rewrite append_assoc. now rewrite <- Hdel.
Qed.

(** X1. The data line of a row whose cell values are plain (no control
    character, no backslash), for a doubleQuotes setting without a
    dollar sign (which String.prototype.replace would expand): the cells
    in their CSV form, joined by the delimiter.  A string or an object
    is put between the quote setting with its double quotes replaced by
    doubleQuotes, a number or a boolean is its literal, an undefined
    value is empty.  Only the last character of the final delimiter is
    cut, so a delimiter of several characters leaves its first
    characters at the end of the line. *)
Theorem line_of_plain_values (params : Normalized) (data : list value) (row : value)
    (init : string) (c : ascii) :
  n_fields params <> [] ->
  n_del params = init ++ str1 c ->
  JsString.count bslash (n_del params) = 0 ->
  JsString.count bslash (n_quotes params) = 0 ->
  JsString.count bslash (n_doubleQuotes params) = 0 ->
  JsString.noDollar (n_doubleQuotes params) = true ->
  Forall (fun f => plainValue (cellValue params data row f) = true) (n_fields params) ->
  createLine params data row
  = Ok (JsString.join (n_del params)
          (map (fun f => csvText params (cellValue params data row f)) (n_fields params))
        ++ init).
Proof.
  intros Hne Hdel Hbd Hbq Hbdq Hnd Hplain.
  destruct (createLine_joined params data row init c Hne Hdel Hnd) as [texts [Ht Hline]].
  destruct (mapM_fieldText_plain params data row (n_fields params) Hbq Hplain)
    as [texts' [Ht' Hall]].
  rewrite Ht in Ht'. inversion Ht'; subst texts'; clear Ht'.
  rewrite Hline. f_equal.
  apply escapeLine_Escapes; [exact Hbdq|].
  apply Escapes_app.
  - apply Escapes_join; [now apply Escapes_plain | exact Hall].
  - apply Escapes_plain. rewrite Hdel, count_append in Hbd. lia.
Qed.

Lemma line_of_plain_values_witness :
  createLine normalizedAB [] (VObj [("a", VNum 1); ("b", VStr "x,y")])
  = Ok (JsString.join ","
          (map (fun f => csvText normalizedAB
                           (cellValue normalizedAB [] (VObj [("a", VNum 1); ("b", VStr "x,y")]) f))
               (n_fields normalizedAB)) ++ "").
Proof.
  apply (line_of_plain_values normalizedAB [] (VObj [("a", VNum 1); ("b", VStr "x,y")])
           "" ","%char).
  - discriminate.
  - reflexivity.
  - reflexivity.
  - reflexivity.
  - reflexivity.
  - reflexivity.
  - repeat constructor.
Defined.

(** X2. replaceQuotationMarks swaps the first and the last character of
    a stringified string for the quote setting and leaves the text in
    between, escapes included, as it is; a literal that does not start
    with a double quote (a number, true, false) is returned unchanged. *)
Theorem replaceQuotationMarks_outer_only (s quotes t : string) :
  replaceQuotationMarks (JSON_quote s) quotes = quotes ++ escapeString s ++ quotes
  /\ (isQuoteAt t 0 = false -> replaceQuotationMarks t quotes = t)
  /\ (forall n, replaceQuotationMarks (numberToString n) quotes = numberToString n).
Proof.
  split; [apply replaceQuotationMarks_quoted|]. split.
  - apply replaceQuotationMarks_literal.
  - intros n. apply replaceQuotationMarks_literal. unfold isQuoteAt.
    apply (count_zero_not_first dquote). apply numberToString_count. auto.
Qed.

Lemma replaceQuotationMarks_outer_only_witness :
  replaceQuotationMarks "true" "'" = "true".
Proof.
  apply (proj1 (proj2 (replaceQuotationMarks_outer_only "" "'" "true"))). reflexivity.
Defined.

(** ** Rows that produce no line *)

Lemma isSkipped_not_rendered (params : Normalized) (row : value) :
  isSkipped params row -> isRendered params row = false.
Proof.
  unfold isSkipped, isRendered. intros [H | [Hi Hl]].
  - now rewrite H.
  - rewrite Hi, Hl. simpl. apply andb_false_r.
Qed.

Lemma lodashGet_primitive (row : value) (path : string) :
  isObject row = false -> isObject (lodashGet row path VUndefined) = false.
Proof.
  intros H. unfold lodashGet. destruct (isNullish row); [reflexivity|].
  rewrite baseGet_baseGetFrom by apply castPath_not_nil.
  pose proof (baseGetFrom_primitive (castPath path row) row H) as Hg.
  destruct (baseGetFrom row (castPath path row)); auto.
Qed.

Lemma isSkipped_no_array (params : Normalized) (row : value) (path : string) :
  isSkipped params row -> isArray (lodashGet row path VUndefined) = false.
Proof.
  intros H.
  assert (Hcases : isObject row = false \/ row = VObj []).
  { destruct H as [H | [_ H]]; destruct row as [| |b|n|s|xs|[|p ps]]; simpl in *;
      auto; discriminate. }
  destruct Hcases as [Hp | ->].
  - apply (lodashGet_primitive row path) in Hp.
    destruct (lodashGet row path VUndefined); simpl in *; auto; discriminate.
  - rewrite lodashGet_short_path; [reflexivity | intros k []].
Qed.

Lemma createDataRows_skipped (params : Normalized) (rows : list value) :
  Forall (isSkipped params) rows -> createDataRows rows params = rows.
Proof.
  intros H. unfold createDataRows.
  destruct (n_unwindPath params) as [p|]; [|reflexivity].
  destruct (p =? ""); [reflexivity|].
  rewrite fold_unwindStep. simpl.
  induction H as [|row rows Hrow _ IH]; [reflexivity|].
  cbn [map concat]. rewrite IH. unfold specUnwindRow.
  pose proof (isSkipped_no_array params row p Hrow) as Ha.
  destruct (lodashGet row p VUndefined); try reflexivity; discriminate.
Qed.

(** X3. Rows that are null, undefined or another falsy value, and
    without includeEmptyRows rows without own properties, add nothing to
    the output, with or without an unwind path: when every row is such
    a row, createColumnContent returns the title row it was given. *)
Theorem no_line_for_skipped_rows (os_EOL : string) (rows : list value) (output : string)
    (params : Normalized) :
  Forall (isSkipped params) rows ->
  createColumnContent os_EOL rows output params = Ok output.
Proof.
  intros H. unfold createColumnContent. rewrite (createDataRows_skipped params rows H).
  generalize rows at 1. intros data.
  induction H as [|row rows' Hrow _ IH]; [reflexivity|].
  cbn [foldM]. unfold contentStep at 1.
  rewrite (isSkipped_not_rendered params row Hrow). exact IH.
Qed.

Lemma no_line_for_skipped_rows_witness :
  createColumnContent (str1 linefeed) [VNull; VObj []] carTitles unwindColors = Ok carTitles.
Proof.
  apply (no_line_for_skipped_rows (str1 linefeed) [VNull; VObj []] carTitles unwindColors).
  apply Forall_cons; [left; reflexivity|].
  apply Forall_cons; [right; split; reflexivity | apply Forall_nil].
Defined.

(** ** Field names and the title row *)

Lemma mapi_fieldName_names (paths : list string) :
  forall names pre,
    List.length names = List.length paths ->
    mapi (fieldName (Some (pre ++ names)%list)) (List.length pre) (map FieldString paths)
    = map Some names.
Proof.
  induction paths as [|p paths IH]; intros names pre H.
  - destruct names; [reflexivity | discriminate].
  - destruct names as [|n names]; [discriminate|].
    cbn [map mapi fieldName]. f_equal.
    + rewrite nth_error_app2 by lia. now rewrite Nat.sub_diag.
    + specialize (IH names (pre ++ [n])%list). rewrite length_app in IH. simpl in IH.
      replace (List.length pre + 1) with (S (List.length pre)) in IH by lia.
      rewrite <- app_assoc in IH. apply IH. simpl in H. lia.
Qed.

Lemma mapi_fieldName_paths (paths : list string) :
  forall i, mapi (fieldName None) i (map FieldString paths) = map Some paths.
Proof.
  induction paths as [|p paths IH]; intros i; [reflexivity|].
  cbn [map mapi fieldName]. now rewrite IH.
Qed.

Lemma normalizeParams_with_fields (params : Json2CsvParams) (data : value) (fs : list field) :
  fields params = Some fs ->
  (forall names, fieldNames params = Some names -> List.length names = List.length fs) ->
  exists np,
    normalizeParams params data = Ok np
    /\ n_fields np = fs
    /\ n_fieldNames np = mapi (fieldName (fieldNames params)) 0 fs
    /\ n_eol np = orElse (eol params) ""
    /\ n_hasCSVColumnTitle np = match hasCSVColumnTitle params with
                                | Some false => false
                                | _ => true
                                end.
Proof.
  intros Hf Hn.
  assert (Hr : resolveFields params data = Ok (Some fs)).
  { unfold resolveFields. rewrite Hf. destruct data; reflexivity. }
  unfold normalizeParams. rewrite Hr. cbn [bind].
  destruct (fieldNames params) as [names|] eqn:En.
  - rewrite (Hn names eq_refl), Nat.eqb_refl. cbn [negb bind].
    eexists. split; [reflexivity|]. repeat split.
  - cbn [bind]. eexists. split; [reflexivity|]. repeat split.
Qed.

(** X4. The names of the title row for fields given as path strings:
    the paths themselves when fieldNames is omitted, and the entries of
    fieldNames, position by position, when it is supplied with the
    length of fields. *)
Theorem display_names_of_path_fields (params : Json2CsvParams) (data : value)
    (paths : list string) :
  fields params = Some (map FieldString paths) ->
  (fieldNames params = None ->
   exists np, normalizeParams params data = Ok np /\ n_fieldNames np = map Some paths)
  /\ (forall names,
        fieldNames params = Some names -> List.length names = List.length paths ->
        exists np, normalizeParams params data = Ok np /\ n_fieldNames np = map Some names).
Proof.
  intros Hf. split.
  - intros Hn.
    destruct (normalizeParams_with_fields params data _ Hf) as [np [Hp [_ [Hnames _]]]].
    { intros names H. congruence. }
    exists np. split; [exact Hp|]. rewrite Hnames, Hn. apply mapi_fieldName_paths.
  - intros names Hn Hl.
    destruct (normalizeParams_with_fields params data _ Hf) as [np [Hp [_ [Hnames _]]]].
    { intros names' H. rewrite length_map. congruence. }
    exists np. split; [exact Hp|]. rewrite Hnames, Hn.
    apply (mapi_fieldName_names paths names []). exact Hl.
Qed.

Lemma display_names_of_path_fields_witness :
  exists np,
    normalizeParams (withNames ["carModel"; "price"] ["Car Model"; "Price USD"]) (VArr []) = Ok np
    /\ n_fieldNames np = map Some ["Car Model"; "Price USD"].
Proof.
  apply (proj2 (display_names_of_path_fields
                  (withNames ["carModel"; "price"] ["Car Model"; "Price USD"]) (VArr [])
                  ["carModel"; "price"] eq_refl) ["Car Model"; "Price USD"]); reflexivity.
Defined.

Lemma replaceAll_same_char (c : ascii) (s : string) :
  JsString.replaceAll (str1 c) (str1 c) s = s.
Proof.
  unfold JsString.replaceAll. induction s as [|a s IH]; [reflexivity|].
  rewrite replaceGo_here. unfold str1 at 1. rewrite prefix_cons, prefix_nil, andb_true_r.
  destruct (Ascii.eqb c a) eqn:E.
  - apply Ascii.eqb_eq in E. subst a. simpl. now rewrite IH.
  - now rewrite IH.
Qed.

Lemma titleStep_after_text (params : Normalized) (names : list string) :
  JsString.noDollar (n_quotes params) = true ->
  forall str,
    str <> "" ->
    foldM (titleStep params) (map Some names) str
    = Ok (str ++ String.concat ""
                   (map (fun n => n_del params
                                  ++ JsString.replaceAll (str1 dquote) (n_quotes params)
                                       (JSON_quote n)) names)).
Proof.
  intros Hnd. induction names as [|n names IH]; intros str Hne.
  - simpl. now rewrite append_nil_r.
  - cbn [map foldM]. unfold titleStep at 1. rewrite titleCell_eq by exact Hnd. cbn [bind].
    apply String.eqb_neq in Hne. rewrite Hne.
    rewrite IH.
    + rewrite concat_cons. now rewrite !append_assoc.
    + apply append_not_empty, append_not_empty. now apply String.eqb_neq.
Qed.

Lemma createColumnTitles_joined (params : Normalized) (names : list string) :
  n_hasCSVColumnTitle params = true ->
  n_fieldNames params = map Some names ->
  n_quotes params <> "" ->
  JsString.noDollar (n_quotes params) = true ->
  createColumnTitles params
  = Ok (JsString.join (n_del params)
          (map (fun n => JsString.replaceAll (str1 dquote) (n_quotes params) (JSON_quote n))
               names)).
Proof.
  intros Ht Hn Hq Hnd. unfold createColumnTitles. rewrite Ht, Hn.
  destruct names as [|n names]; [reflexivity|].
  cbn [map foldM]. unfold titleStep at 1. rewrite titleCell_eq by exact Hnd. cbn [bind].
  change (if "" =? "" then "" else "" ++ n_del params) with "".
  change ("" ++ ?x) with x.
  rewrite (titleStep_after_text params names Hnd).
  - now rewrite (join_cons_map (n_del params)
                   (fun n => JsString.replaceAll (str1 dquote) (n_quotes params) (JSON_quote n))).
  - apply (titleCell_not_empty params (Some n)); [exact Hq | exact Hnd |].
    now apply titleCell_eq.
Qed.

(** X5. The title row, for names that are strings and a quote setting
    that is not empty and holds no dollar sign (which
    String.prototype.replace would expand): the stringified names,
    their double quotes replaced by the quote setting, joined by the
    delimiter.  With the default quote the cells are the JSON strings
    of the names: a double quote inside a name stays escaped by a
    backslash, it is not doubled as in a data line. *)
Theorem title_row_joined (params : Normalized) (names : list string) :
  n_hasCSVColumnTitle params = true ->
  n_fieldNames params = map Some names ->
  n_quotes params <> "" ->
  JsString.noDollar (n_quotes params) = true ->
  createColumnTitles params
  = Ok (JsString.join (n_del params)
          (map (fun n => JsString.replaceAll (str1 dquote) (n_quotes params) (JSON_quote n))
               names))
  /\ (n_quotes params = str1 dquote ->
      createColumnTitles params = Ok (JsString.join (n_del params) (map JSON_quote names))).
Proof.
  intros Ht Hn Hq Hnd. split; [now apply createColumnTitles_joined|].
  intros Hd. rewrite (createColumnTitles_joined params names Ht Hn Hq Hnd). rewrite Hd.
  do 2 f_equal. apply map_ext. intros n. apply replaceAll_same_char.
Qed.

Lemma title_row_joined_witness :
  createColumnTitles normalizedAB = Ok (JsString.join "," (map JSON_quote ["a"; "b"])).
Proof.
  apply (proj2 (title_row_joined normalizedAB ["a"; "b"] eq_refl eq_refl
                  ltac:(discriminate) eq_refl)).
  reflexivity.
Defined.

(** ** The value of a cell *)

Lemma lodashGet_default (row : value) (path : string) (d : value) :
  lodashGet row path d
  = match lodashGet row path VUndefined with
    | VUndefined => d
    | found => found
    end.
Proof.
  unfold lodashGet.
  destruct (if isNullish row then VUndefined else baseGet row (castPath path row));
    reflexivity.
Qed.

(** X6. How a path field resolves: a property that is missing and a
    property that is null both give the default of the field (its own
    default when it has one, else defaultValue), any other value is used
    as found.  A field that is the empty string never reads the row,
    not even a property named by the empty string, which an object
    field with the empty path does read. *)
Theorem cell_value_resolution (params : Normalized) (data : list value) (row : value) :
  (forall path,
     path <> "" ->
     cellValue params data row (FieldString path)
     = if isNullish (lodashGet row path VUndefined) then n_defaultValue params
       else lodashGet row path VUndefined)
  /\ (forall o path,
        fvalue o = PathValue path ->
        cellValue params data row (FieldObject o)
        = if isNullish (lodashGet row path VUndefined)
          then match default o with Some d => d | None => n_defaultValue params end
          else lodashGet row path VUndefined)
  /\ cellValue params data row (FieldString "") = n_defaultValue params
  /\ (forall v o,
        fvalue o = PathValue "" -> isNullish v = false ->
        cellValue params data (VObj [("", v)]) (FieldObject o) = v).
Proof.
  split; [|split; [|split]].
  - intros path Hp. unfold cellValue. apply String.eqb_neq in Hp. rewrite Hp.
    rewrite lodashGet_default. cbn [fieldDefault].
    destruct (lodashGet row path VUndefined); simpl; try reflexivity;
      destruct (isNullish (n_defaultValue params)); reflexivity.
  - intros o path Ho. unfold cellValue. rewrite Ho.
    rewrite lodashGet_default. cbn [fieldDefault].
    destruct (lodashGet row path VUndefined); simpl; try reflexivity;
      destruct (isNullish (match default o with Some d => d | None => n_defaultValue params end));
      reflexivity.
  - unfold cellValue. simpl. destruct (isNullish (n_defaultValue params)); reflexivity.
  - intros v o Ho Hv. unfold cellValue. rewrite Ho.
    rewrite lodashGet_default.
    assert (Hg : lodashGet (VObj [("", v)]) "" VUndefined = v).
    { unfold lodashGet, castPath. simpl. destruct v; try reflexivity; discriminate. }
    rewrite Hg. destruct v; simpl in *; try reflexivity; discriminate.
Qed.

Lemma cell_value_resolution_witness :
  cellValue defaultNormalized [] (VObj [("a", VNull)]) (FieldString "a")
  = if isNullish (lodashGet (VObj [("a", VNull)]) "a" VUndefined)
    then n_defaultValue defaultNormalized
    else lodashGet (VObj [("a", VNull)]) "a" VUndefined.
Proof.
  apply (proj1 (cell_value_resolution defaultNormalized [] (VObj [("a", VNull)])) "a").
  discriminate.
Defined.

(** ** The entry point *)

(** X7. With an explicit field list, data that is a single object is
    converted as the array that holds only this object. *)
Theorem single_object_as_one_row (os_EOL : string) (ps : list (string * value))
    (params : Json2CsvParams) (fs : list field) :
  fields params = Some fs ->
  json2csv os_EOL (VObj ps) (Some params) = json2csv os_EOL (VArr [VObj ps]) (Some params).
Proof.
  intros Hf. unfold json2csv.
  assert (Hd : normalizeData (VObj ps) params = normalizeData (VArr [VObj ps]) params)
    by reflexivity.
  assert (Hp : normalizeParams params (VObj ps) = normalizeParams params (VArr [VObj ps])).
  { unfold normalizeParams, resolveFields. rewrite Hf. reflexivity. }
  now rewrite Hd, Hp.
Qed.

Lemma single_object_as_one_row_witness :
  json2csv (str1 linefeed) carRow (Some (withFields carFields))
  = json2csv (str1 linefeed) (VArr [carRow]) (Some (withFields carFields)).
Proof.
  apply (single_object_as_one_row (str1 linefeed) _ (withFields carFields) carFields).
  reflexivity.
Defined.

(** X8. With fields omitted and flatten off, data that is a single
    object, or null, leaves params.fields undefined and the conversion
    ends in a TypeError. *)
Theorem no_fields_for_single_object (os_EOL : string) (data : value)
    (params : Json2CsvParams) :
  fields params = None ->
  flatten params = false ->
  data = VNull \/ (exists ps, data = VObj ps) ->
  resolveFields params data = Ok None
  /\ json2csv os_EOL data (Some params) = Throw JsTypeError.
Proof.
  intros Hf Hfl Hd.
  assert (Hr : resolveFields params data = Ok None).
  { unfold resolveFields. rewrite Hf, Hfl. destruct Hd as [-> | [ps ->]]; reflexivity. }
  split; [exact Hr|].
  assert (Hn : exists rows, normalizeData data params = Ok rows).
  { unfold normalizeData. rewrite Hfl. destruct Hd as [-> | [ps ->]]; simpl; eauto. }
  destruct Hn as [rows Hn].
  unfold json2csv. rewrite Hn. cbn [bind]. unfold normalizeParams. rewrite Hr. cbn [bind].
  destruct (fieldNames params); reflexivity.
Qed.

Lemma no_fields_for_single_object_witness :
  json2csv (str1 linefeed) carRow (Some noParams) = Throw JsTypeError.
Proof.
  apply (no_fields_for_single_object (str1 linefeed) carRow noParams).
  - reflexivity.
  - reflexivity.
  - right. eexists. reflexivity.
Defined.

(** X9. With fields omitted, an array that is empty or whose first
    element is not of type object makes the conversion throw the error
    that asks for fields or a non-empty array of objects, whatever
    fieldNames is. *)
Theorem no_fields_to_infer (os_EOL : string) (xs rows : list value)
    (params : Json2CsvParams) :
  fields params = None ->
  normalizeData (VArr xs) params = Ok rows ->
  xs = [] \/ (exists x rest, xs = x :: rest /\ typeof x <> TObject) ->
  json2csv os_EOL (VArr xs) (Some params) = Throw (JsError msgFields).
Proof.
  intros Hf Hn Hx.
  assert (Hr : resolveFields params (VArr xs) = Throw (JsError msgFields)).
  { unfold resolveFields. rewrite Hf. destruct Hx as [-> | [x [rest [-> Ht]]]].
    - reflexivity.
    - destruct x; simpl in *; try reflexivity; congruence. }
  unfold json2csv. rewrite Hn. cbn [bind]. unfold normalizeParams. now rewrite Hr.
Qed.

Lemma no_fields_to_infer_witness :
  json2csv (str1 linefeed) (VArr []) (Some twoFieldNames) = Throw (JsError msgFields).
Proof.
  apply (no_fields_to_infer (str1 linefeed) [] [] twoFieldNames).
  - reflexivity.
  - reflexivity.
  - left. reflexivity.
Defined.

Lemma mapM_In {A B : Type} (f : A -> result B) (l : list A) :
  forall ys,
    mapM f l = Ok ys ->
    forall y, In y ys <-> exists x, In x l /\ f x = Ok y.
Proof.
  induction l as [|x l IH]; intros ys H y; simpl in H.
  - inversion H; subst. simpl. split; [intros [] | intros [x [[] _]]].
  - destruct (f x) as [b|] eqn:Ex; simpl in H; [|discriminate].
    destruct (mapM f l) as [bs|] eqn:El; simpl in H; [|discriminate].
    inversion H; subst. simpl. rewrite (IH bs eq_refl y). split.
    + intros [<- | [x' [Hin Hx']]]; [exists x; auto | exists x'; auto].
    + intros [x' [[<- | Hin] Hx']]; [left; congruence | right; exists x'; auto].
Qed.

Lemma lodashUniq_fold_NoDup (l : list string) :
  forall seen,
    NoDup seen ->
    NoDup (fold_left (fun seen k => if existsb (String.eqb k) seen then seen
                                    else (seen ++ [k])%list) l seen).
Proof.
  induction l as [|k l IH]; intros seen H; [exact H|].
  cbn [fold_left]. apply IH.
  destruct (existsb (String.eqb k) seen) eqn:E; [exact H|].
  apply NoDup_app; [exact H | constructor; [intros [] | constructor] |].
  intros a Ha [Ea | []]. subst a.
  assert (Ht : existsb (String.eqb k) seen = true).
  { apply existsb_exists. exists k. split; [exact Ha | apply String.eqb_refl]. }
  congruence.
Qed.

Lemma lodashUniq_NoDup (l : list string) : NoDup (lodashUniq l).
Proof.
  apply lodashUniq_fold_NoDup. constructor.
Qed.

(** X10. The field list inferred from an array of rows: path fields
    without a repeated key, and a key is among them exactly when it is
    a key of one of the rows. *)
Theorem inferred_fields_are_the_keys (params : Json2CsvParams) (rows : list value)
    (fs : list field) :
  fields params = None ->
  resolveFields params (VArr rows) = Ok (Some fs) ->
  exists keys,
    fs = map FieldString keys
    /\ NoDup keys
    /\ forall k, In k keys <-> exists row ks, In row rows /\ Object_keys row = Ok ks /\ In k ks.
Proof.
  intros Hf H. unfold resolveFields in H. rewrite Hf in H.
  apply bind_Ok in H. destruct H as [u [_ H]].
  apply bind_Ok in H. destruct H as [dataFields [Hm H]].
  inversion H; subst; clear H.
  exists (lodashUniq (lodashFlattenKeys dataFields)).
  split; [reflexivity|]. split; [apply lodashUniq_NoDup|].
  intros k. rewrite lodashUniq_In. unfold lodashFlattenKeys. rewrite in_concat. split.
  - intros [ks [Hks Hk]].
    apply (mapM_In Object_keys rows dataFields Hm) in Hks.
    destruct Hks as [row [Hrow Hkeys]]. exists row, ks. auto.
  - intros [row [ks [Hrow [Hkeys Hk]]]]. exists ks. split; [|exact Hk].
    apply (mapM_In Object_keys rows dataFields Hm). exists row. auto.
Qed.

Lemma inferred_fields_are_the_keys_witness :
  exists keys,
    map FieldString ["carModel"; "price"; "color"] = map FieldString keys
    /\ NoDup keys
    /\ forall k, In k keys
                 <-> exists row ks, In row [carRow; carRow]
                                    /\ Object_keys row = Ok ks /\ In k ks.
Proof.
  apply (inferred_fields_are_the_keys noParams [carRow; carRow]); reflexivity.
Defined.

Lemma fieldNames_all_strings (params : Json2CsvParams) (paths : list string) :
  (forall names, fieldNames params = Some names -> List.length names = List.length paths) ->
  exists names, mapi (fieldName (fieldNames params)) 0 (map FieldString paths) = map Some names.
Proof.
  intros H. destruct (fieldNames params) as [names|] eqn:E.
  - exists names. apply (mapi_fieldName_names paths names []). now apply H.
  - exists paths. apply mapi_fieldName_paths.
Qed.

Lemma Forall_map_Some (names : list string) :
  Forall (fun name : option string => name <> None) (map Some names).
Proof.
  induction names; constructor; [discriminate | assumption].
Qed.

(** X11. With fields given as path strings that each name one property
    (not empty, no dot, no bracket) and no member of Object.prototype,
    fieldNames omitted or of the length of fields, flatten off and no
    unwind path, the conversion of data whose rows are plain objects or
    null (an array of them, a single object, or null) returns a
    document: it does not throw. *)
Theorem conversion_succeeds (os_EOL : string) (data : value) (params : Json2CsvParams)
    (paths : list string) :
  plainData data = true ->
  forallb ownKeyPath paths = true ->
  flatten params = false ->
  unwindPath params = None ->
  fields params = Some (map FieldString paths) ->
  (forall names, fieldNames params = Some names -> List.length names = List.length paths) ->
  exists doc, json2csv os_EOL data (Some params) = Ok doc.
Proof.
  intros Hdata _ Hfl _ Hf Hn.
  assert (Ht : typeof data = TObject).
  { destruct data; try discriminate; reflexivity. }
  assert (Hd : exists rows, normalizeData data params = Ok rows).
  { unfold normalizeData. rewrite Ht, Hfl. simpl. eauto. }
  destruct Hd as [rows Hd].
  destruct (normalizeParams_with_fields params data _ Hf) as [np [Hp [_ [Hnames _]]]].
  { intros names H. rewrite length_map. now apply Hn. }
  destruct (fieldNames_all_strings params paths Hn) as [names Hs].
  assert (Htitles : exists titles, createColumnTitles np = Ok titles).
  { unfold createColumnTitles. destruct (n_hasCSVColumnTitle np); [|eauto].
    apply titles_total. rewrite Hnames, Hs. apply Forall_map_Some. }
  destruct Htitles as [titles Htitles].
  destruct (createColumnContent_total os_EOL rows titles np) as [doc Hdoc].
  exists doc. unfold json2csv. rewrite Hd. cbn [bind]. rewrite Hp. cbn [bind].
  rewrite Htitles. cbn [bind]. exact Hdoc.
Qed.

Lemma conversion_succeeds_witness :
  exists doc, json2csv (str1 linefeed) (VArr [carRow; VNull; VObj []])
                (Some (withFields carFields)) = Ok doc.
Proof.
  apply (conversion_succeeds (str1 linefeed) (VArr [carRow; VNull; VObj []])
           (withFields carFields) ["carModel"; "price"; "color"]).
  - reflexivity.
  - reflexivity.
  - reflexivity.
  - reflexivity.
  - reflexivity.
  - simpl. discriminate.
Defined.

Lemma finishLine_empty (params : Normalized) : finishLine params "" = "".
Proof. reflexivity. Qed.

Lemma contentStep_empty_fields (os_EOL : string) (params : Normalized) (data rows : list value) :
  n_fields params = [] -> n_eol params = "" ->
  foldM (contentStep os_EOL params data) rows "" = Ok "".
Proof.
  intros Hf He. induction rows as [|row rows IH]; [reflexivity|].
  cbn [foldM]. unfold contentStep at 1.
  destruct (isRendered params row); [|exact IH].
  unfold createLine. rewrite Hf. cbn [foldM bind]. rewrite finishLine_empty.
  unfold appendLine. rewrite He. exact IH.
Qed.

(** X12. With an empty field list and no eol marker the document is
    empty, whatever the rows are: every line is empty and an empty line
    after an empty output is not told apart from no line. *)
Theorem empty_field_list_empty_document (os_EOL : string) (data : value)
    (params : Json2CsvParams) :
  typeof data = TObject ->
  flatten params = false ->
  fields params = Some [] ->
  fieldNames params = None ->
  orElse (eol params) "" = "" ->
  json2csv os_EOL data (Some params) = Ok "".
Proof.
  intros Ht Hfl Hf Hn He.
  assert (Hd : exists rows, normalizeData data params = Ok rows).
  { unfold normalizeData. rewrite Ht, Hfl. simpl. eauto. }
  destruct Hd as [rows Hd].
  destruct (normalizeParams_with_fields params data [] Hf) as [np [Hp [Hfs [Hnames [Heol _]]]]].
  { intros names H. congruence. }
  unfold json2csv. rewrite Hd. cbn [bind]. rewrite Hp. cbn [bind].
  assert (Htitles : createColumnTitles np = Ok "").
  { unfold createColumnTitles. rewrite Hnames. destruct (n_hasCSVColumnTitle np); reflexivity. }
  rewrite Htitles. cbn [bind]. unfold createColumnContent.
  apply contentStep_empty_fields; [exact Hfs | now rewrite Heol].
Qed.

Lemma empty_field_list_empty_document_witness :
  json2csv (str1 linefeed) (VArr [carRow; carRow]) (Some (withFields [])) = Ok "".
Proof.
  apply (empty_field_list_empty_document (str1 linefeed) (VArr [carRow; carRow])
           (withFields [])); reflexivity.
Defined.

Lemma mapM_flat_null (rows : list value) :
  In VNull rows \/ In VUndefined rows -> mapM flat rows = Throw JsTypeError.
Proof.
  induction rows as [|r rows IH]; intros H; [destruct H as [[]|[]]|].
  cbn [mapM]. destruct (flat r) as [r'|e] eqn:E.
  - cbn [bind]. rewrite IH; [reflexivity|].
    destruct H as [[-> | H] | [-> | H]]; auto; discriminate.
  - apply flat_Throw in E. now subst e.
Qed.

(** X13. With flatten on, a row that is null or undefined makes the
    conversion end in a TypeError, although such a row is passed over
    when flatten is off. *)
Theorem flatten_null_row_throws (os_EOL : string) (rows : list value)
    (params : Json2CsvParams) :
  flatten params = true ->
  In VNull rows \/ In VUndefined rows ->
  json2csv os_EOL (VArr rows) (Some params) = Throw JsTypeError.
Proof.
  intros Hfl Hin. unfold json2csv, normalizeData. simpl. rewrite Hfl.
  now rewrite (mapM_flat_null rows Hin).
Qed.

Lemma flatten_null_row_throws_witness :
  json2csv (str1 linefeed) (VArr [VNull]) (Some onlyFlatten) = Throw JsTypeError.
Proof.
  apply (flatten_null_row_throws (str1 linefeed) [VNull] onlyFlatten); [reflexivity|].
  left. simpl. auto.
Defined.

(** ** The number of rows after the unwind *)

Lemma length_concat_map {A B : Type} (f : A -> list B) (l : list A) :
  List.length (concat (map f l)) = list_sum (map (fun x => List.length (f x)) l).
Proof.
  induction l as [|x l IH]; [reflexivity|].
  cbn [map concat]. rewrite length_app, IH. reflexivity.
Qed.

Lemma specUnwindRow_length (unwindPath : string) (row : value) :
  List.length (specUnwindRow unwindPath row)
  = match lodashGet row unwindPath VUndefined with
    | VArr els => Nat.max 1 (List.length els)
    | _ => 1
    end.
Proof.
  unfold specUnwindRow.
  destruct (lodashGet row unwindPath VUndefined) as [| |b|n|s|[|x xs]|ps]; try reflexivity.
  cbn [List.length]. rewrite length_map. reflexivity.
Qed.

(** X14. The unwind never drops a row: a row whose path holds an array
    gives as many rows as the array has elements, and one row when the
    array is empty; any other row gives one row.  The result is at
    least as long as the input. *)
Theorem unwind_row_count (params : Normalized) (data : list value) (unwindPath : string) :
  n_unwindPath params = Some unwindPath ->
  unwindPath <> "" ->
  List.length (createDataRows data params)
  = list_sum (map (fun row => match lodashGet row unwindPath VUndefined with
                              | VArr els => Nat.max 1 (List.length els)
                              | _ => 1
                              end) data)
  /\ List.length data <= List.length (createDataRows data params).
Proof.
  intros Hp Hne.
  assert (Hlen : List.length (createDataRows data params)
                 = list_sum (map (fun row => match lodashGet row unwindPath VUndefined with
                                             | VArr els => Nat.max 1 (List.length els)
                                             | _ => 1
                                             end) data)).
  { unfold createDataRows. rewrite Hp. apply String.eqb_neq in Hne. rewrite Hne.
    rewrite fold_unwindStep. cbn [app]. rewrite length_concat_map.
    f_equal. apply map_ext. intros row. apply specUnwindRow_length. }
  split; [exact Hlen|]. rewrite Hlen. clear Hlen.
  induction data as [|row data IH]; [simpl; lia|].
  cbn [map list_sum List.length].
  assert (H1 : 1 <= match lodashGet row unwindPath VUndefined with
                    | VArr els => Nat.max 1 (List.length els)
                    | _ => 1
                    end)
    by (destruct (lodashGet row unwindPath VUndefined); lia).
  unfold list_sum in *. cbn [fold_right]. lia.
Qed.

Lemma unwind_row_count_witness :
  List.length [colorsRow; VObj [("id", VNum 2)]]
  <= List.length (createDataRows [colorsRow; VObj [("id", VNum 2)]] unwindColors).
Proof.
  apply (proj2 (unwind_row_count unwindColors [colorsRow; VObj [("id", VNum 2)]] "colors"
                  eq_refl ltac:(discriminate))).
Defined.

(** ** A string that ends with a backslash *)






(** ** No control character in a line *)

Lemma printable_app (s t : string) : printable (s ++ t) = printable s && printable t.
Proof.
  induction s as [|a s IH]; [reflexivity|].
  cbn [append printable]. now rewrite IH, andb_assoc.
Qed.

Lemma printable_count (c : ascii) (s : string) :
  (nat_of_ascii c <? 32)%nat = true -> printable s = true -> JsString.count c s = 0.
Proof.
  intros Hc. induction s as [|a s IH]; intros H; [reflexivity|].
  cbn [printable] in H. apply andb_prop in H. destruct H as [Ha Hs].
  rewrite count_cons, (IH Hs).
  destruct (Ascii.eqb a c) eqn:E; [|reflexivity].
  apply Ascii.eqb_eq in E. subst a.
  apply Nat.leb_le in Ha. apply Nat.ltb_lt in Hc. lia.
Qed.

Lemma hexDigit_printable (k : nat) : (32 <=? nat_of_ascii (hexDigit k))%nat = true.
Proof.
  unfold hexDigit. do 17 (destruct k as [|k]; [reflexivity|]). destruct k; reflexivity.
Qed.

Lemma escapeChar_printable (a : ascii) : printable (escapeChar a) = true.
Proof.
  unfold escapeChar.
  destruct (Ascii.eqb a dquote); [reflexivity|].
  destruct (Ascii.eqb a bslash); [reflexivity|].
  repeat match goal with
         | |- context [(nat_of_ascii a =? ?k)%nat] =>
             destruct (nat_of_ascii a =? k)%nat; [reflexivity|]
         end.
  destruct (Nat.ltb_spec (nat_of_ascii a) 32) as [Hlt|Hge].
  - cbn [printable append str1]. rewrite !hexDigit_printable. reflexivity.
  - cbn [printable str1]. apply Nat.leb_le in Hge. now rewrite Hge.
Qed.

Lemma escapeString_printable (s : string) : printable (escapeString s) = true.
Proof.
  induction s as [|a s IH]; [reflexivity|].
  cbn [escapeString]. now rewrite printable_app, escapeChar_printable, IH.
Qed.

Lemma JSON_quote_printable (s : string) : printable (JSON_quote s) = true.
Proof.
  unfold JSON_quote. cbn [printable]. now rewrite printable_app, escapeString_printable.
Qed.

Lemma numberToString_printable (n : Z) : printable (numberToString n) = true.
Proof.
  unfold numberToString.
  assert (Hu : forall d, printable (NilEmpty.string_of_uint d) = true)
    by (induction d; simpl; auto).
  destruct (Z.to_int n); simpl; auto.
Qed.

Lemma join_printable (sep : string) (l : list string) :
  printable sep = true -> Forall (fun x => printable x = true) l ->
  printable (JsString.join sep l) = true.
Proof.
  intros Hs. induction 1 as [|x l Hx Hl IH]; [reflexivity|].
  destruct l as [|y l]; [exact Hx|].
  change (JsString.join sep (x :: y :: l)) with (x ++ sep ++ JsString.join sep (y :: l)).
  now rewrite !printable_app, Hx, Hs, IH.
Qed.

Lemma JSON_stringify_printable (v : value) :
  forall s, JSON_stringify v = Some s -> printable s = true.
Proof.
  induction v as [| |b|n|t|xs IHxs|ps IHps] using value_ind; intros s H; simpl in H;
    try discriminate; try (inversion H; subst; reflexivity).
  - destruct b; inversion H; reflexivity.
  - inversion H. apply numberToString_printable.
  - inversion H. apply JSON_quote_printable.
  - inversion H; subst; clear H. cbn [append printable].
    rewrite printable_app, andb_true_r. simpl.
    apply join_printable; [reflexivity|].
    induction IHxs as [|x xs Hx _ IH]; constructor; [|exact IH].
    destruct (JSON_stringify x) as [sx|]; [now apply Hx | reflexivity].
  - inversion H; subst; clear H. cbn [append printable].
    rewrite printable_app, andb_true_r. simpl.
    apply join_printable; [reflexivity|].
    induction IHps as [|[k x] ps Hx _ IH]; [constructor|].
    cbn [flat_map]. simpl in Hx. cbn [fst snd].
    destruct (JSON_stringify x) as [sx|]; [|exact IH].
    constructor; [|exact IH]. cbn [printable].
    rewrite !printable_app, escapeString_printable. cbn [printable str1].
    rewrite (Hx sx eq_refl). reflexivity.
Qed.

Lemma replaceGo_printable (pat rep : string) :
  printable rep = true ->
  forall s skip, printable s = true -> printable (JsString.replaceGo pat rep skip s) = true.
Proof.
  intros Hr. induction s as [|a s IH]; intros skip H; [reflexivity|].
  cbn [printable] in H. apply andb_prop in H. destruct H as [Ha Hs].
  destruct skip as [|k].
  - rewrite replaceGo_here. destruct (String.prefix pat (String a s)).
    + rewrite printable_app, Hr. now apply IH.
    + cbn [printable]. rewrite Ha. now apply IH.
  - rewrite replaceGo_skip. now apply IH.
Qed.

Lemma replaceAll_printable (pat rep s : string) :
  printable rep = true -> printable s = true ->
  printable (JsString.replaceAll pat rep s) = true.
Proof.
  intros Hr Hs. now apply replaceGo_printable.
Qed.

Lemma dropChars_printable (s : string) :
  forall n, printable s = true -> printable (JsString.dropChars n s) = true.
Proof.
  induction s as [|a s IH]; intros [|n] H; try reflexivity; try exact H.
  cbn [printable] in H. apply andb_prop in H. destruct H as [_ Hs].
  cbn [JsString.dropChars]. now apply IH.
Qed.

(** The text that a replacement string stands for is made of the
    replacement, the match and the text around it. *)
Lemma substitution_printable (matched before after : string) :
  printable matched = true -> printable before = true -> printable after = true ->
  forall rep, printable rep = true ->
              printable (JsString.substitution rep matched before after) = true.
Proof.
  intros Hm Hb Ha rep.
  remember (String.length rep) as n eqn:Hn.
  assert (Hle : String.length rep <= n) by lia. clear Hn.
  revert rep Hle. induction n as [|n IH]; intros [|a rep] Hle H; try reflexivity.
  - cbn [String.length] in Hle. lia.
  - cbn [String.length] in Hle.
    cbn [printable] in H. apply andb_prop in H. destruct H as [Hc Hrep].
    assert (IHrep : printable (JsString.substitution rep matched before after) = true)
      by (apply IH; [lia | exact Hrep]).
    cbn [JsString.substitution].
    destruct (Ascii.eqb a "$"); [|cbn [printable]; now rewrite Hc].
    destruct rep as [|b rep']; [cbn [printable]; now rewrite Hc|].
    cbn [printable] in Hrep. apply andb_prop in Hrep. destruct Hrep as [Hb' Hrep'].
    cbn [String.length] in Hle.
    assert (IHrep' : printable (JsString.substitution rep' matched before after) = true)
      by (apply IH; [lia | exact Hrep']).
    destruct (Ascii.eqb b "$"); [cbn [printable]; now rewrite Hb'|].
    destruct (Ascii.eqb b "&"); [now rewrite printable_app, Hm|].
    destruct (Ascii.eqb b "`"); [now rewrite printable_app, Hb|].
    destruct (Ascii.eqb b "'"); [now rewrite printable_app, Ha|].
    cbn [printable]. now rewrite Hc.
Qed.

Lemma replaceFrom_printable (pat rep : string) :
  printable pat = true -> printable rep = true ->
  forall s before skip,
    printable before = true -> printable s = true ->
    printable (JsString.replaceFrom pat rep before skip s) = true.
Proof.
  intros Hp Hr. induction s as [|a s IH]; intros before skip Hb H; [reflexivity|].
  pose proof H as Has.
  cbn [printable] in H. apply andb_prop in H. destruct H as [Ha Hs].
  assert (Hb' : printable (before ++ str1 a) = true).
  { rewrite printable_app, Hb. cbn [str1 printable]. now rewrite Ha. }
  cbn [JsString.replaceFrom]. destruct skip as [|k]; [|now apply IH].
  destruct (String.prefix pat (String a s)).
  - rewrite printable_app, (IH _ _ Hb' Hs), andb_true_r.
    apply substitution_printable; auto. now apply dropChars_printable.
  - cbn [printable]. rewrite Ha. now apply IH.
Qed.

Lemma replace_printable (pat rep s : string) :
  printable pat = true -> printable rep = true -> printable s = true ->
  printable (JsString.replace pat rep s) = true.
Proof.
  intros Hp Hr Hs. now apply replaceFrom_printable.
Qed.

Lemma splitGo_printable (sep : string) :
  forall s skip p ps,
    printable s = true ->
    JsString.splitGo sep skip s = (p, ps) ->
    printable p = true /\ Forall (fun x => printable x = true) ps.
Proof.
  induction s as [|a s IH]; intros skip p ps H E.
  - simpl in E. inversion E. auto.
  - cbn [printable] in H. apply andb_prop in H. destruct H as [Ha Hs].
    destruct skip as [|k].
    + rewrite splitGo_here in E. destruct (String.prefix sep (String a s)).
      * destruct (JsString.splitGo sep (String.length sep - 1) s) as [q qs] eqn:Eq.
        inversion E; subst. destruct (IH _ _ _ Hs Eq). auto.
      * destruct (JsString.splitGo sep 0 s) as [q qs] eqn:Eq.
        inversion E; subst. destruct (IH _ _ _ Hs Eq) as [Hq Hqs].
        split; [|exact Hqs]. cbn [printable]. now rewrite Ha.
    + rewrite splitGo_skip in E. eapply IH; eauto.
Qed.

Lemma split_printable (sep s : string) :
  printable s = true -> Forall (fun x => printable x = true) (JsString.split sep s).
Proof.
  intros H. unfold JsString.split.
  destruct (JsString.splitGo sep 0 s) as [p ps] eqn:E.
  destruct (splitGo_printable sep s 0 p ps H E). auto.
Qed.

Lemma substring_printable (s : string) :
  forall n m, printable s = true -> printable (substring n m s) = true.
Proof.
  induction s as [|a s IH]; intros n m H.
  - destruct n, m; reflexivity.
  - cbn [printable] in H. apply andb_prop in H. destruct H as [Ha Hs].
    destruct n as [|n]; [destruct m as [|m]|]; cbn [substring printable].
    + reflexivity.
    + rewrite Ha. now apply IH.
    + now apply IH.
Qed.

Lemma chars_printable (s : string) :
  printable s = true -> Forall (fun x => printable x = true) (JsString.chars s).
Proof.
  induction s as [|a s IH]; intros H; [constructor|].
  cbn [printable] in H. apply andb_prop in H. destruct H as [Ha Hs].
  constructor; [cbn [str1 printable]; now rewrite Ha | auto].
Qed.

Lemma setAt_printable (l : list string) :
  forall i x,
    printable x = true -> Forall (fun y => printable y = true) l ->
    Forall (fun y => printable y = true) (setAt l i x).
Proof.
  induction l as [|y l IH]; intros i x Hx H; [constructor|].
  inversion H; subst. destruct i; simpl; constructor; auto.
Qed.

Lemma replaceQuotationMarks_printable (s quotes : string) :
  printable quotes = true -> printable s = true ->
  printable (replaceQuotationMarks s quotes) = true.
Proof.
  intros Hq Hs. unfold replaceQuotationMarks.
  destruct (isQuoteAt s 0 && isQuoteAt s (String.length s - 1)); [|exact Hs].
  apply join_printable; [reflexivity|].
  apply setAt_printable; [exact Hq|]. apply setAt_printable; [exact Hq|].
  now apply chars_printable.
Qed.

Lemma cellText_printable (params : Normalized) (v : value) (t : string) :
  printable (n_quotes params) = true ->
  cellText params v = Ok t -> printable t = true.
Proof.
  intros Hq. rewrite cellText_eq.
  destruct (JSON_stringify v) as [s|] eqn:Es; [|discriminate].
  apply JSON_stringify_printable in Es.
  set (s1 := if jstype_eqb (typeof v) TObject then JSON_quote s else s).
  assert (H1 : printable s1 = true)
    by (unfold s1; destruct (jstype_eqb (typeof v) TObject);
        [apply JSON_quote_printable | exact Es]).
  set (s2 := if n_quotes params =? str1 dquote then s1
             else replaceQuotationMarks s1 (n_quotes params)).
  assert (H2 : printable s2 = true)
    by (unfold s2; destruct (n_quotes params =? str1 dquote);
        [exact H1 | now apply replaceQuotationMarks_printable]).
  assert (H3 : printable (JsString.replaceAll twoBackslashes (str1 bslash) s2) = true)
    by (apply replaceAll_printable; [reflexivity | exact H2]).
  intros H. inversion H; subst; clear H.
  destruct (n_excelStrings params && jstype_eqb (typeof v) TString); [|exact H3].
  cbn [append printable]. unfold s2 in H3. rewrite printable_app, H3. reflexivity.
Qed.

Lemma foldM_appendCell_printable (params : Normalized) (data : list value) (row : value)
    (fs : list field) :
  printable (n_quotes params) = true -> printable (n_del params) = true ->
  forall line line',
    printable line = true ->
    foldM (appendCell params data row) fs line = Ok line' -> printable line' = true.
Proof.
  intros Hq Hd. induction fs as [|f fs IH]; intros line line' Hl H; cbn [foldM] in H.
  - inversion H; subst. exact Hl.
  - rewrite appendCell_fieldText in H.
    destruct (fieldText params data row f) as [t|] eqn:Et; cbn [bind] in H; [|discriminate].
    apply (IH _ _) in H; [exact H|].
    rewrite !printable_app, Hl, Hd, andb_true_r. cbn [andb].
    unfold fieldText in Et.
    destruct (cellValue params data row f);
      [inversion Et; reflexivity | ..];
      exact (cellText_printable params _ t Hq Et).
Qed.

Lemma Forall_map_printable (f : string -> string) (l : list string) :
  (forall x, printable x = true -> printable (f x) = true) ->
  Forall (fun x => printable x = true) l ->
  Forall (fun x => printable x = true) (map f l).
Proof.
  intros Hf. induction 1; constructor; auto.
Qed.

Lemma finishLine_printable (params : Normalized) (line : string) :
  printable (n_doubleQuotes params) = true -> printable line = true ->
  printable (finishLine params line) = true.
Proof.
  intros Hd Hl. unfold finishLine.
  apply replace_printable; [reflexivity | reflexivity |].
  apply join_printable; [reflexivity|].
  apply Forall_map_printable.
  - intros x Hx. now apply replace_printable.
  - apply split_printable. now apply substring_printable.
Qed.

(** X16. No control character of a value reaches a data line:
    JSON.stringify escapes them and no later step brings one back.  When
    the delimiter, the quote setting and doubleQuotes hold no control
    character, a data line holds none, so neither a line feed nor a
    carriage return. *)
Theorem line_without_control_characters (params : Normalized) (data : list value)
    (row : value) (line : string) :
  printable (n_del params) = true ->
  printable (n_quotes params) = true ->
  printable (n_doubleQuotes params) = true ->
  createLine params data row = Ok line ->
  printable line = true
  /\ forall c, (nat_of_ascii c <? 32)%nat = true -> JsString.count c line = 0.
Proof.
  intros Hd Hq Hdq Hline.
  assert (Hp : printable line = true).
  { unfold createLine in Hline. apply bind_Ok in Hline.
    destruct Hline as [raw [Hraw Hfin]]. inversion Hfin; subst.
    apply finishLine_printable; [exact Hdq|].
    apply (foldM_appendCell_printable params data row (n_fields params) Hq Hd "" raw);
      [reflexivity | exact Hraw]. }
  split; [exact Hp|]. intros c Hc. now apply printable_count.
Qed.

Lemma line_without_control_characters_witness :
  printable (String dquote (String "a" (String bslash (String "n" (String "b" (str1 dquote))))))
  = true
  /\ forall c, (nat_of_ascii c <? 32)%nat = true ->
              JsString.count c
                (String dquote (String "a" (String bslash (String "n" (String "b" (str1 dquote))))))
              = 0.
Proof.
  apply (line_without_control_characters normalizedA []
           (VObj [("a", VStr (String "a" (String linefeed "b")))])); reflexivity.
Defined.

(** ** A computed field without a label *)

Lemma titles_throw (params : Normalized) (names : list (option string)) :
  In None names ->
  forall str, foldM (titleStep params) names str = Throw JsTypeError.
Proof.
  induction names as [|name names IH]; intros Hin str; [destruct Hin|].
  destruct name as [name|].
  - destruct Hin as [H|H]; [discriminate|].
    cbn [foldM]. unfold titleStep at 1. cbn [titleCell bind]. now apply IH.
  - reflexivity.
Qed.

Lemma mapi_fieldName_None (names : option (list string)) (o : fieldObject) (fs : list field) :
  In (FieldObject o) fs -> labelOrValue o = None ->
  forall i, In None (mapi (fieldName names) i fs).
Proof.
  intros Hin Hl. induction fs as [|f fs IH]; intros i; [destruct Hin|].
  destruct Hin as [->|Hin]; cbn [mapi].
  - left. exact Hl.
  - right. now apply IH.
Qed.

(** X17. A field whose value is a function and that has no label (or
    an empty one) has the function for its name, which has no JSON
    text: with the title row on, the conversion ends in a TypeError,
    whatever the data rows are. *)
Theorem computed_field_needs_label (os_EOL : string) (data : value) (params : Json2CsvParams)
    (fs : list field) (o : fieldObject)
    (fn : value -> fieldMeta -> list value -> value) (rows : list value) :
  fields params = Some fs ->
  In (FieldObject o) fs ->
  fvalue o = FunctionValue fn ->
  label o = None \/ label o = Some "" ->
  (forall names, fieldNames params = Some names -> List.length names = List.length fs) ->
  normalizeData data params = Ok rows ->
  hasCSVColumnTitle params <> Some false ->
  json2csv os_EOL data (Some params) = Throw JsTypeError.
Proof.
  intros Hf Hin Hv Hl Hn Hd Hon.
  destruct (normalizeParams_with_fields params data fs Hf Hn)
    as [np [Hp [_ [Hnames [_ Htitle]]]]].
  assert (Hnone : labelOrValue o = None).
  { unfold labelOrValue. rewrite Hv. destruct Hl as [-> | ->]; reflexivity. }
  unfold json2csv. rewrite Hd. cbn [bind]. rewrite Hp. cbn [bind].
  unfold createColumnTitles. rewrite Htitle.
  assert (Ht : match hasCSVColumnTitle params with Some false => false | _ => true end = true).
  { destruct (hasCSVColumnTitle params) as [[|]|]; congruence. }
  rewrite Ht, Hnames.
  now rewrite (titles_throw np _ (mapi_fieldName_None _ o fs Hin Hnone 0)).
Qed.

Lemma computed_field_needs_label_witness :
  json2csv (str1 linefeed) (VArr [carRow])
    (Some (withFields [FieldString "price"; computedField (fun row _ _ => getProp row "color")]))
  = Throw JsTypeError.
Proof.
  apply (computed_field_needs_label (str1 linefeed) (VArr [carRow])
           (withFields [FieldString "price";
                        computedField (fun row _ _ => getProp row "color")])
           [FieldString "price"; computedField (fun row _ _ => getProp row "color")]
           {| label := None; fvalue := FunctionValue (fun row _ _ => getProp row "color");
              default := None |}
           (fun row _ _ => getProp row "color") [carRow]
           eq_refl (or_intror (or_introl eq_refl)) eq_refl (or_introl eq_refl)
           ltac:(discriminate) eq_refl).
  discriminate.
Defined.

(** ** The params object after a call *)

Lemma orElse_again (s : option string) (d : string) :
  d <> "" -> orElse (Some (orElse s d)) d = orElse s d.
Proof.
  intros Hd. unfold orElse. destruct s as [x|].
  - destruct (x =? "") eqn:E; [|now rewrite E].
    apply String.eqb_neq in Hd. now rewrite Hd.
  - apply String.eqb_neq in Hd. now rewrite Hd.
Qed.

Lemma orElse_empty (x : string) : orElse (Some x) "" = x.
Proof.
  unfold orElse. destruct (x =? "") eqn:E; [|reflexivity].
  apply String.eqb_eq in E. now subst.
Qed.

Lemma nth_error_skipn_head {A : Type} (l : list A) :
  forall i x rest, skipn i l = x :: rest -> nth_error l i = Some x /\ skipn (S i) l = rest.
Proof.
  induction l as [|y l IH]; intros [|i] x rest H; simpl in *; try discriminate.
  - inversion H; auto.
  - apply IH in H. exact H.
Qed.

Lemma mapi_fieldName_again (given : option (list string)) (names : list string)
    (fs : list field) :
  forall i,
    mapi (fieldName given) i fs = map Some (skipn i names) ->
    mapi (fieldName (Some names)) i fs = map Some (skipn i names).
Proof.
  induction fs as [|f fs IH]; intros i H; cbn [mapi] in *.
  - exact H.
  - destruct (skipn i names) as [|n rest] eqn:E; [discriminate|].
    cbn [map] in *. injection H as Hhead Htail.
    destruct (nth_error_skipn_head names i n rest E) as [Hnth Hrest].
    rewrite <- Hrest in Htail. rewrite (IH (S i) Htail), Hrest. f_equal.
    destruct f as [path|o]; cbn [fieldName] in *; [exact Hnth | exact Hhead].
Qed.

(** X18. normalizeParams writes its results into the params object of
    the caller.  A params object that a call has filled in this way
    normalizes to the same settings for any later data: the field list,
    also one that was inferred from the data of the first call, and the
    names stay as they are, and the later data is converted with them. *)
Theorem params_object_reused (os_EOL : string) (params : Json2CsvParams) (data : value)
    (np : Normalized) (names : list string) :
  normalizeParams params data = Ok np ->
  n_fieldNames np = map Some names ->
  forall data',
    normalizeParams (assignedParams params np names) data' = Ok np
    /\ json2csv os_EOL data' (Some (assignedParams params np names))
       = (rows <- normalizeData data' params ;;
          titles <- createColumnTitles np ;;
          createColumnContent os_EOL rows titles np).
Proof.
  intros Hp Hnames data'.
  assert (Hagain : normalizeParams (assignedParams params np names) data' = Ok np).
  { pose proof (normalizeParams_names params data np Hp) as Hlen.
    rewrite Hnames, length_map in Hlen.
    unfold normalizeParams in Hp.
    apply bind_Ok in Hp. destruct Hp as [resolved [_ Hp]].
    apply bind_Ok in Hp. destruct Hp as [u [_ Hp]].
    destruct resolved as [fs|]; [|discriminate].
    injection Hp as Hnp. subst np. cbn [n_fields n_fieldNames] in *.
    unfold normalizeParams, resolveFields, assignedParams.
    cbn -[orElse mapi fieldName Nat.eqb JsString.Array_join].
    rewrite Hlen, Nat.eqb_refl. cbn [negb bind].
    rewrite (mapi_fieldName_again (fieldNames params) names fs 0 Hnames).
    cbn [skipn]. rewrite Hnames, orElse_again by discriminate. rewrite orElse_empty.
    now destruct (hasCSVColumnTitle params) as [[|]|]. }
  split; [exact Hagain|].
  unfold json2csv. rewrite Hagain.
  change (normalizeData data' (assignedParams params np names))
    with (normalizeData data' params).
  destruct (normalizeData data' params); reflexivity.
Qed.

Lemma params_object_reused_witness :
  json2csv (str1 linefeed) (VArr [VObj [("b", VNum 2)]])
    (Some (assignedParams noParams normalizedA ["a"]))
  = Ok (String dquote (String "a" (String dquote (str1 linefeed)))).
Proof.
  destruct (params_object_reused (str1 linefeed) noParams (VArr [VObj [("a", VNum 1)]])
              normalizedA ["a"] eq_refl eq_refl (VArr [VObj [("b", VNum 2)]])) as [_ H].
  rewrite H. reflexivity.
Defined.

(** ** Distinct strings, distinct cells *)

Lemma append_inv_tail (r : string) :
  forall s t, s ++ r = t ++ r -> s = t.
Proof.
  induction s as [|a s IH]; intros [|b t] H; cbn [append] in H.
  - reflexivity.
  - apply (f_equal String.length) in H. cbn [String.length] in H.
    rewrite length_append in H. lia.
  - apply (f_equal String.length) in H. cbn [String.length] in H.
    rewrite length_append in H. lia.
  - injection H as -> H. f_equal. now apply IH.
Qed.

Lemma append_inv_head (p : string) :
  forall s t, p ++ s = p ++ t -> s = t.
Proof.
  induction p as [|a p IH]; intros s t H; cbn [append] in H; [exact H|].
  injection H as H. now apply IH.
Qed.

Lemma doubled_quotes_injective :
  forall s t,
    JsString.replaceAll (str1 dquote) (String dquote (str1 dquote)) s
    = JsString.replaceAll (str1 dquote) (String dquote (str1 dquote)) t ->
    s = t.
Proof.
  induction s as [|a s IH]; intros [|b t] H.
  - reflexivity.
  - destruct (Ascii.eqb b dquote) eqn:Eb.
    + apply Ascii.eqb_eq in Eb. subst b. rewrite replaceAll_quote_cons_quote in H.
      discriminate.
    + rewrite (replaceAll_quote_cons_other _ b t Eb) in H. discriminate.
  - destruct (Ascii.eqb a dquote) eqn:Ea.
    + apply Ascii.eqb_eq in Ea. subst a. rewrite replaceAll_quote_cons_quote in H.
      discriminate.
    + rewrite (replaceAll_quote_cons_other _ a s Ea) in H. discriminate.
  - destruct (Ascii.eqb a dquote) eqn:Ea; destruct (Ascii.eqb b dquote) eqn:Eb.
    + apply Ascii.eqb_eq in Ea, Eb. subst a b.
      rewrite !replaceAll_quote_cons_quote in H. cbn [append str1] in H.
      injection H as H. f_equal. now apply IH.
    + apply Ascii.eqb_eq in Ea. subst a.
      rewrite replaceAll_quote_cons_quote, (replaceAll_quote_cons_other _ b t Eb) in H.
      cbn [append str1] in H. injection H as Hb _. subst b.
      now rewrite Ascii.eqb_refl in Eb.
    + apply Ascii.eqb_eq in Eb. subst b.
      rewrite replaceAll_quote_cons_quote, (replaceAll_quote_cons_other _ a s Ea) in H.
      cbn [append str1] in H. injection H as Ha _. subst a.
      now rewrite Ascii.eqb_refl in Ea.
    + rewrite (replaceAll_quote_cons_other _ a s Ea),
        (replaceAll_quote_cons_other _ b t Eb) in H.
      injection H as -> H. f_equal. now apply IH.
Qed.

Lemma createLine_single_string (params : Normalized) (data : list value) (row : value)
    (f : field) (s init : string) (c : ascii) :
  n_fields params = [f] ->
  n_del params = init ++ str1 c ->
  JsString.count bslash (n_del params) = 0 ->
  JsString.count bslash (n_quotes params) = 0 ->
  JsString.count bslash (n_doubleQuotes params) = 0 ->
  JsString.noDollar (n_doubleQuotes params) = true ->
  cellValue params data row f = VStr s ->
  plainString s = true ->
  createLine params data row = Ok (csvText params (VStr s) ++ init).
Proof.
  intros Hf Hdel Hbd Hbq Hbdq Hnd Hv Hp.
  destruct (createLine_joined params data row init c) as [texts [Ht Hline]];
    [rewrite Hf; discriminate | exact Hdel | exact Hnd |].
  destruct (mapM_fieldText_plain params data row (n_fields params) Hbq)
    as [texts' [Ht' Hall]].
  { rewrite Hf. constructor; [|constructor]. rewrite Hv. exact Hp. }
  rewrite Ht in Ht'. injection Ht' as <-.
  rewrite Hline. f_equal.
  apply escapeLine_Escapes; [exact Hbdq|].
  rewrite Hf in Hall. cbn [map] in Hall. rewrite Hv in Hall.
  inversion Hall as [|t0 u0 ts us Ht0 Hrest]; subst. inversion Hrest; subst.
  cbn [JsString.join]. apply Escapes_app; [exact Ht0|].
  apply Escapes_plain. rewrite Hdel, count_append in Hbd. lia.
Qed.

(** X19. Under the default quote and doubleQuotes, two rows whose
    single cell holds strings without backslash and control character
    give the same line only when the strings are the same: doubling the
    quotes loses nothing. *)
Theorem distinct_strings_distinct_lines (params : Normalized) (data : list value)
    (row1 row2 : value) (f : field) (s1 s2 init : string) (c : ascii) :
  n_fields params = [f] ->
  n_quotes params = str1 dquote ->
  n_doubleQuotes params = String dquote (str1 dquote) ->
  n_del params = init ++ str1 c ->
  JsString.count bslash (n_del params) = 0 ->
  cellValue params data row1 f = VStr s1 ->
  cellValue params data row2 f = VStr s2 ->
  plainString s1 = true ->
  plainString s2 = true ->
  createLine params data row1 = createLine params data row2 ->
  s1 = s2.
Proof.
  intros Hf Hq Hdq Hdel Hbd Hv1 Hv2 Hp1 Hp2 Heq.
  assert (Hbq : JsString.count bslash (n_quotes params) = 0) by now rewrite Hq.
  assert (Hbdq : JsString.count bslash (n_doubleQuotes params) = 0) by now rewrite Hdq.
  assert (Hnd : JsString.noDollar (n_doubleQuotes params) = true) by now rewrite Hdq.
  rewrite (createLine_single_string params data row1 f s1 init c Hf Hdel Hbd Hbq Hbdq Hnd
             Hv1 Hp1),
    (createLine_single_string params data row2 f s2 init c Hf Hdel Hbd Hbq Hbdq Hnd Hv2 Hp2)
    in Heq.
  injection Heq as Heq. apply append_inv_tail in Heq.
  apply doubled_quotes_injective.
  unfold csvText, csvQuoted in Heq. rewrite Hq, Hdq in Heq.
  destruct (n_excelStrings params).
  - unfold excelWrapped in Heq. apply append_inv_head in Heq.
    apply append_inv_tail in Heq. apply append_inv_head in Heq.
    now apply append_inv_tail in Heq.
  - apply append_inv_head in Heq. now apply append_inv_tail in Heq.
Qed.

Lemma distinct_strings_distinct_lines_witness :
  String "x" (str1 dquote) = String "x" (str1 dquote).
Proof.
  apply (distinct_strings_distinct_lines normalizedA []
           (VObj [("a", VStr (String "x" (str1 dquote)))])
           (VObj [("a", VStr (String "x" (str1 dquote))); ("b", VNum 1)])
           (FieldString "a") _ _ "" ","%char); reflexivity.
Defined.

(** ** Flattened rows *)

Lemma flatStep_object (prev : string) (ps : props) :
  forall out, flatStep (VObj ps) prev out = flatProps prev ps out.
Proof.
  induction ps as [|[k v] ps IH]; intros out; [reflexivity|].
  change (flatStep (VObj ((k, v) :: ps)) prev out)
    with (flatStep (VObj ps) prev
            (if isFlattenable v then flatStep v (newKey prev k) out
             else setProp out (newKey prev k) v)).
  now rewrite IH.
Qed.

Lemma flatProps_cons (prev key : string) (x : value) (ps out : props) :
  flatProps prev ((key, x) :: ps) out
  = flatProps prev ps (if isFlattenable x then flatStep x (newKey prev key) out
                       else setProp out (newKey prev key) x).
Proof. reflexivity. Qed.

Lemma underPrefix_self (prev key : string) : prev <> "" -> underPrefix prev (newKey prev key).
Proof.
  intros H. rewrite newKey_under by exact H. now exists key.
Qed.

Lemma underPrefix_not_self (prev key k : string) :
  prev <> "" -> ~ underPrefix prev k -> k <> newKey prev key.
Proof.
  intros Hp Hn ->. apply Hn. now apply underPrefix_self.
Qed.

Lemma flatChars_frame (prev k : string) (s : string) :
  prev <> "" -> ~ underPrefix prev k ->
  forall i out, lookup k (flatChars prev i s out) = lookup k out.
Proof.
  intros Hp Hn. induction s as [|a s IH]; intros i out; cbn [flatChars]; [reflexivity|].
  rewrite IH. apply lookup_setProp_other. now apply underPrefix_not_self.
Qed.

(** What flat writes for a value lies under its prefix. *)
Lemma flatStep_frame (v : value) :
  forall prev out k,
    prev <> "" -> ~ underPrefix prev k ->
    lookup k (flatStep v prev out) = lookup k out.
Proof.
  induction v as [| |b|n|s|xs IHxs|ps IHps] using value_ind;
    intros prev out k Hp Hn; try reflexivity.
  - now apply flatChars_frame.
  - cbn [flatStep]. generalize 0 as i. revert out.
    induction IHxs as [|x xs Hx _ IH]; intros out i; [reflexivity|].
    rewrite IH. destruct (isFlattenable x).
    + apply Hx; [now apply newKey_not_empty|].
      intros H. apply Hn. eapply underPrefix_newKey; eauto.
    + apply lookup_setProp_other. now apply underPrefix_not_self.
  - rewrite flatStep_object. revert out.
    induction IHps as [|[key x] ps Hx _ IH]; intros out; [reflexivity|].
    rewrite flatProps_cons, IH. cbn [snd] in Hx. destruct (isFlattenable x).
    + apply Hx; [now apply newKey_not_empty|].
      intros H. apply Hn. eapply underPrefix_newKey; eauto.
    + apply lookup_setProp_other. now apply underPrefix_not_self.
Qed.

(** A text that is empty or starts with a dot: what follows a key in a
    joined path. *)
Lemma first_key_determined :
  forall k k' r r',
    JsString.count "."%char k = 0 -> JsString.count "."%char k' = 0 ->
    (r = "" \/ exists t, r = String "."%char t) ->
    (r' = "" \/ exists t, r' = String "."%char t) ->
    k ++ r = k' ++ r' -> k = k'.
Proof.
  induction k as [|a k IH]; intros [|b k'] r r' Hk Hk' Hr Hr' H; cbn [append] in H.
  - reflexivity.
  - apply count_cons_zero in Hk'. destruct Hk' as [Hb _].
    destruct Hr as [-> | [t ->]]; [discriminate|].
    injection H as <- _. discriminate.
  - apply count_cons_zero in Hk. destruct Hk as [Ha _].
    destruct Hr' as [-> | [t ->]]; [discriminate|].
    injection H as -> _. discriminate.
  - apply count_cons_zero in Hk. apply count_cons_zero in Hk'.
    injection H as -> H. f_equal. apply (IH k' r r'); tauto.
Qed.

Lemma simpleKey_spec (k : string) :
  simpleKey k = true -> k <> "" /\ JsString.count "."%char k = 0.
Proof.
  unfold simpleKey. rewrite !andb_true_iff, negb_true_iff, String.eqb_neq, !Nat.eqb_eq.
  tauto.
Qed.

Lemma newKey_prefix (prev : string) : exists pre, forall x, newKey prev x = pre ++ x.
Proof.
  unfold newKey. destruct (prev =? "").
  - now exists "".
  - exists (prev ++ "."). intros x. now rewrite append_assoc.
Qed.

(** The keys that flat writes for two properties of one object do not
    meet. *)
Lemma sibling_apart (prev k k' r : string) :
  simpleKey k = true -> simpleKey k' = true -> k <> k' ->
  (r = "" \/ exists t, r = String "."%char t) ->
  newKey prev (k ++ r) <> newKey prev k'
  /\ ~ underPrefix (newKey prev k') (newKey prev (k ++ r)).
Proof.
  intros Hk Hk' Hne Hr.
  apply simpleKey_spec in Hk, Hk'. destruct Hk as [_ Hk]. destruct Hk' as [_ Hk'].
  destruct (newKey_prefix prev) as [pre Hpre]. rewrite !Hpre. split.
  - intros H. apply append_inv_head in H. apply Hne.
    apply (first_key_determined k k' r ""); auto. now rewrite append_nil_r.
  - intros [rest H]. rewrite append_assoc in H. apply append_inv_head in H.
    apply Hne. apply (first_key_determined k k' r ("." ++ rest)); auto.
    right. now exists rest.
Qed.

Lemma newKey_simple_not_empty (prev k : string) : simpleKey k = true -> newKey prev k <> "".
Proof.
  intros Hk. apply simpleKey_spec in Hk. destruct Hk as [Hk _].
  unfold newKey. destruct (prev =? "") eqn:E; [exact Hk|].
  apply String.eqb_neq in E. now apply append_not_empty.
Qed.

Lemma flatProps_frame (prev k r : string) (qs : props) :
  simpleKey k = true ->
  (r = "" \/ exists t, r = String "."%char t) ->
  Forall (fun kv => simpleKey (fst kv) = true /\ fst kv <> k) qs ->
  forall out,
    lookup (newKey prev (k ++ r)) (flatProps prev qs out) = lookup (newKey prev (k ++ r)) out.
Proof.
  intros Hk Hr Hall. induction Hall as [|[k' x] qs [Hk' Hne] _ IH]; intros out; [reflexivity|].
  cbn [fst] in *. rewrite flatProps_cons, IH.
  destruct (sibling_apart prev k k' r Hk Hk' (not_eq_sym Hne) Hr) as [H1 H2].
  destruct (isFlattenable x).
  - apply flatStep_frame; [now apply newKey_simple_not_empty | exact H2].
  - now apply lookup_setProp_other.
Qed.

Lemma join_cons_cons (sep x y : string) (l : list string) :
  JsString.join sep (x :: y :: l) = x ++ sep ++ JsString.join sep (y :: l).
Proof. reflexivity. Qed.

Lemma join_tail (x : string) (l : list string) :
  exists r, JsString.join "." (x :: l) = x ++ r
            /\ (r = "" \/ exists t, r = String "."%char t)
            /\ (l = [] -> r = "")
            /\ (l <> [] -> r = "." ++ JsString.join "." l).
Proof.
  destruct l as [|y l].
  - exists "". cbn [JsString.join]. rewrite append_nil_r. repeat split; auto. congruence.
  - exists ("." ++ JsString.join "." (y :: l)). rewrite join_cons_cons.
    repeat split; [right; eexists; reflexivity | discriminate].
Qed.

Lemma distinct_cons (k : string) (l : list string) :
  distinct (k :: l) = true -> ~ In k l /\ distinct l = true.
Proof.
  cbn [distinct]. rewrite andb_true_iff, negb_true_iff. intros [He Hd]. split; [|exact Hd].
  intros Hin. assert (Ht : existsb (String.eqb k) l = true).
  { apply existsb_exists. exists k. split; [exact Hin | apply String.eqb_refl]. }
  congruence.
Qed.

Lemma tidy_object (ps : props) :
  tidy (VObj ps) = true ->
  distinct (map fst ps) = true
  /\ Forall (fun kv => simpleKey (fst kv) = true) ps
  /\ Forall (fun kv => tidy (snd kv) = true) ps.
Proof.
  cbn [tidy]. rewrite !andb_true_iff, !forallb_forall. intros [[Hd Hs] Ht].
  repeat split; [exact Hd | |]; apply Forall_forall; intros kv Hin; [|now apply Ht].
  apply Hs. now apply in_map.
Qed.

Lemma leafAt_nonempty_flattenable (x : value) (ks : list string) (w : value) :
  ks <> [] -> leafAt x ks = Some w -> isFlattenable x = true.
Proof.
  destruct ks as [|k rest]; [congruence|]. intros _. cbn [leafAt].
  destruct x as [| |b|n|s|xs|ps]; try discriminate.
  destruct ps; [discriminate | reflexivity].
Qed.

(** The value at the end of a path of keys is stored by flat under the
    joined keys. *)
Lemma flat_leaf (w : value) (ks : list string) :
  forall v prev out,
    ks <> [] -> tidy v = true -> leafAt v ks = Some w ->
    lookup (newKey prev (JsString.join "." ks)) (flatStep v prev out) = Some w.
Proof.
  induction ks as [|k rest IH]; intros v prev out Hne Ht Hl; [congruence|].
  cbn [leafAt] in Hl. destruct v as [| |b|n|s|xs|ps]; try discriminate.
  rewrite flatStep_object.
  destruct (tidy_object ps Ht) as [Hd [Hs Hts]]. clear Ht Hne.
  destruct (join_tail k rest) as [r [Hj [Hr [Hr0 Hr1]]]]. rewrite Hj.
  revert out. induction ps as [|[k' x'] ps IHps]; intros out; [discriminate|].
  cbn [lookup] in Hl. cbn [map fst] in Hd. apply distinct_cons in Hd.
  destruct Hd as [Hnin Hd].
  inversion Hs as [|? ? Hk' Hs']; subst. inversion Hts as [|? ? Hx' Hts']; subst.
  cbn [fst snd] in *. rewrite flatProps_cons.
  destruct (k' =? k) eqn:E.
  - apply String.eqb_eq in E. subst k'.
    rewrite flatProps_frame; [| exact Hk' | exact Hr |].
    2:{ apply Forall_forall. intros kv Hin. split.
        - rewrite Forall_forall in Hs'. now apply Hs'.
        - intros Heq. apply Hnin. rewrite <- Heq. now apply in_map. }
    destruct rest as [|k2 rest].
    + rewrite (Hr0 eq_refl), append_nil_r. cbn [leafAt] in Hl.
      destruct (isFlattenable x'); [discriminate|]. injection Hl as <-.
      apply lookup_setProp_same.
    + rewrite (leafAt_nonempty_flattenable x' (k2 :: rest) w ltac:(discriminate) Hl).
      rewrite (Hr1 ltac:(discriminate)).
      replace (newKey prev (k ++ "." ++ JsString.join "." (k2 :: rest)))
        with (newKey (newKey prev k) (JsString.join "." (k2 :: rest))).
      * apply IH; [discriminate | exact Hx' | exact Hl].
      * rewrite (newKey_under (newKey prev k)) by now apply newKey_simple_not_empty.
        unfold newKey. destruct (prev =? ""); [reflexivity|]. now rewrite !append_assoc.
  - now apply IHps.
Qed.

Lemma prefix_dot (a : ascii) (s : string) :
  String.prefix "." (String a s) = Ascii.eqb "."%char a.
Proof.
  rewrite prefix_cons, prefix_nil. apply andb_true_r.
Qed.

Lemma splitGo_no_dot (k : string) :
  JsString.count "."%char k = 0 -> JsString.splitGo "." 0 k = (k, []).
Proof.
  induction k as [|a k IH]; intros H; [reflexivity|].
  apply count_cons_zero in H. destruct H as [Ha Hk].
  rewrite splitGo_here, prefix_dot, Ascii.eqb_sym, Ha, (IH Hk). reflexivity.
Qed.

Lemma splitGo_first_key (k s : string) :
  JsString.count "."%char k = 0 ->
  JsString.splitGo "." 0 (k ++ String "."%char s) = (k, JsString.split "." s).
Proof.
  induction k as [|a k IH]; intros H.
  - cbn [append]. rewrite splitGo_here, prefix_dot, Ascii.eqb_refl.
    cbn [String.length Nat.sub]. unfold JsString.split.
    now destruct (JsString.splitGo "." 0 s).
  - apply count_cons_zero in H. destruct H as [Ha Hk]. cbn [append].
    rewrite splitGo_here, prefix_dot, Ascii.eqb_sym, Ha, (IH Hk). reflexivity.
Qed.

(** Splitting joined keys at the dots gives the keys back. *)
Lemma split_join_keys (ks : list string) :
  ks <> [] -> Forall (fun k => JsString.count "."%char k = 0) ks ->
  stringToPath (JsString.join "." ks) = ks.
Proof.
  unfold stringToPath. induction ks as [|k ks IH]; intros Hne Hall; [congruence|].
  inversion Hall as [|? ? Hk Hks]; subst. destruct ks as [|k2 ks].
  - cbn [JsString.join]. unfold JsString.split. now rewrite splitGo_no_dot.
  - rewrite join_cons_cons. unfold JsString.split at 1.
    change ("." ++ JsString.join "." (k2 :: ks))
      with (String "."%char (JsString.join "." (k2 :: ks))).
    rewrite (splitGo_first_key k _ Hk). f_equal. apply IH; [discriminate | exact Hks].
Qed.

Lemma lookup_In (k : string) (ps : props) (x : value) :
  lookup k ps = Some x -> In (k, x) ps.
Proof.
  induction ps as [|[k' x'] ps IH]; cbn [lookup]; [discriminate|].
  destruct (k' =? k) eqn:E.
  - apply String.eqb_eq in E. intros H. injection H as <-. subst. now left.
  - intros H. right. now apply IH.
Qed.

Lemma leafAt_keys (w : value) (ks : list string) :
  forall v, tidy v = true -> leafAt v ks = Some w ->
            Forall (fun k => simpleKey k = true) ks.
Proof.
  induction ks as [|k rest IH]; intros v Ht Hl; [constructor|].
  cbn [leafAt] in Hl. destruct v as [| |b|n|s|xs|ps]; try discriminate.
  destruct (lookup k ps) as [x|] eqn:E; [|discriminate].
  destruct (tidy_object ps Ht) as [_ [Hs Hts]].
  apply lookup_In in E. rewrite Forall_forall in Hs, Hts.
  constructor; [exact (Hs _ E) | exact (IH x (Hts _ E) Hl)].
Qed.

Lemma leafAt_baseGetFrom (w : value) (ks : list string) :
  forall v, leafAt v ks = Some w -> baseGetFrom v ks = w.
Proof.
  induction ks as [|k rest IH]; intros v Hl; cbn [leafAt] in Hl.
  - destruct (isFlattenable v); [discriminate|]. now injection Hl.
  - destruct v as [| |b|n|s|xs|ps]; try discriminate.
    destruct (lookup k ps) as [x|] eqn:E; [|discriminate].
    cbn [baseGetFrom isNullish getProp]. rewrite E. now apply IH.
Qed.

Lemma count_dot_join (k k2 : string) (ks : list string) :
  JsString.count "."%char (JsString.join "." (k :: k2 :: ks)) <> 0.
Proof.
  rewrite join_cons_cons, count_append.
  change ("." ++ JsString.join "." (k2 :: ks))
    with (String "."%char (JsString.join "." (k2 :: ks))).
  rewrite count_cons, Ascii.eqb_refl. lia.
Qed.

(** The keys of the path, as lodash.get casts the joined path on the
    row that is not flattened. *)
Lemma castPath_joined_keys (ps : props) (ks : list string) (w : value) :
  ks <> [] -> tidy (VObj ps) = true -> leafAt (VObj ps) ks = Some w ->
  castPath (JsString.join "." ks) (VObj ps) = ks.
Proof.
  intros Hne Ht Hl. unfold castPath.
  pose proof (leafAt_keys w ks (VObj ps) Ht Hl) as Hks.
  destruct (hasIn (VObj ps) (JsString.join "." ks)) eqn:Eh.
  - destruct ks as [|k [|k2 ks]]; [congruence | reflexivity |].
    exfalso. cbn [hasIn] in Eh.
    destruct (lookup (JsString.join "." (k :: k2 :: ks)) ps) as [x|] eqn:E; [|discriminate].
    apply lookup_In in E. destruct (tidy_object ps Ht) as [_ [Hs _]].
    rewrite Forall_forall in Hs. apply Hs in E. cbn [fst] in E.
    apply simpleKey_spec in E. destruct E as [_ E].
    exact (count_dot_join k k2 ks E).
  - apply split_join_keys; [exact Hne|].
    eapply Forall_impl; [|exact Hks]. intros k Hk. now apply simpleKey_spec in Hk.
Qed.

Lemma lodashGet_nested (ps : props) (ks : list string) (w d : value) :
  ks <> [] -> tidy (VObj ps) = true -> leafAt (VObj ps) ks = Some w ->
  lodashGet (VObj ps) (JsString.join "." ks) d
  = match w with VUndefined => d | _ => w end.
Proof.
  intros Hne Ht Hl. unfold lodashGet. cbn [isNullish].
  rewrite (castPath_joined_keys ps ks w Hne Ht Hl).
  rewrite baseGet_baseGetFrom by exact Hne.
  now rewrite (leafAt_baseGetFrom w ks (VObj ps) Hl).
Qed.

Lemma lodashGet_flattened (ps : props) (ks : list string) (w d : value) :
  ks <> [] -> tidy (VObj ps) = true -> leafAt (VObj ps) ks = Some w ->
  lodashGet (VObj (flatStep (VObj ps) "" [])) (JsString.join "." ks) d
  = match w with VUndefined => d | _ => w end.
Proof.
  intros Hne Ht Hl.
  pose proof (flat_leaf w ks (VObj ps) "" [] Hne Ht Hl) as Hf.
  change (newKey "" (JsString.join "." ks)) with (JsString.join "." ks) in Hf.
  unfold lodashGet, castPath. cbn [isNullish hasIn]. rewrite Hf.
  cbn [baseGet baseGetFrom isNullish getProp]. now rewrite Hf.
Qed.

(** X20. With flatten on, a row of nested objects is replaced by the
    flat object of its leaves, and a path field that names a leaf by
    its keys joined with dots reads the same value from the flat row
    as from the nested row: the cell is the one that the conversion
    without flatten gives.  The keys are not empty, hold no dot and no
    bracket (which lodash reads as path syntax), are not __proto__ and
    are not repeated within one object. *)
Theorem flatten_keeps_nested_cells (params : Json2CsvParams) (ps : props)
    (ks : list string) (w : value) :
  flatten params = true ->
  tidy (VObj ps) = true ->
  ks <> [] ->
  leafAt (VObj ps) ks = Some w ->
  exists flatRow,
    normalizeData (VArr [VObj ps]) params = Ok [flatRow]
    /\ (forall d, lodashGet flatRow (JsString.join "." ks) d
                  = lodashGet (VObj ps) (JsString.join "." ks) d)
    /\ forall np data data',
         cellValue np data flatRow (FieldString (JsString.join "." ks))
         = cellValue np data' (VObj ps) (FieldString (JsString.join "." ks))
         /\ cellValue np data flatRow (FieldString (JsString.join "." ks))
            = if isNullish w then n_defaultValue np else w.
Proof.
  intros Hfl Ht Hne Hl.
  exists (VObj (flatStep (VObj ps) "" [])).
  assert (Hget : forall d, lodashGet (VObj (flatStep (VObj ps) "" [])) (JsString.join "." ks) d
                           = lodashGet (VObj ps) (JsString.join "." ks) d).
  { intros d. now rewrite (lodashGet_flattened ps ks w d Hne Ht Hl),
                (lodashGet_nested ps ks w d Hne Ht Hl). }
  split; [|split].
  - unfold normalizeData. rewrite Hfl. reflexivity.
  - exact Hget.
  - intros np data data'. unfold cellValue. cbn [fieldDefault]. rewrite Hget. split.
    + reflexivity.
    + destruct (JsString.join "." ks =? "") eqn:E.
      * exfalso. apply String.eqb_eq in E.
        pose proof (leafAt_keys w ks (VObj ps) Ht Hl) as Hks.
        destruct ks as [|k rest]; [congruence|].
        inversion Hks as [|? ? Hk _]; subst. apply simpleKey_spec in Hk.
        destruct (join_tail k rest) as [r [Hj _]]. rewrite Hj in E.
        destruct k; [tauto | discriminate].
      * rewrite (lodashGet_nested ps ks w _ Hne Ht Hl).
        destruct w; try reflexivity. cbn [isNullish].
        now destruct (isNullish (n_defaultValue np)).
Qed.

Lemma flatten_keeps_nested_cells_witness :
  exists flatRow,
    normalizeData (VArr [nestedRow]) onlyFlatten = Ok [flatRow]
    /\ (forall d, lodashGet flatRow "car.make" d = lodashGet nestedRow "car.make" d)
    /\ forall np data data',
         cellValue np data flatRow (FieldString "car.make")
         = cellValue np data' nestedRow (FieldString "car.make")
         /\ cellValue np data flatRow (FieldString "car.make")
            = if isNullish (VStr "Audi") then n_defaultValue np else VStr "Audi".
Proof.
  apply (flatten_keeps_nested_cells onlyFlatten
           [("id", VNum 1); ("car", VObj [("make", VStr "Audi"); ("year", VNum 2011)])]
           ["car"; "make"] (VStr "Audi")); [reflexivity | reflexivity | discriminate | reflexivity].
Defined.

(** ** C10: the columns of flattened rows *)







